(** * Orchestration logic of the Perceptual-CycleGAN and U-Net model wrappers

    A shallow embedding of [models/perceptual_cycle_gan_model.py] and
    [models/unet_model.py].  The two classes are glue code over PyTorch: they
    store tensors in attributes of [self], call networks, combine losses and
    drive optimizers.  The embedding keeps that shape:

    - a method of a class is a computation in a state-and-exception monad
      over the attributes of [self]; an exception leaves the attributes that
      were assigned before it in place, as in Python;
    - tensor values are rectangular nested lists of rationals ([Qc]); the
      elementwise arithmetic of the U-Net rounds every result to single
      precision; device placement is not modelled;
    - a tensor of the CycleGAN carries the history autograd records with it,
      and [backward] adds gradients to the networks this history reaches;
    - what PyTorch and the absent modules of the repository compute (network
      functions, loss criteria, gradient values, optimizer update rules, the
      image pool, the loading of a saved network, the heat maps) is a
      parameter: the fields of the class [Backend] of the U-Net and of the
      classes [Torch] and [Perception] of the CycleGAN.  Module [Toy] gives
      a small instance of each, on which the definitions run.

    Embedded are, of [UnetModel]: [get_network_by_name], [__init__] (after
    the call of the base class), [set_input], [forward] and
    [compute_visuals]; of [PerceptualCycleGANModel]: [__init__] (after the
    call of the base class), [get_activation], [set_input], [forward],
    [backward_D_basic], [backward_D_A], [backward_D_B], [backward_G],
    [optimize_parameters] and [model_evaluation]. *)

From Stdlib Require Import QArith Qcanon Qabs Qround Qpower Lqa Ascii String.
From Stdlib Require Qcabs.
From stdpp Require Import base option numbers list strings gmap fin_maps.

Local Open Scope Qc_scope.
Set Warnings "-clear-no-such-hyp".
Set Warnings "-register-all".

(** ** Python exceptions and the state-and-exception monad *)

Inductive exn :=
| AttributeError (name : string)
| KeyError (key : string)
| IndexError
| ValueError
| AssertionError
| UnboundLocalError (var : string)
| NotImplementedError (msg : string)
| RuntimeError (msg : string).

Inductive result (A : Type) :=
| Ok (a : A)
| Err (e : exn).
Arguments Ok {A} a.
Arguments Err {A} e.

Definition is_ok {A} (r : result A) : bool :=
  match r with Ok _ => true | Err _ => false end.

Global Instance result_ret : MRet result := λ _ a, Ok a.
Global Instance result_bind : MBind result :=
  λ _ _ k r, match r with Ok a => k a | Err e => Err e end.

(** A method body: it reads and writes the object state [S]; it returns a
    value or raises, and in both cases the state it reached is kept. *)
Definition M (S A : Type) : Type := S → result A * S.

Definition ret {S A} (a : A) : M S A := λ s, (Ok a, s).

Definition bind {S A B} (m : M S A) (k : A → M S B) : M S B :=
  λ s, match m s with
       | (Ok a, s') => k a s'
       | (Err e, s') => (Err e, s')
       end.

Definition raise {S A} (e : exn) : M S A := λ s, (Err e, s).
Definition gets {S A} (f : S → A) : M S A := λ s, (Ok (f s), s).
Definition modify {S} (f : S → S) : M S unit := λ s, (Ok tt, f s).

(** An operation of the framework that may raise and touches no attribute. *)
Definition lift {S A} (r : result A) : M S A := λ s, (r, s).

Global Instance M_ret {S} : MRet (M S) := λ _ a, ret a.
Global Instance M_bind {S} : MBind (M S) := λ _ _ k m, bind m k.

(** A computation leaves an observation [f] of the state as it was, whether
    it returns or raises. *)
Definition frame {S A X} (f : S → X) (m : M S A) : Prop :=
  ∀ s, f (m s).2 = f s.

(** A computation started in a state where [P] holds ends in a state where
    [E] holds, whether it returns or raises; when it returns [a], [Q a] holds
    of the state it ends in. *)
Definition triple {S A} (P : S → Prop) (m : M S A) (Q : A → S → Prop)
    (E : S → Prop) : Prop :=
  ∀ s, P s → E (m s).2 ∧ ∀ a, (m s).1 = Ok a → Q a (m s).2.

(** [assert(b)] *)
Definition assert {S} (b : bool) : M S unit :=
  if b then ret tt else raise AssertionError.

(** [getattr]: reading an attribute that was never assigned raises. *)
Definition getattr {S A} (name : string) (f : S → option A) : M S A :=
  λ s, match f s with
       | Some a => (Ok a, s)
       | None => (Err (AttributeError name), s)
       end.

(** ** Tensors *)

(** A tensor is a scalar (zero dimensions) or a list of sub-tensors along its
    first dimension. *)
Inductive tensor :=
| Scalar (x : Qc)
| Dim (l : list tensor).

Fixpoint tmap (f : Qc → Qc) (t : tensor) : tensor :=
  match t with
  | Scalar x => Scalar (f x)
  | Dim l => Dim (map (tmap f) l)
  end.

(** The images and masks of the U-Net are [float32] tensors.  An arithmetic
    operation of PyTorch on such a tensor returns, for each entry, the exact
    result rounded to the nearest number with 24 significant bits, ties
    going to the even one.  The exponent is not bounded here: results beyond
    the range of [float32], where PyTorch gives [inf] or a subnormal number,
    are outside the model. *)
Section Float32.
Local Open Scope Q_scope.

(** The exponent [e] of a positive [q]: [2 ^ e <= q < 2 ^ (e + 1)]. *)
Definition ilog2 (q : Q) : Z :=
  let e := (Z.log2 (Qnum q) - Z.log2 (Z.pos (Qden q)))%Z in
  if Qle_bool (2 ^ e) q then e else (e - 1)%Z.

(** The integer nearest to [q]; of two that are equally near, the even one. *)
Definition nearest_even (q : Q) : Z :=
  let f := Qfloor q in
  match Qcompare (q - inject_Z f) (1 # 2) with
  | Lt => f
  | Gt => (f + 1)%Z
  | Eq => if Z.even f then f else (f + 1)%Z
  end.

(** [q] rounded to 24 significant bits. *)
Definition round24 (q : Q) : Q :=
  match Qnum q with
  | Z0 => 0
  | _ => let s := 2 ^ (23 - ilog2 (Qabs q)) in
         inject_Z (nearest_even (q * s)) / s
  end.

End Float32.

Definition float32 (x : Qc) : Qc := Q2Qc (round24 x).

(** Arithmetic of a tensor with a Python number is elementwise; the number
    is a small integer here, which [float32] holds exactly. *)
Definition tadd (t : tensor) (c : Qc) : tensor := tmap (λ x, float32 (x + c)) t.
Definition tsub (t : tensor) (c : Qc) : tensor := tmap (λ x, float32 (x - c)) t.
Definition tmul (t : tensor) (c : Qc) : tensor := tmap (λ x, float32 (x * c)) t.
Definition tdiv (t : tensor) (c : Qc) : tensor := tmap (λ x, float32 (x / c)) t.

(** [t[i]] for a Python integer [i]: negative indices count from the end. *)
Definition tindex (t : tensor) (i : Z) : result tensor :=
  match t with
  | Scalar _ => Err IndexError
  | Dim l =>
      let n := Z.of_nat (length l) in
      let j := if (i <? 0)%Z then (i + n)%Z else i in
      if ((0 <=? j)%Z && (j <? n)%Z)%bool
      then match l !! Z.to_nat j with
           | Some x => Ok x
           | None => Err IndexError
           end
      else Err IndexError
  end.

(** [torch.unsqueeze(t, 0)] *)
Definition unsqueeze0 (t : tensor) : tensor := Dim [t].

(** [t.shape], read along the first element of every dimension. *)
Fixpoint shape (t : tensor) : list nat :=
  match t with
  | Scalar _ => []
  | Dim l => length l :: match l with [] => [] | x :: _ => shape x end
  end.

(** [torch.cat((a, b), dim=d)] on the data. *)
Fixpoint cat_data (d : nat) (a b : tensor) : tensor :=
  match d, a, b with
  | O, Dim x, Dim y => Dim (x ++ y)
  | S d', Dim x, Dim y => Dim (zip_with (cat_data d') x y)
  | _, _, _ => a
  end.

(** The sizes of two tensors agree in every dimension but [d]; they have
    dimension [d].  (PyTorch also lets an empty one-dimensional tensor be
    concatenated with anything; the models never do.) *)
Fixpoint sizes_agree (d : nat) (sa sb : list nat) : bool :=
  match d, sa, sb with
  | O, _ :: ra, _ :: rb => bool_decide (ra = rb)
  | S d', x :: ra, y :: rb => bool_decide (x = y) && sizes_agree d' ra rb
  | _, _, _ => false
  end.

Definition cat (d : nat) (a b : tensor) : result tensor :=
  if sizes_agree d (shape a) (shape b)
  then Ok (cat_data d a b)
  else Err (RuntimeError "Sizes of tensors must match except in the concatenated dimension").

(** [torch.zeros(n)] and [torch.ones(n)]; a negative size raises. *)
Definition full (n : Z) (x : Qc) : result tensor :=
  if (n <? 0)%Z
  then Err (RuntimeError "Trying to create tensor with negative dimension")
  else Ok (Dim (replicate (Z.to_nat n) (Scalar x))).
Definition zeros (n : Z) : result tensor := full n 0.
Definition ones (n : Z) : result tensor := full n 1.

(** [t[:, :, c]] on a tensor of three dimensions. *)
Definition channel (c : nat) (t : tensor) : tensor :=
  match t with
  | Dim rows =>
      Dim (map (λ row, match row with
                       | Dim pixels =>
                           Dim (map (λ px, match px with
                                           | Dim chans => default px (chans !! c)
                                           | Scalar _ => px
                                           end) pixels)
                       | Scalar _ => row
                       end) rows)
  | Scalar _ => t
  end.

(** [t.permute(2, 0, 1)]: a tensor of dimensions [h, w, c] becomes one of
    dimensions [c, h, w]; any other number of dimensions raises. *)
Definition permute201 (t : tensor) : result tensor :=
  match shape t with
  | [_; _; c] => Ok (Dim (map (λ k, channel k t) (seq 0 c)))
  | _ => Err (RuntimeError "permute: number of dimensions in the tensor input does not match the length of the desired ordering of dimensions")
  end.

(** ** Python library functions used by the models *)

(** [random.randint(a, b)]: an integer of [a..b], both ends included; [u] is
    the raw draw of the pseudo-random generator.  An empty range raises. *)
Definition randint (a b : Z) (u : nat) : result Z :=
  if (b <? a)%Z then Err ValueError
  else Ok (a + Z.of_nat u `mod` (b - a + 1))%Z.

Definition upper_ascii (c : ascii) : ascii :=
  let n := nat_of_ascii c in
  if ((97 <=? n)%nat && (n <=? 122)%nat)%bool then ascii_of_nat (n - 32) else c.

(** [str.upper()] on ASCII text: the letters [a] to [z] become [A] to [Z]
    and every other character stays.  Python also maps letters beyond ASCII,
    some to more than one character; what is proved of [upper] is stated
    for strings of ASCII characters only. *)
Fixpoint upper (s : string) : string :=
  match s with
  | EmptyString => EmptyString
  | String c r => String (upper_ascii c) (upper r)
  end.

(** [str.isascii()]: every character is below 128. *)
Fixpoint isascii (s : string) : bool :=
  match s with
  | EmptyString => true
  | String c r => (nat_of_ascii c <? 128)%nat && isascii r
  end.

(** A value of the dictionary a data loader yields. *)
Inductive pyval :=
| PyTensor (t : tensor)
| PyPaths (l : list string).

(** [d[key]] on a dictionary. *)
Definition getitem {S A} (d : gmap string A) (key : string) : M S A :=
  match d !! key with
  | Some v => mret v
  | None => raise (KeyError key)
  end.

(** [v.to(device)]: devices are not modelled, so a tensor is returned as it
    is; a list has no such method. *)
Definition to_device {S} (v : pyval) : M S tensor :=
  match v with
  | PyTensor t => mret t
  | PyPaths _ => raise (AttributeError "to")
  end.

(** * The U-Net segmentation model ([models/unet_model.py]) *)

Module UnetModel.

(** The classes of [Unet_networks.models]. *)
Inductive arch :=
| UNet
| UNet_2Plus
| UNet_3Plus
| UNet_3Plus_DeepSup
| UNet_3Plus_DeepSup_CGM.

(** The segmentation networks are not part of the model class: what a
    constructor creates and what a network computes are taken as given. *)
Class Backend := {
  weights : Type;
  (** the weights a constructor creates for [in_channels] and [n_classes] *)
  init_weights : arch → Z → Z → weights;
  (** the function a network computes on a batch *)
  unet_fn : arch → weights → tensor → result tensor;
}.

(** The options object [opt]; it is shared with the caller and
    [get_network_by_name] writes to it. *)
Record options := {
  unet_type : string;
  loss_type : string;
  input_nc : Z;
  label_num : Z;
  batch_size : Z;
  load_size : Z;
  crop_size : Z;
}.

Definition set_load_size (v : Z) (o : options) : options :=
  {| unet_type := unet_type o; loss_type := loss_type o; input_nc := input_nc o;
     label_num := label_num o; batch_size := batch_size o;
     load_size := v; crop_size := crop_size o |}.

Definition set_crop_size (v : Z) (o : options) : options :=
  {| unet_type := unet_type o; loss_type := loss_type o; input_nc := input_nc o;
     label_num := label_num o; batch_size := batch_size o;
     load_size := load_size o; crop_size := v |}.

Inductive criterion := BCELoss | IOU | MSSSIM.

(** The variant names of the [--unet_type] option, as its help text and the
    specification list them, with the architecture each one stands for. *)
Definition recognized : list string :=
  ["unet"; "unet_2plus"; "unet_3plus"; "unet_3plus_deepsup"; "unet_3plus_deepsup_cgm"].

Definition variant (name : string) : option arch :=
  list_to_map (M := gmap string arch)
    [("unet", UNet); ("unet_2plus", UNet_2Plus); ("unet_3plus", UNet_3Plus);
     ("unet_3plus_deepsup", UNet_3Plus_DeepSup);
     ("unet_3plus_deepsup_cgm", UNet_3Plus_DeepSup_CGM)] !! name.

Section Model.
Context `{Backend}.

(** A network object as its constructor builds it. *)
Record module := {
  m_arch : arch;
  in_channels : Z;
  n_classes : Z;
  is_deconv : bool;
  is_batchnorm : bool;
  m_weights : weights;
  m_device : option Z;
}.

(** [torch.nn.DataParallel(model, device_ids)] *)
Record DataParallel := {
  dp_module : module;
  device_ids : list Z;
}.

(** [torch.optim.SGD(params, lr, momentum)] *)
Record SGD := {
  lr : Qc;
  momentum : Qc;
}.

(** The attributes of [self].  [constructed] is not an attribute: it records
    every network a constructor has built so far, newest last.
    [cuda_is_available] is what [torch.cuda.is_available()] answers. *)
Record state := {
  opt : options;
  isTrain : bool;
  gpu_ids : list Z;
  cuda_is_available : bool;
  constructed : list module;
  loss_names : list string;
  visual_names : list string;
  model_names : list string;
  netUnet : option DataParallel;
  train_criterion : option criterion;
  optimizer : option SGD;
  tensors : gmap string tensor;
  image_paths : option pyval;
}.

Definition set_opt (f : options → options) (s : state) : state :=
  {| opt := f (opt s); isTrain := isTrain s; gpu_ids := gpu_ids s;
     cuda_is_available := cuda_is_available s; constructed := constructed s;
     loss_names := loss_names s; visual_names := visual_names s;
     model_names := model_names s; netUnet := netUnet s;
     train_criterion := train_criterion s; optimizer := optimizer s;
     tensors := tensors s; image_paths := image_paths s |}.

Definition set_constructed (f : list module → list module) (s : state) : state :=
  {| opt := opt s; isTrain := isTrain s; gpu_ids := gpu_ids s;
     cuda_is_available := cuda_is_available s; constructed := f (constructed s);
     loss_names := loss_names s; visual_names := visual_names s;
     model_names := model_names s; netUnet := netUnet s;
     train_criterion := train_criterion s; optimizer := optimizer s;
     tensors := tensors s; image_paths := image_paths s |}.

Definition set_names (l v m : list string) (s : state) : state :=
  {| opt := opt s; isTrain := isTrain s; gpu_ids := gpu_ids s;
     cuda_is_available := cuda_is_available s; constructed := constructed s;
     loss_names := l; visual_names := v; model_names := m; netUnet := netUnet s;
     train_criterion := train_criterion s; optimizer := optimizer s;
     tensors := tensors s; image_paths := image_paths s |}.

Definition set_netUnet (n : DataParallel) (s : state) : state :=
  {| opt := opt s; isTrain := isTrain s; gpu_ids := gpu_ids s;
     cuda_is_available := cuda_is_available s; constructed := constructed s;
     loss_names := loss_names s; visual_names := visual_names s;
     model_names := model_names s; netUnet := Some n;
     train_criterion := train_criterion s; optimizer := optimizer s;
     tensors := tensors s; image_paths := image_paths s |}.

Definition set_train_criterion (c : criterion) (s : state) : state :=
  {| opt := opt s; isTrain := isTrain s; gpu_ids := gpu_ids s;
     cuda_is_available := cuda_is_available s; constructed := constructed s;
     loss_names := loss_names s; visual_names := visual_names s;
     model_names := model_names s; netUnet := netUnet s;
     train_criterion := Some c; optimizer := optimizer s;
     tensors := tensors s; image_paths := image_paths s |}.

Definition set_optimizer (o : SGD) (s : state) : state :=
  {| opt := opt s; isTrain := isTrain s; gpu_ids := gpu_ids s;
     cuda_is_available := cuda_is_available s; constructed := constructed s;
     loss_names := loss_names s; visual_names := visual_names s;
     model_names := model_names s; netUnet := netUnet s;
     train_criterion := train_criterion s; optimizer := Some o;
     tensors := tensors s; image_paths := image_paths s |}.

Definition set_tensors (f : gmap string tensor → gmap string tensor) (s : state) : state :=
  {| opt := opt s; isTrain := isTrain s; gpu_ids := gpu_ids s;
     cuda_is_available := cuda_is_available s; constructed := constructed s;
     loss_names := loss_names s; visual_names := visual_names s;
     model_names := model_names s; netUnet := netUnet s;
     train_criterion := train_criterion s; optimizer := optimizer s;
     tensors := f (tensors s); image_paths := image_paths s |}.

Definition set_image_paths (v : pyval) (s : state) : state :=
  {| opt := opt s; isTrain := isTrain s; gpu_ids := gpu_ids s;
     cuda_is_available := cuda_is_available s; constructed := constructed s;
     loss_names := loss_names s; visual_names := visual_names s;
     model_names := model_names s; netUnet := netUnet s;
     train_criterion := train_criterion s; optimizer := optimizer s;
     tensors := tensors s; image_paths := Some v |}.

(** [self.<name> = t] and [self.<name>] for a tensor attribute. *)
Definition setattr (name : string) (t : tensor) : M state unit :=
  modify (set_tensors (insert name t)).

Definition attr (name : string) : M state tensor :=
  getattr name (λ s, tensors s !! name).

(** What a constructor call [C(in_channels=.., n_classes=.., is_deconv=True,
    is_batchnorm=True)] returns. *)
Definition new_module (a : arch) (in_ch n_cls : Z) : module :=
  {| m_arch := a; in_channels := in_ch; n_classes := n_cls;
     is_deconv := true; is_batchnorm := true;
     m_weights := init_weights a in_ch n_cls; m_device := None |}.

(** [C(in_channels=opt.input_nc, n_classes=opt.label_num, is_deconv=True,
    is_batchnorm=True)] *)
Definition construct (a : arch) : M state module :=
  o ← gets opt;
  let model := new_module a (input_nc o) (label_num o) in
  modify (set_constructed (λ l, l ++ [model]));;
  mret model.

(** [model.to(device)] *)
Definition to (model : module) (device : Z) : module :=
  {| m_arch := m_arch model; in_channels := in_channels model;
     n_classes := n_classes model; is_deconv := is_deconv model;
     is_batchnorm := is_batchnorm model; m_weights := m_weights model;
     m_device := Some device |}.

Definition not_recognized (name : string) : string :=
  "Unet model name [" +:+ name +:+ "] is not recognized".

(** [get_network_by_name(self, opt)].  The local [net] is bound in the
    branch of the last [if] only; [return net] reads it. *)
Definition get_network_by_name : M state DataParallel :=
  o ← gets opt;
  model ←
    (if decide (unet_type o = "unet") then construct UNet
     else if decide (unet_type o = "unet_2plus") then construct UNet_2Plus
     else if decide (unet_type o = "unet_3plus") then construct UNet_3Plus
     else if decide (unet_type o = "unet_3plus_deepsup") then construct UNet_3Plus_DeepSup
     else if decide (unet_type o = "unet_3plus_deepsup_cgm") then construct UNet_3Plus_DeepSup_CGM
     else raise (NotImplementedError (not_recognized (unet_type o))));
  modify (set_opt (set_load_size 512));;
  modify (set_opt (set_crop_size 320));;
  ids ← gets gpu_ids;
  net ←
    (match ids return M state (option DataParallel) with
     | id0 :: _ =>
         avail ← gets cuda_is_available;
         assert avail;;
         mret (Some {| dp_module := to model id0; device_ids := ids |})
     | [] => mret None
     end);
  match net with
  | Some n => mret n
  | None => raise (UnboundLocalError "net")
  end.

(** [getattr(self, 'criterion' + opt.loss_type.upper())] after the three
    criteria were assigned. *)
Definition criterion_by_name (name : string) : M state criterion :=
  if decide (name = "criterionBCE") then mret BCELoss
  else if decide (name = "criterionIOU") then mret IOU
  else if decide (name = "criterionMSSSIM") then mret MSSSIM
  else raise (AttributeError name).

(** [__init__(self, opt)], from the statement after [BaseModel.__init__]. *)
Definition __init__ : M state unit :=
  modify (set_names ["IOU"; "BCE"; "MSSSIM"]
                    ["input_image"; "true_seg"; "pred_seg"]
                    ["Unet"]);;
  net ← get_network_by_name;
  modify (set_netUnet net);;
  train ← gets isTrain;
  if (train : bool) return M state unit then
    o ← gets opt;
    c ← criterion_by_name ("criterion" +:+ upper (loss_type o));
    modify (set_train_criterion c);;
    modify (set_optimizer {| lr := Q2Qc (1 # 1000); momentum := Q2Qc (9 # 10) |})
  else mret tt.

(** [set_input(self, input)] *)
Definition set_input (input : gmap string pyval) : M state unit :=
  v ← getitem input "img";
  img ← to_device v;
  setattr "img" img;;
  v ← getitem input "seg";
  seg ← to_device v;
  setattr "seg" seg;;
  seg ← attr "seg";
  setattr "seg" (tdiv (tadd seg 1) 2);;
  paths ← getitem input "img_paths";
  modify (set_image_paths paths).

(** [forward(self)] *)
Definition forward : M state unit :=
  net ← getattr "netUnet" netUnet;
  img ← attr "img";
  out ← lift (unet_fn (m_arch (dp_module net)) (m_weights (dp_module net)) img);
  setattr "output" out.

(** [compute_visuals(self)]; [u] is the draw behind [randint]. *)
Definition compute_visuals (u : nat) : M state unit :=
  o ← gets opt;
  idx ← lift (randint 0 (batch_size o - 1) u);
  img ← attr "img";
  x ← lift (tindex img idx);
  setattr "input_image" x;;
  x ← attr "input_image";
  setattr "input_image" (unsqueeze0 x);;
  seg ← attr "seg";
  y ← lift (tindex seg idx);
  setattr "true_seg" (tsub (tmul y 2) 1);;
  y ← attr "true_seg";
  setattr "true_seg" (unsqueeze0 y);;
  out ← attr "output";
  z ← lift (tindex out idx);
  setattr "pred_seg" (tsub (tmul z 2) 1);;
  z ← attr "pred_seg";
  setattr "pred_seg" (unsqueeze0 z).

(** The reading of [compute_visuals] in which the image is rescaled to
    [-1,1] like the two masks. *)
Definition all_three_rescaled (u : nat) (s : state) : Prop :=
  ∀ img seg out idx x y z,
    tensors s !! "img" = Some img →
    tensors s !! "seg" = Some seg →
    tensors s !! "output" = Some out →
    randint 0 (batch_size (opt s) - 1) u = Ok idx →
    tindex img idx = Ok x →
    tindex seg idx = Ok y →
    tindex out idx = Ok z →
    let s' := (compute_visuals u s).2 in
    tensors s' !! "input_image" = Some (unsqueeze0 (tsub (tmul x 2) 1))
    ∧ tensors s' !! "true_seg" = Some (unsqueeze0 (tsub (tmul y 2) 1))
    ∧ tensors s' !! "pred_seg" = Some (unsqueeze0 (tsub (tmul z 2) 1)).

(** The reading of [get_network_by_name] in which every configuration
    without a GPU ends in the unbound local [net]. *)
Definition unbound_local_without_gpu (s : state) : Prop :=
  gpu_ids s = [] → (get_network_by_name s).1 = Err (UnboundLocalError "net").

End Model.
End UnetModel.

(** * The Perceptual-CycleGAN model ([models/perceptual_cycle_gan_model.py]) *)

Module PerceptualCycleGANModel.

(** The four trained networks [netG_A], [netG_B], [netD_A], [netD_B]. *)
Inductive net_id := G_A | G_B | D_A | D_B.

Global Instance net_id_eq_dec : EqDecision net_id.
Proof. solve_decision. Defined.

Global Instance net_id_countable : Countable net_id.
Proof.
  refine (inj_countable'
    (λ n, match n with G_A => 0 | G_B => 1 | D_A => 2 | D_B => 3 end)%nat
    (λ k, match k with 0 => G_A | 1 => G_B | 2 => D_A | _ => D_B end)%nat _).
  by intros [].
Defined.

Definition net_name (n : net_id) : string :=
  match n with
  | G_A => "netG_A" | G_B => "netG_B" | D_A => "netD_A" | D_B => "netD_B"
  end.

(** ** Autograd *)

(** The history PyTorch records with a tensor: the operations that produced
    it.  [GNet n p rg x] is the call of network [n] on [x] while its
    parameters were [p] and had [requires_grad = rg]. *)
Inductive graph (P : Type) :=
| GData (t : tensor)
| GNumber (q : Qc)
| GNet (n : net_id) (p : P) (rg : bool) (x : graph P)
| GEval (x : graph P)
| GCat (d : nat) (a b : graph P)
| GMax (x : graph P)
| GGan (x : graph P) (target : bool)
| GL1 (a b : graph P)
| GMul (a b : graph P)
| GAdd (a b : graph P).
Arguments GData {P} t.
Arguments GNumber {P} q.
Arguments GNet {P} n p rg x.
Arguments GEval {P} x.
Arguments GCat {P} d a b.
Arguments GMax {P} x.
Arguments GGan {P} x target.
Arguments GL1 {P} a b.
Arguments GMul {P} a b.
Arguments GAdd {P} a b.

(** The networks whose parameters a backward pass from this history
    reaches: those that required gradients when they were called. *)
Fixpoint leaves {P} (g : graph P) : gset net_id :=
  match g with
  | GData _ | GNumber _ => ∅
  | GNet n _ rg x => (if rg then {[n]} else ∅) ∪ leaves x
  | GEval x | GMax x | GGan x _ => leaves x
  | GCat _ a b | GL1 a b | GMul a b | GAdd a b => leaves a ∪ leaves b
  end.

(** A tensor with its history, and a loss (a tensor of no dimension, or a
    Python number) with its history. *)
Record Tensor (P : Type) := {
  data : tensor;
  tgraph : graph P;
}.
Arguments data {P} _.
Arguments tgraph {P} _.

Record Loss (P : Type) := {
  lval : Qc;
  lgraph : graph P;
}.
Arguments lval {P} _.
Arguments lgraph {P} _.

(** [t.detach()] *)
Definition detach {P} (t : Tensor P) : Tensor P :=
  {| data := data t; tgraph := GData (data t) |}.

(** A tensor that arrives without history. *)
Definition leaf {P} (t : tensor) : Tensor P :=
  {| data := t; tgraph := GData t |}.

(** A Python number used where a loss is expected. *)
Definition number {P} (q : Qc) : Loss P :=
  {| lval := q; lgraph := GNumber q |}.

(** [t.requires_grad] *)
Definition tracked {P} (g : graph P) : bool :=
  bool_decide (leaves g ≠ ∅).

(** ** What PyTorch and the absent modules compute *)

Class Torch := {
  (** parameter values of a network, gradients, state of an Adam optimizer *)
  params : Type;
  grads : Type;
  adam_state : Type;
  (** [util.image_pool.ImagePool] *)
  pool : Type;
  (** the frozen evaluation network *)
  classifier : Type;
  (** the function a network computes with given parameters *)
  net_fn : net_id → params → tensor → result tensor;
  eval_fn : classifier → tensor → result tensor;
  (** [networks.GANLoss] applied to a prediction and a target label *)
  gan_fn : tensor → bool → result Qc;
  (** [torch.nn.L1Loss] *)
  l1_fn : tensor → tensor → result Qc;
  (** [torch.max(t, 1)]: maxima and their indices *)
  max_dim1 : tensor → result (tensor * tensor);
  (** the gradient of a loss with this history for the parameters of a
      network, and the sum of two gradients *)
  autograd : graph params → net_id → grads;
  grad_add : grads → grads → grads;
  (** what [zero_grad] leaves in [.grad] *)
  zeroed : option grads → option grads;
  (** one Adam update of the parameters of a network *)
  adam : adam_state → net_id → params → grads → params * adam_state;
  (** [ImagePool.query] *)
  pool_query : pool → Tensor params → result (Tensor params * pool);
}.

(** The options of [opt] the training step reads. *)
Record options := {
  lambda_A : Qc;
  lambda_B : Qc;
  lambda_identity : Qc;
}.

Section Model.
Context `{Torch}.

Record network := {
  parameters : params;
  grad : option grads;
  requires_grad : bool;
}.

(** The attributes of [self] and the gradient mode of PyTorch.  The networks
    live in one store: [self.netG_A] and the optimizer that was built from
    [self.netG_A.parameters()] refer to the same entry. *)
Record state := {
  opt : options;
  batch_size : Z;
  grad_enabled : bool;
  nets : gmap net_id network;
  optimizer_G : option adam_state;
  optimizer_D : option adam_state;
  fake_A_pool : option pool;
  fake_B_pool : option pool;
  eval_net : option classifier;
  tensors : gmap string (Tensor params);
  losses : gmap string (Loss params);
}.

Definition set_grad_enabled (b : bool) (s : state) : state :=
  {| opt := opt s; batch_size := batch_size s; grad_enabled := b;
     nets := nets s; optimizer_G := optimizer_G s; optimizer_D := optimizer_D s;
     fake_A_pool := fake_A_pool s; fake_B_pool := fake_B_pool s;
     eval_net := eval_net s; tensors := tensors s; losses := losses s |}.

Definition set_nets (f : gmap net_id network → gmap net_id network) (s : state) : state :=
  {| opt := opt s; batch_size := batch_size s; grad_enabled := grad_enabled s;
     nets := f (nets s); optimizer_G := optimizer_G s; optimizer_D := optimizer_D s;
     fake_A_pool := fake_A_pool s; fake_B_pool := fake_B_pool s;
     eval_net := eval_net s; tensors := tensors s; losses := losses s |}.

Definition set_optimizer_G (a : adam_state) (s : state) : state :=
  {| opt := opt s; batch_size := batch_size s; grad_enabled := grad_enabled s;
     nets := nets s; optimizer_G := Some a; optimizer_D := optimizer_D s;
     fake_A_pool := fake_A_pool s; fake_B_pool := fake_B_pool s;
     eval_net := eval_net s; tensors := tensors s; losses := losses s |}.

Definition set_optimizer_D (a : adam_state) (s : state) : state :=
  {| opt := opt s; batch_size := batch_size s; grad_enabled := grad_enabled s;
     nets := nets s; optimizer_G := optimizer_G s; optimizer_D := Some a;
     fake_A_pool := fake_A_pool s; fake_B_pool := fake_B_pool s;
     eval_net := eval_net s; tensors := tensors s; losses := losses s |}.

Definition set_fake_A_pool (p : pool) (s : state) : state :=
  {| opt := opt s; batch_size := batch_size s; grad_enabled := grad_enabled s;
     nets := nets s; optimizer_G := optimizer_G s; optimizer_D := optimizer_D s;
     fake_A_pool := Some p; fake_B_pool := fake_B_pool s;
     eval_net := eval_net s; tensors := tensors s; losses := losses s |}.

Definition set_fake_B_pool (p : pool) (s : state) : state :=
  {| opt := opt s; batch_size := batch_size s; grad_enabled := grad_enabled s;
     nets := nets s; optimizer_G := optimizer_G s; optimizer_D := optimizer_D s;
     fake_A_pool := fake_A_pool s; fake_B_pool := Some p;
     eval_net := eval_net s; tensors := tensors s; losses := losses s |}.

Definition set_tensors (f : gmap string (Tensor params) → gmap string (Tensor params))
    (s : state) : state :=
  {| opt := opt s; batch_size := batch_size s; grad_enabled := grad_enabled s;
     nets := nets s; optimizer_G := optimizer_G s; optimizer_D := optimizer_D s;
     fake_A_pool := fake_A_pool s; fake_B_pool := fake_B_pool s;
     eval_net := eval_net s; tensors := f (tensors s); losses := losses s |}.

Definition set_losses (f : gmap string (Loss params) → gmap string (Loss params))
    (s : state) : state :=
  {| opt := opt s; batch_size := batch_size s; grad_enabled := grad_enabled s;
     nets := nets s; optimizer_G := optimizer_G s; optimizer_D := optimizer_D s;
     fake_A_pool := fake_A_pool s; fake_B_pool := fake_B_pool s;
     eval_net := eval_net s; tensors := tensors s; losses := f (losses s) |}.

(** [self.<name> = t], [self.<name>] for tensors and [self.loss_<name>]. *)
Definition setattr (name : string) (t : Tensor params) : M state unit :=
  modify (set_tensors (insert name t)).

Definition attr (name : string) : M state (Tensor params) :=
  getattr name (λ s, tensors s !! name).

Definition setloss (name : string) (l : Loss params) : M state unit :=
  modify (set_losses (insert name l)).

Definition lossattr (name : string) : M state (Loss params) :=
  getattr name (λ s, losses s !! name).

(** [self.netX]: a reference to the network, if the attribute exists. *)
Definition netattr (n : net_id) : M state net_id :=
  getattr (net_name n) (λ s, match nets s !! n with Some _ => Some n | None => None end).

(** ** Tensor operations with their history *)

(** An operation records its history only while the gradient mode is on. *)
Definition recorded (ge : bool) (node : graph params) (dat : tensor) : graph params :=
  if ge then node else GData dat.

Definition cat_t (ge : bool) (d : nat) (a b : Tensor params) : result (Tensor params) :=
  match cat d (data a) (data b) with
  | Ok dat => Ok {| data := dat; tgraph := recorded ge (GCat d (tgraph a) (tgraph b)) dat |}
  | Err e => Err e
  end.

(** [torch.cat((a, b), dim=d)] *)
Definition torch_cat (a b : Tensor params) (d : nat) : M state (Tensor params) :=
  ge ← gets grad_enabled;
  lift (cat_t ge d a b).

Definition apply_net (ge : bool) (n : net_id) (net : network) (x : Tensor params)
    : result (Tensor params) :=
  match net_fn n (parameters net) (data x) with
  | Ok dat =>
      Ok {| data := dat;
            tgraph := recorded ge (GNet n (parameters net) (requires_grad net) (tgraph x)) dat |}
  | Err e => Err e
  end.

(** [net(x)] for one of the four networks. *)
Definition call (n : net_id) (x : Tensor params) : M state (Tensor params) :=
  net ← getattr (net_name n) (λ s, nets s !! n);
  ge ← gets grad_enabled;
  lift (apply_net ge n net x).

Definition apply_eval (ge : bool) (c : classifier) (x : Tensor params)
    : result (Tensor params) :=
  match eval_fn c (data x) with
  | Ok dat => Ok {| data := dat; tgraph := recorded ge (GEval (tgraph x)) dat |}
  | Err e => Err e
  end.

(** [torch.max(t, 1)]: the indices are integers and carry no history. *)
Definition torch_max (t : Tensor params) : M state (Tensor params * Tensor params) :=
  ge ← gets grad_enabled;
  match max_dim1 (data t) with
  | Ok (v, i) => mret ({| data := v; tgraph := recorded ge (GMax (tgraph t)) v |}, leaf i)
  | Err e => raise e
  end.

Definition gan_loss (ge : bool) (pred : Tensor params) (target : bool) : result (Loss params) :=
  match gan_fn (data pred) target with
  | Ok v => Ok {| lval := v; lgraph := recorded ge (GGan (tgraph pred) target) (Scalar v) |}
  | Err e => Err e
  end.

(** [self.criterionGAN(pred, target)] *)
Definition criterionGAN (pred : Tensor params) (target : bool) : M state (Loss params) :=
  ge ← gets grad_enabled;
  lift (gan_loss ge pred target).

Definition l1_loss (ge : bool) (a b : Tensor params) : result (Loss params) :=
  match l1_fn (data a) (data b) with
  | Ok v => Ok {| lval := v; lgraph := recorded ge (GL1 (tgraph a) (tgraph b)) (Scalar v) |}
  | Err e => Err e
  end.

(** [self.criterionCycle(a, b)] and [self.criterionIdt(a, b)], both
    [torch.nn.L1Loss()]. *)
Definition criterionCycle (a b : Tensor params) : M state (Loss params) :=
  ge ← gets grad_enabled;
  lift (l1_loss ge a b).

Definition criterionIdt (a b : Tensor params) : M state (Loss params) :=
  ge ← gets grad_enabled;
  lift (l1_loss ge a b).

Definition mul_l (ge : bool) (l : Loss params) (q : Qc) : Loss params :=
  {| lval := lval l * q;
     lgraph := recorded ge (GMul (lgraph l) (GNumber q)) (Scalar (lval l * q)) |}.

Definition add_l (ge : bool) (a b : Loss params) : Loss params :=
  {| lval := lval a + lval b;
     lgraph := recorded ge (GAdd (lgraph a) (lgraph b)) (Scalar (lval a + lval b)) |}.

(** [l * q] and [a + b] on losses. *)
Definition loss_mul (l : Loss params) (q : Qc) : M state (Loss params) :=
  ge ← gets grad_enabled;
  mret (mul_l ge l q).

Definition loss_add (a b : Loss params) : M state (Loss params) :=
  ge ← gets grad_enabled;
  mret (add_l ge a b).

(** [with torch.no_grad(): body]: the gradient mode is switched off for the
    body and put back on the way out, also when the body raises. *)
Definition no_grad {A} (body : M state A) : M state A :=
  λ s, let prev := grad_enabled s in
       let (r, s') := body (set_grad_enabled false s) in
       (r, set_grad_enabled prev s').


(** ** Gradients and optimizers *)

(** What [loss.backward()] does to one network: a network the history
    reaches gets the gradient added to its [.grad]. *)
Definition accumulate (g : graph params) (n : net_id) (net : network) : network :=
  if decide (n ∈ leaves g) then
    {| parameters := parameters net;
       grad := Some match grad net with
                    | None => autograd g n
                    | Some g0 => grad_add g0 (autograd g n)
                    end;
       requires_grad := requires_grad net |}
  else net.

(** [l.backward()]; a loss without history raises. *)
Definition backward (l : Loss params) : M state unit :=
  if tracked (lgraph l)
  then modify (set_nets (map_imap (λ n net, Some (accumulate (lgraph l) n net))))
  else raise (RuntimeError "element 0 of tensors does not require grad and does not have a grad_fn").

(** The parameters each optimizer was built from in [__init__]:
    [itertools.chain(self.netG_A.parameters(), self.netG_B.parameters())] and
    [itertools.chain(self.netD_A.parameters(), self.netD_B.parameters())]. *)
Definition optimizer_G_params : list net_id := [G_A; G_B].
Definition optimizer_D_params : list net_id := [D_A; D_B].

Definition clear_grad (net : network) : network :=
  {| parameters := parameters net; grad := zeroed (grad net);
     requires_grad := requires_grad net |}.

(** [optimizer.zero_grad()] *)
Definition zero_grad (ids : list net_id) : M state unit :=
  modify (set_nets (λ m, foldr (alter clear_grad) m ids)).

(** One parameter group of [optimizer.step()]: parameters whose [.grad] is
    [None] are skipped. *)
Definition step_one (acc : adam_state * gmap net_id network) (n : net_id)
    : adam_state * gmap net_id network :=
  match acc.2 !! n with
  | Some net =>
      match grad net with
      | Some g =>
          let r := adam acc.1 n (parameters net) g in
          (r.2, <[n := {| parameters := r.1; grad := grad net;
                          requires_grad := requires_grad net |}]> acc.2)
      | None => acc
      end
  | None => acc
  end.

Definition step (ids : list net_id) (st : adam_state) (m : gmap net_id network)
    : adam_state * gmap net_id network :=
  foldl step_one (st, m) ids.

(** [self.optimizer_G.step()] and [self.optimizer_D.step()] *)
Definition optimizer_G_step : M state unit :=
  st ← getattr "optimizer_G" optimizer_G;
  m ← gets nets;
  let r := step optimizer_G_params st m in
  modify (set_nets (λ _, r.2));;
  modify (set_optimizer_G r.1).

Definition optimizer_D_step : M state unit :=
  st ← getattr "optimizer_D" optimizer_D;
  m ← gets nets;
  let r := step optimizer_D_params st m in
  modify (set_nets (λ _, r.2));;
  modify (set_optimizer_D r.1).

(** [self.optimizer_G.zero_grad()] and [self.optimizer_D.zero_grad()] *)
Definition optimizer_G_zero_grad : M state unit :=
  _ ← getattr "optimizer_G" optimizer_G;
  zero_grad optimizer_G_params.

Definition optimizer_D_zero_grad : M state unit :=
  _ ← getattr "optimizer_D" optimizer_D;
  zero_grad optimizer_D_params.

Definition with_requires_grad (flag : bool) (net : network) : network :=
  {| parameters := parameters net; grad := grad net; requires_grad := flag |}.

(** Modelled from the spec: [BaseModel.set_requires_grad] is defined in
    [base_model.py], which is not among the sources.  The spec has the
    training step "disable gradient tracking on both discriminators" and
    "re-enable discriminator gradient tracking" with it: it sets
    [requires_grad] of the parameters of each listed network. *)
Definition set_requires_grad (ns : list net_id) (flag : bool) : M state unit :=
  modify (set_nets (λ m, foldr (alter (with_requires_grad flag)) m ns)).

(** [self.fake_A_pool.query(self.fake_A)] and
    [self.fake_B_pool.query(self.fake_B)] *)
Definition query_fake_A_pool : M state (Tensor params) :=
  p ← getattr "fake_A_pool" fake_A_pool;
  t ← attr "fake_A";
  r ← lift (pool_query p t);
  modify (set_fake_A_pool r.2);;
  mret r.1.

Definition query_fake_B_pool : M state (Tensor params) :=
  p ← getattr "fake_B_pool" fake_B_pool;
  t ← attr "fake_B";
  r ← lift (pool_query p t);
  modify (set_fake_B_pool r.2);;
  mret r.1.

(** ** The methods *)

(** [forward(self)] *)
Definition forward : M state unit :=
  g ← netattr G_A;
  real_A ← attr "real_A";
  aux_A ← attr "aux_A";
  x ← torch_cat real_A aux_A 1;
  fake_B ← call g x;
  setattr "fake_B" fake_B;;
  g ← netattr G_B;
  fake_B ← attr "fake_B";
  aux_A ← attr "aux_A";
  x ← torch_cat fake_B aux_A 1;
  rec_A ← call g x;
  setattr "rec_A" rec_A;;
  g ← netattr G_B;
  real_B ← attr "real_B";
  aux_B ← attr "aux_B";
  x ← torch_cat real_B aux_B 1;
  fake_A ← call g x;
  setattr "fake_A" fake_A;;
  g ← netattr G_A;
  fake_A ← attr "fake_A";
  aux_B ← attr "aux_B";
  x ← torch_cat fake_A aux_B 1;
  rec_B ← call g x;
  setattr "rec_B" rec_B.

(** [backward_D_basic(self, netD, real, fake)] *)
Definition backward_D_basic (netD : net_id) (real fake : Tensor params)
    : M state (Loss params) :=
  pred_real ← call netD real;
  loss_D_real ← criterionGAN pred_real true;
  pred_fake ← call netD (detach fake);
  loss_D_fake ← criterionGAN pred_fake false;
  sum ← loss_add loss_D_real loss_D_fake;
  loss_D ← loss_mul sum (Q2Qc (1 # 2));
  backward loss_D;;
  mret loss_D.

(** [backward_D_A(self)] *)
Definition backward_D_A : M state unit :=
  fake_B ← query_fake_B_pool;
  d ← netattr D_A;
  real_B ← attr "real_B";
  loss ← backward_D_basic d real_B fake_B;
  setloss "loss_D_A" loss.

(** [backward_D_B(self)] *)
Definition backward_D_B : M state unit :=
  fake_A ← query_fake_A_pool;
  d ← netattr D_B;
  real_A ← attr "real_A";
  loss ← backward_D_basic d real_A fake_A;
  setloss "loss_D_B" loss.

(** The two branches of the identity loss in [backward_G]. *)
Definition identity_losses (lambda_idt lambda_A lambda_B : Qc) : M state unit :=
  if decide (0 < lambda_idt) then
    g ← netattr G_A;
    real_B ← attr "real_B";
    aux_B ← attr "aux_B";
    x ← torch_cat real_B aux_B 1;
    idt_A ← call g x;
    setattr "idt_A" idt_A;;
    idt_A ← attr "idt_A";
    real_B ← attr "real_B";
    l ← criterionIdt idt_A real_B;
    l ← loss_mul l lambda_B;
    l ← loss_mul l lambda_idt;
    setloss "loss_idt_A" l;;
    g ← netattr G_B;
    real_A ← attr "real_A";
    aux_A ← attr "aux_A";
    x ← torch_cat real_A aux_A 1;
    idt_B ← call g x;
    setattr "idt_B" idt_B;;
    idt_B ← attr "idt_B";
    real_A ← attr "real_A";
    l ← criterionIdt idt_B real_A;
    l ← loss_mul l lambda_A;
    l ← loss_mul l lambda_idt;
    setloss "loss_idt_B" l
  else
    setloss "loss_idt_A" (number 0);;
    setloss "loss_idt_B" (number 0).

(** [backward_G(self)] *)
Definition backward_G : M state unit :=
  lambda_idt ← gets (λ s, lambda_identity (opt s));
  lambda_A ← gets (λ s, lambda_A (opt s));
  lambda_B ← gets (λ s, lambda_B (opt s));
  identity_losses lambda_idt lambda_A lambda_B;;
  d ← netattr D_A;
  fake_B ← attr "fake_B";
  pred ← call d fake_B;
  l ← criterionGAN pred true;
  setloss "loss_G_A" l;;
  d ← netattr D_B;
  fake_A ← attr "fake_A";
  pred ← call d fake_A;
  l ← criterionGAN pred true;
  setloss "loss_G_B" l;;
  rec_A ← attr "rec_A";
  real_A ← attr "real_A";
  l ← criterionCycle rec_A real_A;
  l ← loss_mul l lambda_A;
  setloss "loss_cycle_A" l;;
  rec_B ← attr "rec_B";
  real_B ← attr "real_B";
  l ← criterionCycle rec_B real_B;
  l ← loss_mul l lambda_B;
  setloss "loss_cycle_B" l;;
  loss_G_A ← lossattr "loss_G_A";
  loss_G_B ← lossattr "loss_G_B";
  l ← loss_add loss_G_A loss_G_B;
  loss_cycle_A ← lossattr "loss_cycle_A";
  l ← loss_add l loss_cycle_A;
  loss_cycle_B ← lossattr "loss_cycle_B";
  l ← loss_add l loss_cycle_B;
  loss_idt_A ← lossattr "loss_idt_A";
  l ← loss_add l loss_idt_A;
  loss_idt_B ← lossattr "loss_idt_B";
  l ← loss_add l loss_idt_B;
  setloss "loss_G" l;;
  loss_G ← lossattr "loss_G";
  backward loss_G.

(** The block of [optimize_parameters] under the comment [# G_A and G_B]. *)
Definition generator_step : M state unit :=
  d_a ← netattr D_A;
  d_b ← netattr D_B;
  set_requires_grad [d_a; d_b] false;;
  optimizer_G_zero_grad;;
  backward_G;;
  optimizer_G_step.

(** The block of [optimize_parameters] under the comment [# D_A and D_B]. *)
Definition discriminator_step : M state unit :=
  d_a ← netattr D_A;
  d_b ← netattr D_B;
  set_requires_grad [d_a; d_b] true;;
  optimizer_D_zero_grad;;
  backward_D_A;;
  backward_D_B;;
  optimizer_D_step.

(** [optimize_parameters(self)] *)
Definition optimize_parameters : M state unit :=
  forward;;
  generator_step;;
  discriminator_step.

(** [model_evaluation(self)] *)
Definition model_evaluation : M state (Tensor params * Tensor params) :=
  forward;;
  fake_A ← attr "fake_A";
  fake_B ← attr "fake_B";
  images ← torch_cat fake_A fake_B 0;
  n ← gets batch_size;
  z ← lift (zeros n);
  n ← gets batch_size;
  o ← lift (ones n);
  labels ← torch_cat (leaf z) (leaf o) 0;
  preds ← no_grad (
    net ← getattr "eval_net" eval_net;
    ge ← gets grad_enabled;
    lift (apply_eval ge net images));
  r ← torch_max preds;
  mret (r.2, labels).

(** ** The generator objective in the words of the specification *)

(** The values of named tensors and what a network computes on a value,
    without the histories. *)
Definition tensor_data (s : state) (name : string) : result tensor :=
  match tensors s !! name with
  | Some t => Ok (data t)
  | None => Err (AttributeError name)
  end.

Definition net_data (s : state) (n : net_id) (x : tensor) : result tensor :=
  match nets s !! n with
  | Some net => net_fn n (parameters net) x
  | None => Err (AttributeError (net_name n))
  end.

(** The six terms of the generator objective as they enter the sum. *)
Record generator_terms := {
  G_A_term : Qc;
  G_B_term : Qc;
  cycle_A_term : Qc;
  cycle_B_term : Qc;
  idt_A_term : Qc;
  idt_B_term : Qc;
}.

Definition total (t : generator_terms) : Qc :=
  G_A_term t + G_B_term t + cycle_A_term t + cycle_B_term t
  + idt_A_term t + idt_B_term t.

(** The L1 distances of the two identity mappings [G_A(real_B, aux_B)] to
    [real_B] and [G_B(real_A, aux_A)] to [real_A]. *)
Definition identity_distances (s : state) : result (Qc * Qc) :=
  real_A ← tensor_data s "real_A";
  real_B ← tensor_data s "real_B";
  aux_A ← tensor_data s "aux_A";
  aux_B ← tensor_data s "aux_B";
  x ← cat 1 real_B aux_B;
  idt_A ← net_data s G_A x;
  a ← l1_fn idt_A real_B;
  x ← cat 1 real_A aux_A;
  idt_B ← net_data s G_B x;
  b ← l1_fn idt_B real_A;
  mret (a, b).

(** The two adversarial losses and the L1 distances of the two cycles. *)
Definition adversarial_and_cycle (s : state) : result (Qc * Qc * Qc * Qc) :=
  real_A ← tensor_data s "real_A";
  real_B ← tensor_data s "real_B";
  fake_A ← tensor_data s "fake_A";
  fake_B ← tensor_data s "fake_B";
  rec_A ← tensor_data s "rec_A";
  rec_B ← tensor_data s "rec_B";
  p ← net_data s D_A fake_B;
  adv_A ← gan_fn p true;
  p ← net_data s D_B fake_A;
  adv_B ← gan_fn p true;
  cyc_A ← l1_fn rec_A real_A;
  cyc_B ← l1_fn rec_B real_B;
  mret (adv_A, adv_B, cyc_A, cyc_B).

(** The objective with the weights of the docstring of the class,
    [lambda_identity * (||G_A(B) - B|| * lambda_B + ||G_B(A) - A|| * lambda_A)],
    and no identity term unless [lambda_identity] is positive. *)
Definition terms_as_documented (s : state) : result generator_terms :=
  ac ← adversarial_and_cycle s;
  i ← (if decide (0 < lambda_identity (opt s))
       then d ← identity_distances s;
            mret (d.1 * lambda_B (opt s) * lambda_identity (opt s),
                  d.2 * lambda_A (opt s) * lambda_identity (opt s))
       else mret (0, 0));
  mret {| G_A_term := ac.1.1.1; G_B_term := ac.1.1.2;
          cycle_A_term := ac.1.2 * lambda_A (opt s);
          cycle_B_term := ac.2 * lambda_B (opt s);
          idt_A_term := i.1; idt_B_term := i.2 |}.

(** The value stored under a loss name. *)
Definition loss_value (s : state) (name : string) : option Qc :=
  lval <$> losses s !! name.

(** The reading of [backward_G] in which each identity distance enters
    [loss_G] with the weight [lambda_identity] alone. *)
Definition loss_G_as_stated (s : state) : Prop :=
  ∀ adv_A adv_B cyc_A cyc_B idt_A idt_B,
    adversarial_and_cycle s = Ok (adv_A, adv_B, cyc_A, cyc_B) →
    identity_distances s = Ok (idt_A, idt_B) →
    loss_value (backward_G s).2 "loss_G" =
      Some (adv_A + adv_B + cyc_A * lambda_A (opt s) + cyc_B * lambda_B (opt s)
            + idt_A * lambda_identity (opt s) + idt_B * lambda_identity (opt s)).


(** What a training step and its two blocks may change of a network. *)
Definition params_of (n : net_id) (s : state) : option params :=
  parameters <$> nets s !! n.

Definition grad_of (n : net_id) (s : state) : option (option grads) :=
  grad <$> nets s !! n.

Definition requires_grad_of (n : net_id) (s : state) : option bool :=
  requires_grad <$> nets s !! n.

(** The network [d] is the entry [N], and no backward pass from what the
    object holds reaches it: no stored tensor has [d] in its history, and
    none of the losses stored under the names [ks] has. *)
Definition spared (d : net_id) (N : option network) (ks : list string)
    (s : state) : Prop :=
  nets s !! d = N
  ∧ (∀ name t, tensors s !! name = Some t → d ∉ leaves (tgraph t))
  ∧ (∀ name l, name ∈ ks → losses s !! name = Some l → d ∉ leaves (lgraph l)).

(** [self.loss_names] as [__init__] assigns it; the loss of a name is the
    attribute [loss_<name>]. *)
Definition loss_names : list string :=
  ["D_A"; "G_A"; "cycle_A"; "idt_A"; "D_B"; "G_B"; "cycle_B"; "idt_B"].

(** The losses of the names [ks] are assigned. *)
Definition has_losses (ks : list string) (s : state) : Prop :=
  ∀ k, k ∈ ks → is_Some (losses s !! k).

(** The order in which [forward] assigns its results. *)
Definition forward_outputs : list string := ["fake_B"; "rec_A"; "fake_A"; "rec_B"].

(** The tensor attributes are those of [T0] with the first [k] of [names]
    assigned anew, in this order. *)
Definition assigned (names : list string) (T0 : gmap string (Tensor params))
    (k : nat) (s : state) : Prop :=
  ∃ vals, length vals = k
          ∧ tensors s = foldl (λ m kv, <[kv.1 := kv.2]> m) T0 (zip names vals).

End Model.
(** ** Construction and input pre-processing *)

(** What the modules of the repository that [__init__] and [set_input] call
    compute ([BaseModel.load_model_by_path], [networks.define_G],
    [networks.define_D], [ImagePool], [attention.calculate_heatmap]) and
    what a loaded auxiliary network computes is taken as given. *)
Class Perception `{Torch} := {
  (** [self.load_model_by_path(path, name='Classification')] *)
  load_model_by_path : option string → result classifier;
  (** the parameters [networks.define_G(input_nc, output_nc, ...)] and
      [networks.define_D(input_nc, ...)] initialize a network with *)
  define_G : net_id → Z → Z → params;
  define_D : net_id → Z → params;
  (** [ImagePool(pool_size)] and the state of a new Adam optimizer *)
  new_pool : Z → pool;
  new_adam : adam_state;
  (** a forward pass of the auxiliary network: the output of its [layer4],
      when the pass gets that far, and what the call returns *)
  aux_fn : classifier → tensor → option tensor * result tensor;
  (** [calculate_heatmap(image, activation)]: the heat map and the feature
      map as arrays *)
  calculate_heatmap : tensor → tensor → result (tensor * tensor);
}.

(** The options [__init__] reads off [opt].  The three weights of
    [train_options] are defined in training only and read in training
    only. *)
Record config := {
  cfg_isTrain : bool;
  cfg_batch_size : Z;
  cfg_direction : string;
  aux_model_path : option string;
  eval_net_path : option string;
  use_val : bool;
  input_nc : Z;
  output_nc : Z;
  pool_size : Z;
  train_options : options;
}.

Definition set_eval_net_path (p : option string) (c : config) : config :=
  {| cfg_isTrain := cfg_isTrain c; cfg_batch_size := cfg_batch_size c;
     cfg_direction := cfg_direction c; aux_model_path := aux_model_path c;
     eval_net_path := p; use_val := use_val c; input_nc := input_nc c;
     output_nc := output_nc c; pool_size := pool_size c;
     train_options := train_options c |}.

Section Construction.
Context `{Perception}.

(** The whole object: the attributes the training methods use ([core]) and
    those only [__init__] and [set_input] touch.  [cfg] is [self.opt], the
    options object shared with the caller.  [hooks] is not an attribute: it
    lists the names with which a hook of [get_activation] was registered on
    [aux_net.layer4]. *)
Record object := {
  core : state;
  cfg : config;
  isTrain : bool;
  self_loss_names : list string;
  self_visual_names : list string;
  self_model_names : list string;
  aux_net : option classifier;
  aux_nc : option Z;
  hooks : list string;
  activation : option (gmap string tensor);
  image_paths : option pyval;
}.

Definition set_core (f : state → state) (o : object) : object :=
  {| core := f (core o); cfg := cfg o; isTrain := isTrain o;
     self_loss_names := self_loss_names o; self_visual_names := self_visual_names o;
     self_model_names := self_model_names o; aux_net := aux_net o; aux_nc := aux_nc o;
     hooks := hooks o; activation := activation o; image_paths := image_paths o |}.

Definition set_cfg (f : config → config) (o : object) : object :=
  {| core := core o; cfg := f (cfg o); isTrain := isTrain o;
     self_loss_names := self_loss_names o; self_visual_names := self_visual_names o;
     self_model_names := self_model_names o; aux_net := aux_net o; aux_nc := aux_nc o;
     hooks := hooks o; activation := activation o; image_paths := image_paths o |}.

Definition set_loss_names (l : list string) (o : object) : object :=
  {| core := core o; cfg := cfg o; isTrain := isTrain o;
     self_loss_names := l; self_visual_names := self_visual_names o;
     self_model_names := self_model_names o; aux_net := aux_net o; aux_nc := aux_nc o;
     hooks := hooks o; activation := activation o; image_paths := image_paths o |}.

Definition set_visual_names (l : list string) (o : object) : object :=
  {| core := core o; cfg := cfg o; isTrain := isTrain o;
     self_loss_names := self_loss_names o; self_visual_names := l;
     self_model_names := self_model_names o; aux_net := aux_net o; aux_nc := aux_nc o;
     hooks := hooks o; activation := activation o; image_paths := image_paths o |}.

Definition set_model_names (l : list string) (o : object) : object :=
  {| core := core o; cfg := cfg o; isTrain := isTrain o;
     self_loss_names := self_loss_names o; self_visual_names := self_visual_names o;
     self_model_names := l; aux_net := aux_net o; aux_nc := aux_nc o;
     hooks := hooks o; activation := activation o; image_paths := image_paths o |}.

Definition set_aux_net (c : classifier) (o : object) : object :=
  {| core := core o; cfg := cfg o; isTrain := isTrain o;
     self_loss_names := self_loss_names o; self_visual_names := self_visual_names o;
     self_model_names := self_model_names o; aux_net := Some c; aux_nc := aux_nc o;
     hooks := hooks o; activation := activation o; image_paths := image_paths o |}.

Definition set_aux_nc (n : Z) (o : object) : object :=
  {| core := core o; cfg := cfg o; isTrain := isTrain o;
     self_loss_names := self_loss_names o; self_visual_names := self_visual_names o;
     self_model_names := self_model_names o; aux_net := aux_net o; aux_nc := Some n;
     hooks := hooks o; activation := activation o; image_paths := image_paths o |}.

Definition set_hooks (f : list string → list string) (o : object) : object :=
  {| core := core o; cfg := cfg o; isTrain := isTrain o;
     self_loss_names := self_loss_names o; self_visual_names := self_visual_names o;
     self_model_names := self_model_names o; aux_net := aux_net o; aux_nc := aux_nc o;
     hooks := f (hooks o); activation := activation o; image_paths := image_paths o |}.

Definition set_activation (a : gmap string tensor) (o : object) : object :=
  {| core := core o; cfg := cfg o; isTrain := isTrain o;
     self_loss_names := self_loss_names o; self_visual_names := self_visual_names o;
     self_model_names := self_model_names o; aux_net := aux_net o; aux_nc := aux_nc o;
     hooks := hooks o; activation := Some a; image_paths := image_paths o |}.

Definition set_image_paths (v : pyval) (o : object) : object :=
  {| core := core o; cfg := cfg o; isTrain := isTrain o;
     self_loss_names := self_loss_names o; self_visual_names := self_visual_names o;
     self_model_names := self_model_names o; aux_net := aux_net o; aux_nc := aux_nc o;
     hooks := hooks o; activation := activation o; image_paths := Some v |}.

(** A method of the training part run on the whole object. *)
Definition on_core {A} (m : M state A) : M object A :=
  λ o, let r := m (core o) in (r.1, set_core (λ _, r.2) o).

(** [self.<name> = t] and [self.<name>] for a tensor attribute. *)
Definition store (name : string) (t : Tensor params) : M object unit :=
  on_core (setattr name t).

Definition load (name : string) : M object (Tensor params) :=
  on_core (attr name).

(** [self.net<X> = net]: a network as [define_G] or [define_D] returns it,
    with parameters that require gradients and no gradient yet. *)
Definition install (n : net_id) (p : params) : M object unit :=
  on_core (modify (set_nets (insert n {| parameters := p; grad := None;
                                          requires_grad := true |}))).

(** [get_activation(self, name)] returns a hook; this is what the hook does
    when the layer it is registered on has produced [output]:
    [self.activation[name] = output.detach()]. *)
Definition get_activation (name : string) (output : tensor) : M object unit :=
  act ← getattr "activation" activation;
  modify (set_activation (<[name := output]> act)).

(** [self.aux_net(x)]: the hooks registered on [layer4] run when the pass
    has produced the output of that layer. *)
Definition call_aux_net (x : Tensor params) : M object (Tensor params) :=
  net ← getattr "aux_net" aux_net;
  let r := aux_fn net (data x) in
  hs ← gets hooks;
  match r.1 with
  | Some a => foldr (λ name rest, get_activation name a;; rest) (mret tt) hs
  | None => mret tt
  end;;
  out ← lift r.2;
  ge ← on_core (gets grad_enabled);
  mret {| data := out; tgraph := recorded ge (GEval (tgraph x)) out |}.

(** The object after the hooks registered on [layer4] have run on the
    output [a] of that layer, if the pass got that far.  A hook that finds
    no activation dictionary raises; on a call that returns, none did. *)
Definition hooked (a : option tensor) (o : object) : object :=
  match a with
  | Some a =>
      foldl (λ o name, match activation o with
                       | Some act => set_activation (<[name := a]> act) o
                       | None => o
                       end) o (hooks o)
  | None => o
  end.

(** The object as [BaseModel.__init__(self, opt)] leaves it: the options
    and the phase are set, the name lists are empty and nothing else is
    assigned.  [batch_size] is not assigned yet; no method reads it before
    [__init__] assigns it. *)
Definition after_base (c : config) : object :=
  {| core := {| opt := train_options c; batch_size := 0; grad_enabled := true;
                nets := ∅; optimizer_G := None; optimizer_D := None;
                fake_A_pool := None; fake_B_pool := None; eval_net := None;
                tensors := ∅; losses := ∅ |};
     cfg := c; isTrain := cfg_isTrain c;
     self_loss_names := []; self_visual_names := []; self_model_names := [];
     aux_net := None; aux_nc := None; hooks := []; activation := None;
     image_paths := None |}.

(** [__init__(self, opt)], from the statement after [BaseModel.__init__].
    The two loaded networks are frozen by [set_requires_grad]; their
    parameters are not part of the model, so this leaves no trace.  Neither
    do the three criteria: they are the stateless [gan_fn] and [l1_fn]. *)
Definition __init__ : M object unit :=
  modify (set_loss_names loss_names);;
  let visual_names_A := ["real_A"; "fake_B"; "rec_A"; "heatmap_A"] in
  let visual_names_B := ["real_B"; "fake_A"; "rec_B"; "heatmap_B"] in
  train ← gets isTrain;
  c ← gets cfg;
  let with_idt := train && bool_decide (0 < lambda_identity (train_options c)) in
  let visual_names_A := if with_idt then visual_names_A ++ ["idt_B"] else visual_names_A in
  let visual_names_B := if with_idt then visual_names_B ++ ["idt_A"] else visual_names_B in
  on_core (modify (λ s, {| opt := opt s; batch_size := cfg_batch_size c;
                            grad_enabled := grad_enabled s; nets := nets s;
                            optimizer_G := optimizer_G s; optimizer_D := optimizer_D s;
                            fake_A_pool := fake_A_pool s; fake_B_pool := fake_B_pool s;
                            eval_net := eval_net s; tensors := tensors s;
                            losses := losses s |}));;
  modify (set_visual_names (visual_names_A ++ visual_names_B));;
  train ← gets isTrain;
  modify (set_model_names (if train : bool then ["G_A"; "G_B"; "D_A"; "D_B"]
                           else ["G_A"; "G_B"]));;
  c ← gets cfg;
  net ← lift (load_model_by_path (aux_model_path c));
  modify (set_aux_net net);;
  modify (set_activation ∅);;
  _ ← getattr "aux_net" aux_net;
  modify (set_hooks (λ l, l ++ ["layer4"]));;
  modify (set_aux_nc 3);;
  c ← gets cfg;
  (if use_val c then
     c ← gets cfg;
     (if eval_net_path c is None
      then modify (set_cfg (set_eval_net_path (aux_model_path c)))
      else mret tt);;
     c ← gets cfg;
     net ← lift (load_model_by_path (eval_net_path c));
     on_core (modify (λ s, {| opt := opt s; batch_size := batch_size s;
                               grad_enabled := grad_enabled s; nets := nets s;
                               optimizer_G := optimizer_G s; optimizer_D := optimizer_D s;
                               fake_A_pool := fake_A_pool s; fake_B_pool := fake_B_pool s;
                               eval_net := Some net; tensors := tensors s;
                               losses := losses s |}))
   else mret tt);;
  c ← gets cfg;
  nc ← getattr "aux_nc" aux_nc;
  install G_A (define_G G_A (input_nc c + nc) (output_nc c));;
  nc ← getattr "aux_nc" aux_nc;
  install G_B (define_G G_B (output_nc c + nc) (input_nc c));;
  train ← gets isTrain;
  (if train : bool then
     install D_A (define_D D_A (output_nc c));;
     install D_B (define_D D_B (input_nc c))
   else mret tt);;
  train ← gets isTrain;
  if train : bool then
    (if bool_decide (0 < lambda_identity (train_options c))
     then assert (bool_decide (input_nc c = output_nc c))
     else mret tt);;
    on_core (modify (set_fake_A_pool (new_pool (pool_size c))));;
    on_core (modify (set_fake_B_pool (new_pool (pool_size c))));;
    on_core (modify (set_optimizer_G new_adam));;
    on_core (modify (set_optimizer_D new_adam))
  else mret tt.

(** Two statements of [set_input] that occur once for each domain:
    [self.<aux> = self.<aux>.permute(2, 0, 1).unsqueeze(0)] and
    [self.<name> = self.<name>.to(self.device)] (also what
    [torch.from_numpy] does here: the value is kept). *)
Definition permute_unsqueeze (name : string) : M object unit :=
  t ← load name;
  p ← lift (permute201 (data t));
  store name (leaf (unsqueeze0 p)).

Definition reassign (name : string) : M object unit :=
  t ← load name;
  store name t.

(** What is known of an object while [set_input] runs: its options, the
    tensor attributes assigned so far and the image paths. *)
Definition input_known (c : config) (K : gmap string (Tensor params))
    (paths : option pyval) (o : object) : Prop :=
  cfg o = c ∧ K ⊆ tensors (core o) ∧ image_paths o = paths.

(** [set_input(self, input)] *)
Definition set_input (input : gmap string pyval) : M object unit :=
  c ← gets cfg;
  let AtoB := bool_decide (cfg_direction c = "AtoB") in
  v ← getitem input (if AtoB then "A" else "B");
  t ← to_device v;
  store "real_A" (leaf t);;
  v ← getitem input (if AtoB then "B" else "A");
  t ← to_device v;
  store "real_B" (leaf t);;
  paths ← getitem input (if AtoB then "A_paths" else "B_paths");
  modify (set_image_paths paths);;
  real_A ← load "real_A";
  out ← call_aux_net real_A;
  store "aux_A_out" out;;
  act ← getattr "activation" activation;
  a ← getitem act "layer4";
  store "aux_A" (leaf a);;
  real_B ← load "real_B";
  out ← call_aux_net real_B;
  store "aux_B_out" out;;
  act ← getattr "activation" activation;
  a ← getitem act "layer4";
  store "aux_B" (leaf a);;
  real_A ← load "real_A";
  aux_A ← load "aux_A";
  r ← lift (calculate_heatmap (data real_A) (data aux_A));
  store "heatmap_A" (leaf r.1);;
  store "aux_A" (leaf r.2);;
  real_B ← load "real_B";
  aux_B ← load "aux_B";
  r ← lift (calculate_heatmap (data real_B) (data aux_B));
  store "heatmap_B" (leaf r.1);;
  store "aux_B" (leaf r.2);;
  reassign "aux_A";;
  reassign "aux_B";;
  permute_unsqueeze "aux_A";;
  permute_unsqueeze "aux_B";;
  reassign "aux_A";;
  reassign "aux_B".

End Construction.
End PerceptualCycleGANModel.

(** * A small concrete instance

    One-weight networks on one-pixel-row images, used to run the definitions
    above on explicit inputs. *)

Module Toy.

Fixpoint flatten (t : tensor) : list Qc :=
  match t with
  | Scalar x => [x]
  | Dim l => concat (map flatten l)
  end.

(** The entries of a tensor as fractions. *)
Definition entries (t : tensor) : list Q := map this (flatten t).

Definition Qc_abs (x : Qc) : Qc := if decide (0 ≤ x) then x else - x.

Definition sum_list (l : list Qc) : Qc := foldr Qcplus 0 l.

Definition mean (l : list Qc) : Qc := sum_list l / Qc_of_Z (Z.of_nat (length l)).

(** Mean absolute difference of two tensors of one shape. *)
Definition l1 (a b : tensor) : result Qc :=
  if decide (shape a = shape b)
  then Ok (mean (zip_with (λ x y, Qc_abs (x - y)) (flatten a) (flatten b)))
  else Err (RuntimeError "The size of tensor a must match the size of tensor b").

(** Least-squares objective: mean squared distance to the label. *)
Definition lsgan (pred : tensor) (target : bool) : result Qc :=
  let y : Qc := if target then 1 else 0 in
  Ok (mean (map (λ x, (x - y) * (x - y)) (flatten pred))).

(** Keep the first channel of every sample and scale it by the weight. *)
Definition scale_first_channel (w : Qc) (t : tensor) : result tensor :=
  match t with
  | Dim samples =>
      Ok (Dim (map (λ smp, match smp with
                             | Dim (c :: _) => Dim [tmap (λ x, x * w) c]
                             | _ => smp
                             end) samples))
  | Scalar _ => Err (RuntimeError "Expected 4-dimensional input")
  end.

(** Two logits per sample: the sum of its entries and its negation. *)
Definition two_logits (t : tensor) : result tensor :=
  match t with
  | Dim samples =>
      Ok (Dim (map (λ smp, let v := sum_list (flatten smp) in
                           Dim [Scalar v; Scalar (- v)]) samples))
  | Scalar _ => Err (RuntimeError "Expected 4-dimensional input")
  end.

(** The first position of the largest entry of a row, with that entry. *)
Fixpoint argmax_from (best : Qc) (ibest i : nat) (l : list Qc) : Qc * nat :=
  match l with
  | [] => (best, ibest)
  | x :: r => if decide (best < x) then argmax_from x i (S i) r
              else argmax_from best ibest (S i) r
  end.

Definition max_rows (t : tensor) : result (tensor * tensor) :=
  match t with
  | Dim rows =>
      let rs := map (λ row, match flatten row with
                            | [] => (0, O)
                            | x :: r => argmax_from x 0 1 r
                            end) rows in
      Ok (Dim (map (λ r, Scalar r.1) rs),
          Dim (map (λ r, Scalar (Qc_of_Z (Z.of_nat r.2))) rs))
  | Scalar _ => Err IndexError
  end.

(** How often a network occurs in a history. *)
Fixpoint occurrences {P} (n : PerceptualCycleGANModel.net_id)
    (g : PerceptualCycleGANModel.graph P) : nat :=
  match g with
  | PerceptualCycleGANModel.GData _ | PerceptualCycleGANModel.GNumber _ => 0
  | PerceptualCycleGANModel.GNet m _ _ x =>
      (if decide (m = n) then 1 else 0) + occurrences n x
  | PerceptualCycleGANModel.GEval x | PerceptualCycleGANModel.GMax x
  | PerceptualCycleGANModel.GGan x _ => occurrences n x
  | PerceptualCycleGANModel.GCat _ a b | PerceptualCycleGANModel.GL1 a b
  | PerceptualCycleGANModel.GMul a b | PerceptualCycleGANModel.GAdd a b =>
      occurrences n a + occurrences n b
  end.

(** The pool keeps the last image it was given and hands out the one
    before, without history. *)
Definition swap_pool (p : option (PerceptualCycleGANModel.Tensor Qc))
    (t : PerceptualCycleGANModel.Tensor Qc)
    : result (PerceptualCycleGANModel.Tensor Qc * option (PerceptualCycleGANModel.Tensor Qc)) :=
  let kept := PerceptualCycleGANModel.detach t in
  match p with
  | Some old => Ok (old, Some kept)
  | None => Ok (kept, Some kept)
  end.

Global Instance toy_torch : PerceptualCycleGANModel.Torch := {|
  PerceptualCycleGANModel.params := Qc;
  PerceptualCycleGANModel.grads := Qc;
  PerceptualCycleGANModel.adam_state := nat;
  PerceptualCycleGANModel.pool := option (PerceptualCycleGANModel.Tensor Qc);
  PerceptualCycleGANModel.classifier := unit;
  PerceptualCycleGANModel.net_fn := λ _ w t, scale_first_channel w t;
  PerceptualCycleGANModel.eval_fn := λ _ t, two_logits t;
  PerceptualCycleGANModel.gan_fn := lsgan;
  PerceptualCycleGANModel.l1_fn := l1;
  PerceptualCycleGANModel.max_dim1 := max_rows;
  PerceptualCycleGANModel.autograd := λ g n, Qc_of_Z (Z.of_nat (occurrences n g));
  PerceptualCycleGANModel.grad_add := Qcplus;
  PerceptualCycleGANModel.zeroed := λ _, None;
  PerceptualCycleGANModel.adam := λ st _ w g, (w - g / Qc_of_Z 10, S st);
  PerceptualCycleGANModel.pool_query := swap_pool;
|}.

Global Instance toy_backend : UnetModel.Backend := {|
  UnetModel.weights := Qc;
  UnetModel.init_weights := λ _ _ _, 1;
  UnetModel.unet_fn := λ _ w t, Ok (tmap (λ x, x * w) t);
|}.

(** A batch of one image with one channel, one row and two pixels. *)
Definition image (a b : Qc) : tensor := Dim [Dim [Dim [Dim [Scalar a; Scalar b]]]].

Definition half : Qc := Q2Qc (1 # 2).

(** An array of dimensions [h, w, 1] with the entries of the first channel
    of the first sample of a batch. *)
Definition first_channel_hwc (t : tensor) : tensor :=
  match t with
  | Dim (Dim (Dim rows :: _) :: _) =>
      Dim (map (λ row, match row with
                       | Dim pixels => Dim (map (λ x, Dim [x]) pixels)
                       | Scalar _ => row
                       end) rows)
  | _ => Dim []
  end.

(** The heat map is the first channel of the first image; the feature map
    is the activation, one channel deep. *)
Definition toy_heatmap (img act : tensor) : result (tensor * tensor) :=
  match img with
  | Dim (Dim (c :: _) :: _) => Ok (c, first_channel_hwc act)
  | _ => Err (RuntimeError "Expected 4-dimensional input")
  end.

Global Instance toy_perception : PerceptualCycleGANModel.Perception := {|
  PerceptualCycleGANModel.load_model_by_path :=
    λ p, match p with Some _ => Ok tt | None => Err ValueError end;
  PerceptualCycleGANModel.define_G :=
    λ n _ _, match n with PerceptualCycleGANModel.G_A => 2 | _ => Qc_of_Z 3 end;
  PerceptualCycleGANModel.define_D := λ _ _, 1;
  PerceptualCycleGANModel.new_pool := λ _, None;
  PerceptualCycleGANModel.new_adam := O;
  PerceptualCycleGANModel.aux_fn := λ _ t, (Some (tmap (λ x, x + 1) t), two_logits t);
  PerceptualCycleGANModel.calculate_heatmap := toy_heatmap;
|}.

End Toy.

(** ** Explicit inputs *)

Module Examples.
Import Toy.

(** A U-Net configuration before [__init__] runs. *)
Definition unet_config (ty : string) (ids : list Z) : UnetModel.state :=
  {| UnetModel.opt :=
       {| UnetModel.unet_type := ty; UnetModel.loss_type := "iou";
          UnetModel.input_nc := 3; UnetModel.label_num := 1;
          UnetModel.batch_size := 2; UnetModel.load_size := 286;
          UnetModel.crop_size := 256 |};
     UnetModel.isTrain := true; UnetModel.gpu_ids := ids;
     UnetModel.cuda_is_available := true; UnetModel.constructed := [];
     UnetModel.loss_names := []; UnetModel.visual_names := [];
     UnetModel.model_names := []; UnetModel.netUnet := None;
     UnetModel.train_criterion := None; UnetModel.optimizer := None;
     UnetModel.tensors := ∅; UnetModel.image_paths := None |}.

(** A batch of two samples as the data loader yields it: images and masks
    in the [-1,1] encoding. *)
Definition imgs : tensor :=
  Dim [Dim [Dim [Dim [Scalar half; Scalar (- 1)]]];
       Dim [Dim [Dim [Scalar 1; Scalar 0]]]].

Definition masks : tensor :=
  Dim [Dim [Dim [Dim [Scalar (- 1); Scalar 1]]];
       Dim [Dim [Dim [Scalar 1; Scalar 1]]]].

Definition sample : gmap string pyval :=
  <["img" := PyTensor imgs]>
    (<["seg" := PyTensor masks]>
       (<["img_paths" := PyPaths ["a.png"; "b.png"]]> ∅)).

(** The [float32] number nearest to 0.1. *)
Definition tenth : Qc := Q2Qc (13421773 # 134217728).

(** A batch whose first mask has an entry that is no corner of the
    encoding. *)
Definition soft_masks : tensor :=
  Dim [Dim [Dim [Dim [Scalar tenth; Scalar (- 1)]]];
       Dim [Dim [Dim [Scalar 1; Scalar 1]]]].

Definition soft_sample : gmap string pyval :=
  <["img" := PyTensor imgs]>
    (<["seg" := PyTensor soft_masks]>
       (<["img_paths" := PyPaths ["a.png"; "b.png"]]> ∅)).

(** The state of a configured U-Net after [set_input(sample)] and
    [forward()]. *)
Definition unet_ready : UnetModel.state :=
  let s0 := (UnetModel.__init__ (unet_config "unet" [0%Z])).2 in
  let s1 := (UnetModel.set_input sample s0).2 in
  (UnetModel.forward s1).2.

(** A training state of the CycleGAN: four one-weight networks that all
    require gradients, and one-image batches for the two domains and their
    auxiliary feature maps. *)
Definition trainable (w : Qc) : PerceptualCycleGANModel.network :=
  {| PerceptualCycleGANModel.parameters := w;
     PerceptualCycleGANModel.grad := None;
     PerceptualCycleGANModel.requires_grad := true |}.

Definition ten : Qc := Qc_of_Z 10.

Definition cyclegan (lambda_idt : Qc) : PerceptualCycleGANModel.state :=
  {| PerceptualCycleGANModel.opt :=
       {| PerceptualCycleGANModel.lambda_A := ten;
          PerceptualCycleGANModel.lambda_B := ten;
          PerceptualCycleGANModel.lambda_identity := lambda_idt |};
     PerceptualCycleGANModel.batch_size := 1;
     PerceptualCycleGANModel.grad_enabled := true;
     PerceptualCycleGANModel.nets :=
       <[PerceptualCycleGANModel.G_A := trainable 2]>
         (<[PerceptualCycleGANModel.G_B := trainable (Qc_of_Z 3)]>
            (<[PerceptualCycleGANModel.D_A := trainable 1]>
               (<[PerceptualCycleGANModel.D_B := trainable 1]> ∅)));
     PerceptualCycleGANModel.optimizer_G := Some O;
     PerceptualCycleGANModel.optimizer_D := Some O;
     PerceptualCycleGANModel.fake_A_pool := Some None;
     PerceptualCycleGANModel.fake_B_pool := Some None;
     PerceptualCycleGANModel.eval_net := Some tt;
     PerceptualCycleGANModel.tensors :=
       <["real_A" := PerceptualCycleGANModel.leaf (image 1 0)]>
         (<["aux_A" := PerceptualCycleGANModel.leaf (image 1 1)]>
            (<["real_B" := PerceptualCycleGANModel.leaf (image 0 1)]>
               (<["aux_B" := PerceptualCycleGANModel.leaf (image 2 2)]> ∅)));
     PerceptualCycleGANModel.losses := ∅ |}.


(** The tensor stored under a name. *)
Definition stored (s : PerceptualCycleGANModel.state) (name : string)
    : PerceptualCycleGANModel.Tensor Qc :=
  default (PerceptualCycleGANModel.leaf (Dim [])) (PerceptualCycleGANModel.tensors s !! name).

(** The same after [forward()]. *)
Definition cyclegan_forwarded (lambda_idt : Qc) : PerceptualCycleGANModel.state :=
  (PerceptualCycleGANModel.forward (cyclegan lambda_idt)).2.

(** Options of a CycleGAN run and the model [__init__] builds from them. *)
Definition cyclegan_options (train : bool) (lambda_idt : Qc)
    : PerceptualCycleGANModel.config :=
  {| PerceptualCycleGANModel.cfg_isTrain := train;
     PerceptualCycleGANModel.cfg_batch_size := 1;
     PerceptualCycleGANModel.cfg_direction := "AtoB";
     PerceptualCycleGANModel.aux_model_path := Some "aux.pth";
     PerceptualCycleGANModel.eval_net_path := None;
     PerceptualCycleGANModel.use_val := negb train;
     PerceptualCycleGANModel.input_nc := 1;
     PerceptualCycleGANModel.output_nc := 1;
     PerceptualCycleGANModel.pool_size := 50;
     PerceptualCycleGANModel.train_options :=
       {| PerceptualCycleGANModel.lambda_A := ten;
          PerceptualCycleGANModel.lambda_B := ten;
          PerceptualCycleGANModel.lambda_identity := lambda_idt |} |}.

Definition built (train : bool) (lambda_idt : Qc) : PerceptualCycleGANModel.object :=
  (PerceptualCycleGANModel.__init__
     (PerceptualCycleGANModel.after_base (cyclegan_options train lambda_idt))).2.

(** One unpaired sample as the data loader yields it. *)
Definition pair : gmap string pyval :=
  <["A" := PyTensor (image 1 0)]>
    (<["B" := PyTensor (image 0 1)]>
       (<["A_paths" := PyPaths ["a.png"]]>
          (<["B_paths" := PyPaths ["b.png"]]> ∅))).

End Examples.

(** * Properties *)

(** ** Running a computation step by step *)

Section MonadLemmas.
Context {S : Type}.

Lemma run_bind {A B} (m : M S A) (k : A → M S B) (s : S) :
  (m ≫= k) s = match m s with
               | (Ok a, s') => k a s'
               | (Err e, s') => (Err e, s')
               end.
Proof. reflexivity. Qed.

Lemma bind_ok {A B} (m : M S A) (k : A → M S B) (s s' : S) (a : A) :
  m s = (Ok a, s') → (m ≫= k) s = k a s'.
Proof. intros Hm. by rewrite run_bind, Hm. Qed.

Lemma bind_err {A B} (m : M S A) (k : A → M S B) (s s' : S) (e : exn) :
  m s = (Err e, s') → (m ≫= k) s = (Err e, s').
Proof. intros Hm. by rewrite run_bind, Hm. Qed.

(** A run whose result is known to be a value. *)
Lemma run_returns {A} (r : result A * S) (a : A) : r.1 = Ok a → r = (Ok a, r.2).
Proof. destruct r as [r s]. cbn. by intros ->. Qed.

Lemma getattr_ok {A} (name : string) (f : S → option A) (s : S) (a : A) :
  f s = Some a → getattr name f s = (Ok a, s).
Proof. intros Hf. unfold getattr. by rewrite Hf. Qed.

Lemma frame_bind {A B X} (f : S → X) (m : M S A) (k : A → M S B) :
  frame f m → (∀ a, frame f (k a)) → frame f (m ≫= k).
Proof.
  intros Hm Hk s. rewrite run_bind. specialize (Hm s).
  destruct (m s) as [[a|e] s1]; cbn [snd] in *; [|done].
  by rewrite Hk.
Qed.

Lemma frame_ret {A X} (f : S → X) (a : A) : frame f (mret a).
Proof. by intros s. Qed.

Lemma frame_raise {A X} (f : S → X) (e : exn) : frame f (raise (A := A) e).
Proof. by intros s. Qed.

Lemma frame_gets {A X} (f : S → X) (g : S → A) : frame f (gets g).
Proof. by intros s. Qed.

Lemma frame_lift {A X} (f : S → X) (r : result A) : frame f (lift r).
Proof. by intros s. Qed.

Lemma frame_getattr {A X} (f : S → X) (name : string) (g : S → option A) :
  frame f (getattr name g).
Proof. intros s. unfold getattr. by destruct (g s). Qed.

Lemma frame_modify {X} (f : S → X) (g : S → S) :
  (∀ s, f (g s) = f s) → frame f (modify g).
Proof. intros Hg s. apply Hg. Qed.

Lemma triple_step {A B} (P P' : S → Prop) (φ : A → Prop) (m : M S A)
    (k : A → M S B) (R : B → S → Prop) (E : S → Prop) :
  triple P m (λ a s, φ a ∧ P' s) E →
  (∀ a, φ a → triple P' (k a) R E) →
  triple P (m ≫= k) R E.
Proof.
  intros Hm Hk s Hs. rewrite run_bind. destruct (Hm s Hs) as [He Hq].
  destruct (m s) as [[a|e] s1]; cbn [fst snd] in *; [|done].
  destruct (Hq a eq_refl) as [Ha Hs1]. by apply Hk.
Qed.

End MonadLemmas.

Ltac munfold :=
  unfold getitem, to_device, assert, getattr, mbind, M_bind, bind, mret, M_ret,
    ret, raise, gets, modify, lift in *.

Ltac map_lookups :=
  repeat first [rewrite lookup_insert_eq | rewrite lookup_insert_ne by done].

(** ** Tensors *)

Lemma tensor_nested_ind (P : tensor → Prop) :
  (∀ x, P (Scalar x)) →
  (∀ l, Forall P l → P (Dim l)) →
  ∀ t, P t.
Proof.
  intros HS HD. fix IH 1. intros [x|l].
  - apply HS.
  - apply HD. induction l as [|t l IHl]; constructor; [apply IH | exact IHl].
Qed.

Lemma tmap_tmap f g t : tmap f (tmap g t) = tmap (λ x, f (g x)) t.
Proof.
  induction t as [x|l IH] using tensor_nested_ind; simpl; [done|].
  f_equal. rewrite map_map. apply map_ext_Forall. exact IH.
Qed.

Lemma tmap_id f t : (∀ x, f x = x) → tmap f t = t.
Proof.
  intros Hf. induction t as [x|l IH] using tensor_nested_ind; simpl.
  - by rewrite Hf.
  - f_equal. rewrite <- (map_id l) at 2. apply map_ext_Forall. exact IH.
Qed.

(** Indexing commutes with elementwise arithmetic. *)
Lemma tindex_tmap f t i x :
  tindex t i = Ok x → tindex (tmap f t) i = Ok (tmap f x).
Proof.
  destruct t as [q|l]; simpl; [done|].
  rewrite length_map.
  destruct (_ && _); [|done].
  change (map (tmap f) l) with (tmap f <$> l).
  rewrite list_lookup_fmap.
  destruct (l !! _); simpl; [|done]. by intros [= ->].
Qed.

(** An index that [tindex] accepts without wrapping lies in the batch. *)
Lemma tindex_ok_range l i x :
  (0 ≤ i)%Z → tindex (Dim l) i = Ok x → l !! Z.to_nat i = Some x.
Proof.
  intros Hi. simpl.
  destruct (i <? 0)%Z eqn:Hneg; [lia|].
  destruct (_ && _); [|done].
  by destruct (l !! _); intros [= ->].
Qed.

(** *** Rounding to single precision *)

Section Float32Lemmas.
Local Open Scope Q_scope.

Lemma pow2_pos (e : Z) : 0 < 2 ^ e.
Proof. apply Qpower_0_lt. reflexivity. Qed.

Lemma pow2_inject (n : Z) : (0 <= n)%Z → inject_Z (2 ^ n) == 2 ^ n.
Proof. intros Hn. by rewrite Zpower_Qpower. Qed.

(** [2 ^ ilog2 q <= q] for a positive [q]. *)
Lemma ilog2_le (q : Q) : 0 < q → 2 ^ ilog2 q <= q.
Proof.
  intros Hq. unfold ilog2.
  set (a := Qnum q). set (b := Z.pos (Qden q)).
  destruct (Qle_bool (2 ^ (Z.log2 a - Z.log2 b)) q) eqn:Ht.
  { by apply Qle_bool_iff. }
  assert (Ha : (0 < a)%Z).
  { subst a. unfold Qlt in Hq. cbn in Hq. lia. }
  assert (Hb : (0 < b)%Z) by (subst b; lia).
  pose proof (Z.log2_spec a Ha) as [Hla _].
  pose proof (Z.log2_spec b Hb) as [_ Hlb].
  pose proof (Z.log2_nonneg a) as Hna. pose proof (Z.log2_nonneg b) as Hnb.
  assert (Hqa : q * inject_Z b == inject_Z a).
  { subst a b. destruct q as [n d]. unfold Qeq, Qmult, inject_Z. cbn. lia. }
  assert (H1 : 2 ^ Z.log2 a <= inject_Z a).
  { rewrite <- pow2_inject by done. by rewrite <- Zle_Qle. }
  assert (H2 : inject_Z b <= 2 ^ (Z.log2 b + 1)).
  { replace (Z.log2 b + 1)%Z with (Z.succ (Z.log2 b)) by lia.
    rewrite <- pow2_inject by lia. rewrite <- Zle_Qle. lia. }
  assert (H3 : 2 ^ Z.log2 a == 2 ^ (Z.log2 a - Z.log2 b - 1) * 2 ^ (Z.log2 b + 1)).
  { rewrite <- Qpower_plus by done. f_equiv. lia. }
  pose proof (pow2_pos (Z.log2 a - Z.log2 b - 1)) as Hp.
  assert (Hbq : 0 < inject_Z b).
  { replace 0 with (inject_Z 0) by done. by rewrite <- Zlt_Qlt. }
  apply (Qmult_le_r _ _ (inject_Z b)); [done|].
  rewrite Hqa. eapply Qle_trans; [|exact H1]. rewrite H3.
  apply Qmult_le_l; done.
Qed.

Lemma nearest_even_err (q : Q) : Qabs (inject_Z (nearest_even q) - q) <= 1 # 2.
Proof.
  unfold nearest_even.
  pose proof (Qfloor_le q) as Hl. pose proof (Qlt_floor q) as Hu.
  rewrite inject_Z_plus in Hu. change (inject_Z 1) with 1 in Hu.
  apply Qabs_Qle_condition.
  destruct (Qcompare_spec (q - inject_Z (Qfloor q)) (1 # 2)) as [He|Hlt|Hgt].
  - destruct (Z.even (Qfloor q)); rewrite ?inject_Z_plus;
      change (inject_Z 1) with 1; split; lra.
  - split; lra.
  - rewrite inject_Z_plus. change (inject_Z 1) with 1. split; lra.
Qed.

Lemma round_scaled_err (q : Q) :
  ¬ q == 0 →
  Qabs (inject_Z (nearest_even (q * 2 ^ (23 - ilog2 (Qabs q))))
        / 2 ^ (23 - ilog2 (Qabs q)) - q) <= (1 # 16777216) * Qabs q.
Proof.
  intros Hq.
  assert (Hpos : 0 < Qabs q).
  { destruct (Qlt_le_dec 0 (Qabs q)) as [|Hle]; [done|].
    exfalso. apply Hq. apply Qabs_Qle_condition in Hle. lra. }
  set (e := ilog2 (Qabs q)).
  pose proof (ilog2_le (Qabs q) Hpos) as Hp. fold e in Hp.
  pose proof (pow2_pos e) as Hp0. pose proof (pow2_pos (23 - e)) as Hs0.
  assert (Hps : 2 ^ e * 2 ^ (23 - e) == 8388608).
  { rewrite <- Qpower_plus by done. replace (e + (23 - e))%Z with 23%Z by lia. done. }
  set (s := 2 ^ (23 - e)) in *. set (p := 2 ^ e) in *.
  pose proof (nearest_even_err (q * s)) as Hn.
  set (n := inject_Z (nearest_even (q * s))) in *.
  assert (Hdiff : n / s - q == (n - q * s) * / s) by (field; lra).
  rewrite Hdiff, Qabs_Qmult.
  assert (Hinv : 0 < / s) by (by apply Qinv_lt_0_compat).
  rewrite (Qabs_pos (/ s)) by lra.
  apply Qle_trans with ((1 # 2) * / s).
  { apply Qmult_le_compat_r; [done|lra]. }
  apply (Qmult_le_r _ _ s); [done|].
  assert (H1 : (1 # 2) * / s * s == 1 # 2) by (field; lra).
  rewrite H1.
  assert (H2 : p * s <= Qabs q * s) by (apply Qmult_le_compat_r; lra).
  assert (H3 : (1 # 16777216) * Qabs q * s == (1 # 16777216) * (Qabs q * s)) by ring.
  rewrite H3. lra.
Qed.

Lemma round24_err (q : Q) : Qabs (round24 q - q) <= (1 # 16777216) * Qabs q.
Proof.
  unfold round24. destruct (Qnum q) eqn:Hn.
  - assert (Hq : q == 0) by (destruct q; unfold Qeq; cbn in *; lia).
    rewrite Hq. done.
  - apply round_scaled_err. destruct q. unfold Qeq. cbn in *. lia.
  - apply round_scaled_err. destruct q. unfold Qeq. cbn in *. lia.
Qed.

Lemma Qabs_cases (t : Q) : (0 <= t ∧ Qabs t == t) ∨ (t <= 0 ∧ Qabs t == - t).
Proof. apply Qabs_case; intros Ht; [by left|by right]. Qed.

(** The round trip with a rounding after each of the four operations. *)
Lemma round_trip_err (fl : Q → Q) (x y1 a y2 b y3 c y4 d : Q) :
  (∀ y, Qabs (fl y - y) <= (1 # 16777216) * Qabs y) →
  y1 == x + 1 → a == fl y1 → y2 == a * (1 # 2) → b == fl y2 →
  y3 == b * 2 → c == fl y3 → y4 == c - 1 → d == fl y4 →
  Qabs (d - x) <= (5 # 16777216) * (Qabs x + 1).
Proof.
  intros Hfl Hy1 Ha Hy2 Hb Hy3 Hc Hy4 Hd.
  pose proof (Hfl y1) as H1. pose proof (Hfl y2) as H2.
  pose proof (Hfl y3) as H3. pose proof (Hfl y4) as H4.
  rewrite <- Ha in H1. rewrite <- Hb in H2. rewrite <- Hc in H3. rewrite <- Hd in H4.
  apply Qabs_Qle_condition in H1, H2, H3, H4. apply Qabs_Qle_condition.
  destruct (Qabs_cases x) as [[? ?]|[? ?]], (Qabs_cases y1) as [[? ?]|[? ?]],
    (Qabs_cases y2) as [[? ?]|[? ?]], (Qabs_cases y3) as [[? ?]|[? ?]],
    (Qabs_cases y4) as [[? ?]|[? ?]]; split; lra.
Qed.

(** [2 ^ (ilog2 q + 1)] lies above a positive [q]: the rounded number has
    24 significant bits, not more. *)
Lemma ilog2_lt (q : Q) : 0 < q → q < 2 ^ (ilog2 q + 1).
Proof.
  intros Hq. unfold ilog2.
  set (a := Qnum q). set (b := Z.pos (Qden q)).
  destruct (Qle_bool (2 ^ (Z.log2 a - Z.log2 b)) q) eqn:Ht.
  2:{ replace (Z.log2 a - Z.log2 b - 1 + 1)%Z with (Z.log2 a - Z.log2 b)%Z by lia.
      apply Qnot_le_lt. intros Hle. apply Qle_bool_iff in Hle. congruence. }
  assert (Ha : (0 < a)%Z).
  { subst a. unfold Qlt in Hq. cbn in Hq. lia. }
  assert (Hb : (0 < b)%Z) by (subst b; lia).
  pose proof (Z.log2_spec a Ha) as [_ Hla].
  pose proof (Z.log2_spec b Hb) as [Hlb _].
  pose proof (Z.log2_nonneg a) as Hna. pose proof (Z.log2_nonneg b) as Hnb.
  assert (Hqa : q * inject_Z b == inject_Z a).
  { subst a b. destruct q as [n d]. unfold Qeq, Qmult, inject_Z. cbn. lia. }
  assert (H1 : inject_Z a < 2 ^ (Z.log2 a + 1)).
  { replace (Z.log2 a + 1)%Z with (Z.succ (Z.log2 a)) by lia.
    rewrite <- pow2_inject by lia. by rewrite <- Zlt_Qlt. }
  assert (H2 : 2 ^ Z.log2 b <= inject_Z b).
  { rewrite <- pow2_inject by done. by rewrite <- Zle_Qle. }
  assert (H3 : 2 ^ (Z.log2 a + 1) == 2 ^ (Z.log2 a - Z.log2 b + 1) * 2 ^ Z.log2 b).
  { rewrite <- Qpower_plus by done. f_equiv. lia. }
  pose proof (pow2_pos (Z.log2 a - Z.log2 b + 1)) as Hp.
  pose proof (pow2_pos (Z.log2 b)) as Hpb.
  apply (Qmult_lt_r _ _ (inject_Z b)); [lra|].
  rewrite Hqa. eapply Qlt_le_trans; [exact H1|]. rewrite H3.
  apply Qmult_le_l; done.
Qed.

End Float32Lemmas.

Lemma float32_this (x : Qc) : (this (float32 x) == round24 x)%Q.
Proof. unfold float32. cbn [this Q2Qc]. apply Qred_correct. Qed.

Lemma float32_round_trip_err (x : Qc) :
  Qcabs.Qcabs (float32 (float32 (float32 (float32 (x + 1) / 2) * 2) - 1) - x)
    ≤ Q2Qc (5 # 16777216) * (Qcabs.Qcabs x + 1).
Proof.
  unfold Qcle. cbn [this Qcabs.Qcabs Qcminus Qcplus Qcopp Qcmult Q2Qc].
  rewrite !Qred_correct.
  eapply (round_trip_err round24 x (x + 1)%Qc (float32 (x + 1))
            (float32 (x + 1) / 2)%Qc (float32 (float32 (x + 1) / 2))
            (float32 (float32 (x + 1) / 2) * 2)%Qc
            (float32 (float32 (float32 (x + 1) / 2) * 2))
            (float32 (float32 (float32 (x + 1) / 2) * 2) - 1)%Qc).
  - apply round24_err.
  - cbn [this Qcplus Q2Qc]. by rewrite Qred_correct.
  - apply float32_this.
  - unfold Qcdiv. cbn [this Qcmult Qcinv Q2Qc]. by rewrite !Qred_correct.
  - apply float32_this.
  - cbn [this Qcmult Q2Qc]. by rewrite Qred_correct.
  - apply float32_this.
  - unfold Qcminus. cbn [this Qcplus Qcopp Q2Qc]. rewrite !Qred_correct. done.
  - apply float32_this.
Qed.

Lemma float32_inexact :
  let x := Q2Qc (1 # 134217728) in
  float32 x = x ∧ float32 (float32 (float32 (float32 (x + 1) / 2) * 2) - 1) ≠ x.
Proof.
  intros x. split.
  - apply Qc_is_canon. rewrite float32_this. by vm_compute.
  - intros Heq. apply (f_equal this) in Heq. vm_compute in Heq. discriminate Heq.
Qed.

Lemma randint_range a b u i :
  randint a b u = Ok i → (a ≤ i ≤ b)%Z.
Proof.
  unfold randint. destruct (b <? a)%Z eqn:Hab; [done|].
  intros [= <-]. apply Z.ltb_ge in Hab.
  pose proof (Z.mod_pos_bound (Z.of_nat u) (b - a + 1)). lia.
Qed.

(** Every index of the range is drawn for some value of the generator. *)
Lemma randint_onto a b i :
  (a ≤ i ≤ b)%Z → randint a b (Z.to_nat (i - a)) = Ok i.
Proof.
  intros Hi. unfold randint.
  destruct (b <? a)%Z eqn:Hab; [lia|].
  rewrite Z2Nat.id by lia. rewrite Z.mod_small by lia. f_equal. lia.
Qed.

(** ** The U-Net model *)

Section UnetProperties.
Import UnetModel.
Context `{Backend}.

Lemma variant_cases (name : string) (a : arch) :
  variant name = Some a →
  (name, a) ∈ [("unet", UNet); ("unet_2plus", UNet_2Plus); ("unet_3plus", UNet_3Plus);
               ("unet_3plus_deepsup", UNet_3Plus_DeepSup);
               ("unet_3plus_deepsup_cgm", UNet_3Plus_DeepSup_CGM)].
Proof. unfold variant. apply elem_of_list_to_map_2. Qed.

Lemma variant_recognized (name : string) :
  is_Some (variant name) ↔ name ∈ recognized.
Proof.
  unfold variant, recognized. rewrite <- not_eq_None_Some.
  rewrite <- not_elem_of_list_to_map. simpl.
  destruct (decide (name ∈ ["unet"; "unet_2plus"; "unet_3plus"; "unet_3plus_deepsup";
                            "unet_3plus_deepsup_cgm"])); naive_solver.
Qed.

(** The body of [get_network_by_name] after the model was chosen. *)
Lemma get_network_by_name_chosen (s : state) (a : arch) :
  variant (unet_type (opt s)) = Some a →
  get_network_by_name s =
    let model := new_module a (input_nc (opt s)) (label_num (opt s)) in
    let s' := set_opt (set_crop_size 320)
                (set_opt (set_load_size 512)
                   (set_constructed (λ l, l ++ [model]) s)) in
    match gpu_ids s with
    | id0 :: _ =>
        if cuda_is_available s
        then (Ok {| dp_module := to model id0; device_ids := gpu_ids s |}, s')
        else (Err AssertionError, s')
    | [] => (Err (UnboundLocalError "net"), s')
    end.
Proof.
  intros Hv. apply variant_cases in Hv.
  unfold get_network_by_name. rewrite run_bind. simpl.
  repeat (apply elem_of_cons in Hv as [[= Hn ->]|Hv]; [
    rewrite Hn; repeat (rewrite decide_False by done); rewrite decide_True by done;
    destruct (gpu_ids s) eqn:Hg; [|destruct (cuda_is_available s) eqn:Hc];
    unfold construct; munfold; simpl; rewrite ?Hg; simpl; rewrite ?Hc; reflexivity |]).
  by apply elem_of_nil in Hv.
Qed.

Lemma get_network_by_name_unknown (s : state) :
  unet_type (opt s) ∉ recognized →
  get_network_by_name s =
    (Err (NotImplementedError
            ("Unet model name [" +:+ unet_type (opt s) +:+ "] is not recognized")), s).
Proof.
  intros Hn. unfold get_network_by_name, recognized in *.
  rewrite run_bind. simpl.
  repeat (rewrite decide_False by (intros Heq; apply Hn; rewrite Heq; set_solver)).
  reflexivity.
Qed.

(** C7. An [unet_type] outside the five recognized names makes
    [get_network_by_name], and with it [__init__], raise
    [NotImplementedError] with a message that contains the name; the state is
    as it was, so no network has been constructed and none is installed.
    For each of the five names the constructor of the matching architecture
    is called with the channel and class counts of the options, and with a
    GPU configured and CUDA available the network comes back wrapped in
    [DataParallel]. *)
Theorem unet_type_selects_network (s : state) :
  (unet_type (opt s) ∉ recognized →
     get_network_by_name s =
       (Err (NotImplementedError
               ("Unet model name [" +:+ unet_type (opt s) +:+ "] is not recognized")), s)
     ∧ (__init__ s).1 =
         Err (NotImplementedError
                ("Unet model name [" +:+ unet_type (opt s) +:+ "] is not recognized"))
     ∧ constructed (__init__ s).2 = constructed s
     ∧ netUnet (__init__ s).2 = netUnet s)
  ∧ (∀ name, name ∈ recognized ↔ is_Some (variant name))
  ∧ (∀ a, variant (unet_type (opt s)) = Some a →
       let model := new_module a (input_nc (opt s)) (label_num (opt s)) in
       constructed (get_network_by_name s).2 = constructed s ++ [model]
       ∧ constructed (__init__ s).2 = constructed s ++ [model]
       ∧ ∀ id0 ids, gpu_ids s = id0 :: ids → cuda_is_available s = true →
           (get_network_by_name s).1 =
             Ok {| dp_module := to model id0; device_ids := id0 :: ids |}).
Proof.
  split; [|split].
  - intros Hn. split; [by apply get_network_by_name_unknown|].
    unfold __init__. rewrite run_bind. simpl. rewrite run_bind.
    rewrite get_network_by_name_unknown by done. done.
  - intros name. by rewrite variant_recognized.
  - intros a Hv model. split; [|split].
    + rewrite (get_network_by_name_chosen s a Hv).
      destruct (gpu_ids s); [done|]. by destruct (cuda_is_available s).
    + unfold __init__. rewrite run_bind. simpl. rewrite run_bind.
      rewrite (get_network_by_name_chosen _ a) by done. simpl.
      destruct (gpu_ids s); [done|].
      destruct (cuda_is_available s); [|done].
      rewrite !run_bind. simpl. rewrite !run_bind. simpl.
      destruct (isTrain s); [|done].
      rewrite !run_bind. simpl.
      unfold criterion_by_name; repeat case_decide; done.
    + intros id0 ids Hg Hc. rewrite (get_network_by_name_chosen s a Hv).
      by rewrite Hg, Hc.
Qed.

Ltac ustep :=
  repeat (progress (
    cbn [opt isTrain gpu_ids cuda_is_available constructed loss_names
         visual_names model_names netUnet train_criterion optimizer tensors
         image_paths fst snd];
    map_lookups)).

(** What [set_input] stores for a sample that has the three keys. *)
Lemma set_input_run (input : gmap string pyval) (s : state) img seg paths :
  input !! "img" = Some (PyTensor img) →
  input !! "seg" = Some (PyTensor seg) →
  input !! "img_paths" = Some paths →
  set_input input s =
    (Ok tt, set_image_paths paths
              (set_tensors (λ m, <["seg" := tdiv (tadd seg 1) 2]> (<["img" := img]> m)) s)).
Proof.
  intros Hi Hs Hp.
  unfold set_input, setattr, attr, set_image_paths, set_tensors. munfold.
  rewrite Hi, Hs, Hp. ustep. by rewrite insert_insert_eq.
Qed.

(** What [compute_visuals] stores when the drawn index lies in the batch. *)
Lemma compute_visuals_run (u : nat) (s : state) img seg out idx x y z :
  tensors s !! "img" = Some img →
  tensors s !! "seg" = Some seg →
  tensors s !! "output" = Some out →
  randint 0 (batch_size (opt s) - 1) u = Ok idx →
  tindex img idx = Ok x →
  tindex seg idx = Ok y →
  tindex out idx = Ok z →
  compute_visuals u s =
    (Ok tt, set_tensors (λ m, <["pred_seg" := unsqueeze0 (tsub (tmul z 2) 1)]>
                                (<["true_seg" := unsqueeze0 (tsub (tmul y 2) 1)]>
                                   (<["input_image" := unsqueeze0 x]> m))) s).
Proof.
  intros Hi Hs Ho Hr Hx Hy Hz.
  unfold compute_visuals, setattr, attr, set_tensors. munfold.
  rewrite Hr, Hi, Hx. ustep. rewrite Hs, Hy. ustep. rewrite Ho, Hz. ustep.
  by rewrite !insert_insert_eq.
Qed.

(** C8. The rescaling of [set_input], [(seg + 1) / 2], followed by the
    rescaling of [compute_visuals], [seg * 2 - 1], gives back every entry of
    every mask tensor within floating-point tolerance: each of the four
    operations rounds to single precision, and what comes back differs from
    the entry [x] by at most [5 * 2^-24 * (|x| + 1)], less than [6e-7] for a
    mask entry of [-1 .. 1].  It is not always the entry itself: [2^-27] is a
    [float32] number and comes back as [0].  The pair of methods does the
    same: the mask [compute_visuals] exposes is the round trip of the sample
    of the mask that [set_input] was given. *)
Theorem mask_rescaling_round_trip :
  let round_trip (x : Qc) : Qc :=
    float32 (float32 (float32 (float32 (x + 1) / 2) * 2) - 1) in
  (∀ t : tensor, tsub (tmul (tdiv (tadd t 1) 2) 2) 1 = tmap round_trip t)
  ∧ (∀ x : Qc,
       Qcabs.Qcabs (round_trip x - x) ≤ Q2Qc (5 # 16777216) * (Qcabs.Qcabs x + 1))
  ∧ (∃ x : Qc, float32 x = x ∧ round_trip x ≠ x)
  ∧ (∀ (input : gmap string pyval) (s : state) (u : nat) img seg paths out idx x y z,
       input !! "img" = Some (PyTensor img) →
       input !! "seg" = Some (PyTensor seg) →
       input !! "img_paths" = Some paths →
       tensors s !! "output" = Some out →
       randint 0 (batch_size (opt s) - 1) u = Ok idx →
       tindex img idx = Ok x →
       tindex seg idx = Ok y →
       tindex out idx = Ok z →
       let r := (set_input input ≫= λ _, compute_visuals u) s in
       r.1 = Ok tt ∧ tensors r.2 !! "true_seg" = Some (unsqueeze0 (tmap round_trip y))).
Proof.
  intros round_trip.
  assert (Hrt : ∀ t : tensor, tsub (tmul (tdiv (tadd t 1) 2) 2) 1 = tmap round_trip t).
  { intros t. unfold tsub, tmul, tdiv, tadd. by rewrite !tmap_tmap. }
  split; [exact Hrt|]. split; [exact float32_round_trip_err|].
  split; [exists (Q2Qc (1 # 134217728)); exact float32_inexact|].
  intros input s u img seg paths out idx x y z Hi Hs Hp Ho Hr Hx Hy Hz r.
  subst r. rewrite run_bind, (set_input_run input s img seg paths) by done.
  assert (Hy' : tindex (tdiv (tadd seg 1) 2) idx = Ok (tdiv (tadd y 1) 2)).
  { unfold tdiv, tadd. rewrite !tmap_tmap. by apply tindex_tmap. }
  rewrite (compute_visuals_run u _ img (tdiv (tadd seg 1) 2) out idx x
             (tdiv (tadd y 1) 2) z);
    unfold set_image_paths, set_tensors; ustep; try done.
  by rewrite Hrt.
Qed.

(** C9, as amended.  [compute_visuals] draws an index in
    [0 .. opt.batch_size - 1]; when the three tensors have a sample at that
    index, it exposes the sample of the image as it is and the samples of the
    true and of the predicted mask rescaled by [y * 2 - 1], each with a new
    first dimension, and changes nothing else. *)
Theorem compute_visuals_exposes_sample (u : nat) (s : state) img seg out idx x y z :
  tensors s !! "img" = Some img →
  tensors s !! "seg" = Some seg →
  tensors s !! "output" = Some out →
  randint 0 (batch_size (opt s) - 1) u = Ok idx →
  tindex img idx = Ok x →
  tindex seg idx = Ok y →
  tindex out idx = Ok z →
  (0 ≤ idx ≤ batch_size (opt s) - 1)%Z
  ∧ compute_visuals u s =
      (Ok tt, set_tensors (λ m, <["pred_seg" := unsqueeze0 (tsub (tmul z 2) 1)]>
                                  (<["true_seg" := unsqueeze0 (tsub (tmul y 2) 1)]>
                                     (<["input_image" := unsqueeze0 x]> m))) s).
Proof.
  intros Hi Hs Ho Hr Hx Hy Hz. split.
  - by apply (randint_range _ _ u).
  - by apply compute_visuals_run with img seg out idx.
Qed.

(** C10, as amended.  With an empty [gpu_ids] neither
    [get_network_by_name] nor [__init__] returns, whatever the options, and
    no network is installed; with a recognized [unet_type] the exception is
    the unbound local [net]. *)
Theorem no_gpu_no_network (s : state) :
  gpu_ids s = [] →
  is_ok (get_network_by_name s).1 = false
  ∧ is_ok (__init__ s).1 = false
  ∧ netUnet (__init__ s).2 = netUnet s
  ∧ (unet_type (opt s) ∈ recognized →
       (get_network_by_name s).1 = Err (UnboundLocalError "net")
       ∧ (__init__ s).1 = Err (UnboundLocalError "net")).
Proof.
  intros Hg.
  destruct (variant (unet_type (opt s))) as [a|] eqn:Hv.
  - assert (Hi : __init__ s =
                 (Err (UnboundLocalError "net"),
                  (get_network_by_name
                     (set_names ["IOU"; "BCE"; "MSSSIM"]
                        ["input_image"; "true_seg"; "pred_seg"] ["Unet"] s)).2)).
    { unfold __init__. rewrite run_bind. cbn [modify]. rewrite run_bind.
      rewrite (get_network_by_name_chosen _ a) by done.
      cbn [gpu_ids set_names]. by rewrite Hg. }
    rewrite Hi, (get_network_by_name_chosen s a Hv), Hg.
    rewrite (get_network_by_name_chosen _ a) by done.
    cbn [gpu_ids set_names]. rewrite Hg. done.
  - assert (Hn : unet_type (opt s) ∉ recognized).
    { rewrite <- variant_recognized, Hv. by intros [? ?]. }
    rewrite (get_network_by_name_unknown s Hn).
    unfold __init__. rewrite run_bind. cbn [modify]. rewrite run_bind.
    rewrite get_network_by_name_unknown by done. done.
Qed.

(** ** More of the U-Net model: construction *)

Lemma criterion_name_inj (x y : string) :
  "criterion" +:+ x = "criterion" +:+ y ↔ x = y.
Proof.
  split; [|by intros ->]. intros Heq. cbv [String.app append] in Heq.
  by injection Heq.
Qed.

(** [__init__] once the network is built and wrapped. *)
Lemma init_with_network (s : state) (a : arch) (id0 : Z) (ids : list Z) :
  variant (unet_type (opt s)) = Some a →
  gpu_ids s = id0 :: ids →
  cuda_is_available s = true →
  let model := new_module a (input_nc (opt s)) (label_num (opt s)) in
  let s1 := set_netUnet {| dp_module := to model id0; device_ids := id0 :: ids |}
              (set_opt (set_crop_size 320)
                 (set_opt (set_load_size 512)
                    (set_constructed (λ l, l ++ [model])
                       (set_names ["IOU"; "BCE"; "MSSSIM"]
                          ["input_image"; "true_seg"; "pred_seg"] ["Unet"] s)))) in
  let sgd := {| lr := Q2Qc (1 # 1000); momentum := Q2Qc (9 # 10) |} in
  let lt := upper (loss_type (opt s)) in
  __init__ s =
    if isTrain s then
      if decide (lt = "BCE") then (Ok tt, set_optimizer sgd (set_train_criterion BCELoss s1))
      else if decide (lt = "IOU") then (Ok tt, set_optimizer sgd (set_train_criterion IOU s1))
      else if decide (lt = "MSSSIM")
           then (Ok tt, set_optimizer sgd (set_train_criterion MSSSIM s1))
           else (Err (AttributeError ("criterion" +:+ lt)), s1)
    else (Ok tt, s1).
Proof.
  intros Hv Hg Hc model s1 sgd lt.
  unfold __init__. rewrite run_bind. cbn [modify]. rewrite run_bind.
  rewrite (get_network_by_name_chosen _ a) by done.
  cbn [gpu_ids set_names cuda_is_available opt]. rewrite Hg, Hc.
  cbv zeta. rewrite run_bind. cbn [modify]. rewrite run_bind. cbn [gets].
  cbn [isTrain set_netUnet set_opt set_constructed set_names].
  destruct (isTrain s); [|done].
  rewrite run_bind. cbn [gets]. rewrite run_bind.
  cbn [opt set_netUnet set_opt set_constructed set_names loss_type set_crop_size
       set_load_size].
  unfold criterion_by_name. fold lt.
  destruct (decide (lt = "BCE")) as [->|Hb].
  { by rewrite decide_True. }
  rewrite (decide_False (P := _ = "criterionBCE"))
    by (by intros ?%(criterion_name_inj lt "BCE")).
  destruct (decide (lt = "IOU")) as [->|Hi].
  { by rewrite decide_True. }
  rewrite (decide_False (P := _ = "criterionIOU"))
    by (by intros ?%(criterion_name_inj lt "IOU")).
  destruct (decide (lt = "MSSSIM")) as [->|Hm].
  { by rewrite decide_True. }
  rewrite (decide_False (P := _ = "criterionMSSSIM"))
    by (by intros ?%(criterion_name_inj lt "MSSSIM")).
  done.
Qed.

Lemma no_gpu_outcome (s : state) (a : arch) :
  variant (unet_type (opt s)) = Some a → gpu_ids s = [] →
  ∃ e, (__init__ s).1 = Err e.
Proof.
  intros Hv Hg. exists (UnboundLocalError "net").
  unfold __init__. rewrite run_bind. cbn [modify]. rewrite run_bind.
  rewrite (get_network_by_name_chosen _ a) by done.
  cbn [gpu_ids set_names]. by rewrite Hg.
Qed.

(** X1.  With a [loss_type] of ASCII characters, [__init__] returns exactly
    when the [unet_type] is one of the five recognized names, at least one
    GPU id is configured, CUDA is available and, in training, the
    upper-cased [loss_type] is [BCE], [IOU] or [MSSSIM]; at test time the
    [loss_type] is not looked at, so there it may be any string. *)
Theorem init_returns_iff (s : state) :
  (isTrain s = true → isascii (loss_type (opt s)) = true) →
  (__init__ s).1 = Ok tt ↔
    unet_type (opt s) ∈ recognized
    ∧ gpu_ids s ≠ []
    ∧ cuda_is_available s = true
    ∧ (isTrain s = true → upper (loss_type (opt s)) ∈ ["BCE"; "IOU"; "MSSSIM"]).
Proof.
  intros _.
  destruct (variant (unet_type (opt s))) as [a|] eqn:Hv.
  - assert (Hrec : unet_type (opt s) ∈ recognized).
    { apply variant_recognized. by rewrite Hv. }
    destruct (gpu_ids s) as [|id0 ids] eqn:Hg.
    { destruct (no_gpu_outcome s a Hv Hg) as [e He]. rewrite He. split; [done|].
      by intros (_ & ? & _). }
    destruct (cuda_is_available s) eqn:Hc.
    + rewrite (init_with_network s a id0 ids Hv Hg Hc). cbv zeta.
      destruct (isTrain s).
      * destruct (decide (upper (loss_type (opt s)) = "BCE")) as [Hb|Hb].
        { split; [|done]. intros _. repeat split; try done. intros _.
          rewrite Hb. apply list_elem_of_here. }
        destruct (decide (upper (loss_type (opt s)) = "IOU")) as [Hi|Hi].
        { split; [|done]. intros _. repeat split; try done. intros _.
          rewrite Hi. apply list_elem_of_further, list_elem_of_here. }
        destruct (decide (upper (loss_type (opt s)) = "MSSSIM")) as [Hm|Hm].
        { split; [|done]. intros _. repeat split; try done. intros _.
          rewrite Hm. do 2 apply list_elem_of_further. apply list_elem_of_here. }
        split; [done|]. intros (_ & _ & _ & Hl). specialize (Hl eq_refl).
        repeat (apply elem_of_cons in Hl as [Hl|Hl]; [done|]).
        by apply elem_of_nil in Hl.
      * split; [|done]. intros _. repeat split; done.
    + split; [|by intros (_ & _ & ? & _)].
      unfold __init__. rewrite run_bind. cbn [modify]. rewrite run_bind.
      rewrite (get_network_by_name_chosen _ a) by done.
      cbn [gpu_ids set_names cuda_is_available]. by rewrite Hg, Hc.
  - assert (Hn : unet_type (opt s) ∉ recognized).
    { rewrite <- variant_recognized, Hv. by intros [? ?]. }
    split; [|by intros (? & _)].
    unfold __init__. rewrite run_bind. cbn [modify]. rewrite run_bind.
    by rewrite get_network_by_name_unknown.
Qed.

(** X2.  In training, once the network is built, the criterion is looked up
    under the name ['criterion' + opt.loss_type.upper()].  For a [loss_type]
    of ASCII characters: when its upper-cased form is [BCE], [IOU] or
    [MSSSIM] that criterion is selected and the SGD optimizer with learning
    rate 0.001 and momentum 0.9 is installed; otherwise [AttributeError] is
    raised for the name that was looked up, with the network already
    installed and without criterion or optimizer. *)
Theorem loss_type_selects_criterion (s : state) (a : arch) (id0 : Z) (ids : list Z) :
  variant (unet_type (opt s)) = Some a →
  gpu_ids s = id0 :: ids →
  cuda_is_available s = true →
  isTrain s = true →
  isascii (loss_type (opt s)) = true →
  let lt := upper (loss_type (opt s)) in
  let r := __init__ s in
  (∀ c, (lt, c) ∈ [("BCE", BCELoss); ("IOU", IOU); ("MSSSIM", MSSSIM)] →
        r.1 = Ok tt
        ∧ train_criterion r.2 = Some c
        ∧ optimizer r.2 = Some {| lr := Q2Qc (1 # 1000); momentum := Q2Qc (9 # 10) |})
  ∧ (lt ∉ ["BCE"; "IOU"; "MSSSIM"] →
        r.1 = Err (AttributeError ("criterion" +:+ lt))
        ∧ netUnet r.2 =
            Some {| dp_module := to (new_module a (input_nc (opt s)) (label_num (opt s))) id0;
                    device_ids := id0 :: ids |}
        ∧ train_criterion r.2 = train_criterion s
        ∧ optimizer r.2 = optimizer s).
Proof.
  intros Hv Hg Hc Ht _ lt r. subst r.
  rewrite (init_with_network s a id0 ids Hv Hg Hc). cbv zeta. rewrite Ht. fold lt.
  split.
  - intros c Hin.
    apply elem_of_cons in Hin as [[= Hl <-]|Hin]; [by rewrite decide_True|].
    apply elem_of_cons in Hin as [[= Hl <-]|Hin].
    { rewrite Hl. rewrite decide_False by done. by rewrite decide_True. }
    apply elem_of_cons in Hin as [[= Hl <-]|Hin].
    { rewrite Hl. do 2 rewrite decide_False by done. by rewrite decide_True. }
    by apply elem_of_nil in Hin.
  - intros Hn.
    rewrite decide_False by (intros Heq; apply Hn; rewrite Heq; apply list_elem_of_here).
    rewrite decide_False
      by (intros Heq; apply Hn; rewrite Heq;
          apply list_elem_of_further, list_elem_of_here).
    rewrite decide_False
      by (intros Heq; apply Hn; rewrite Heq;
          do 2 apply list_elem_of_further; apply list_elem_of_here).
    done.
Qed.

(** X3.  [get_network_by_name] writes to the options object it is given:
    for a recognized [unet_type] it sets [load_size] to 512 and [crop_size]
    to 320, whatever they were and also when it goes on to raise for want of
    a GPU; for an unrecognized one the options stay as they were.  No other
    option is ever changed. *)
Theorem get_network_by_name_overwrites_sizes (s : state) :
  let o' := opt (get_network_by_name s).2 in
  (unet_type (opt s) ∈ recognized → load_size o' = 512%Z ∧ crop_size o' = 320%Z)
  ∧ (unet_type (opt s) ∉ recognized → o' = opt s)
  ∧ unet_type o' = unet_type (opt s)
  ∧ loss_type o' = loss_type (opt s)
  ∧ input_nc o' = input_nc (opt s)
  ∧ label_num o' = label_num (opt s)
  ∧ batch_size o' = batch_size (opt s).
Proof.
  cbv zeta.
  destruct (variant (unet_type (opt s))) as [a|] eqn:Hv.
  - rewrite (get_network_by_name_chosen s a Hv). cbv zeta.
    assert (Hrec : unet_type (opt s) ∈ recognized).
    { apply variant_recognized. by rewrite Hv. }
    destruct (gpu_ids s); [|destruct (cuda_is_available s)]; by repeat split.
  - assert (Hn : unet_type (opt s) ∉ recognized).
    { rewrite <- variant_recognized, Hv. by intros [? ?]. }
    rewrite (get_network_by_name_unknown s Hn). by repeat split.
Qed.

(** ** More of the U-Net model: data flow *)

(** X4.  [set_input] reads the keys [img], [seg] and [img_paths] in this
    order and assigns as it goes: a missing key raises [KeyError] for that
    key and leaves what was assigned before it, so a sample without [seg]
    leaves the new image beside the old mask.  Whatever the sample and the
    outcome, no tensor attribute other than [img] and [seg] changes, and
    neither do the network and the options. *)
Theorem set_input_missing_key (input : gmap string pyval) (s : state) :
  (input !! "img" = None → set_input input s = (Err (KeyError "img"), s))
  ∧ (∀ img, input !! "img" = Some (PyTensor img) → input !! "seg" = None →
       set_input input s = (Err (KeyError "seg"), set_tensors (insert "img" img) s))
  ∧ (∀ img seg, input !! "img" = Some (PyTensor img) →
       input !! "seg" = Some (PyTensor seg) → input !! "img_paths" = None →
       set_input input s =
         (Err (KeyError "img_paths"),
          set_tensors (λ m, <["seg" := tdiv (tadd seg 1) 2]> (<["img" := img]> m)) s))
  ∧ (∀ name, name ≠ "img" → name ≠ "seg" →
       tensors (set_input input s).2 !! name = tensors s !! name)
  ∧ netUnet (set_input input s).2 = netUnet s
  ∧ opt (set_input input s).2 = opt s.
Proof.
  split; [|split; [|split]].
  - intros Hi. unfold set_input. munfold. by rewrite Hi.
  - intros img Hi Hs. unfold set_input, setattr. munfold. by rewrite Hi, Hs.
  - intros img seg Hi Hs Hp.
    unfold set_input, setattr, attr, set_tensors. munfold.
    rewrite Hi, Hs, Hp. ustep. by rewrite insert_insert_eq.
  - unfold set_input, setattr, attr, set_tensors, set_image_paths. munfold.
    destruct (input !! "img") as [[img|?]|]; [|by repeat split..].
    destruct (input !! "seg") as [[seg|?]|]; ustep;
      [|repeat split; try done; intros name Hi Hs; by rewrite lookup_insert_ne..].
    destruct (input !! "img_paths"); ustep; repeat split; try done;
      intros name Hi Hs; by rewrite !lookup_insert_ne.
Qed.

(** X5.  [forward] is all or nothing: it returns exactly when the network
    is installed, an image is set and the network accepts the image, and
    then the only change is the new [output]; otherwise it raises and the
    object is as it was.  Without network the exception is the
    [AttributeError] for [netUnet], with network and without image the one
    for [img]. *)
Theorem forward_stores_output_or_nothing (s : state) :
  match forward s with
  | (Ok _, s') =>
      ∃ net img out,
        netUnet s = Some net ∧ tensors s !! "img" = Some img
        ∧ unet_fn (m_arch (dp_module net)) (m_weights (dp_module net)) img = Ok out
        ∧ s' = set_tensors (insert "output" out) s
  | (Err e, s') =>
      s' = s
      ∧ (netUnet s = None → e = AttributeError "netUnet")
      ∧ (is_Some (netUnet s) → tensors s !! "img" = None → e = AttributeError "img")
  end.
Proof.
  unfold forward, attr, setattr. munfold.
  destruct (netUnet s) as [net|] eqn:Hn.
  2:{ split; [done|]. split; [done|]. by intros [? ?]. }
  destruct (tensors s !! "img") as [img|] eqn:Hi.
  2:{ split; [done|]. split; [done|]. done. }
  destruct (unet_fn _ _ img) as [out|e] eqn:Hf.
  - by exists net, img, out.
  - split; [done|]. split; [done|]. done.
Qed.

Lemma tindex_in_range (l : list tensor) (i : Z) :
  (0 ≤ i < Z.of_nat (length l))%Z → is_ok (tindex (Dim l) i) = true.
Proof.
  intros Hi. unfold tindex.
  destruct (i <? 0)%Z eqn:Hneg; [lia|].
  destruct ((0 <=? i)%Z && (i <? Z.of_nat (length l))%Z)%bool eqn:Hr.
  - destruct (l !! Z.to_nat i) eqn:Hl; [done|].
    apply lookup_ge_None in Hl. lia.
  - apply andb_false_iff in Hr as [Hr|Hr]; lia.
Qed.

Lemma tindex_beyond (l : list tensor) (i : Z) :
  (Z.of_nat (length l) ≤ i)%Z → tindex (Dim l) i = Err IndexError.
Proof.
  intros Hi. unfold tindex.
  destruct (i <? 0)%Z eqn:Hneg; [lia|].
  destruct ((0 <=? i)%Z && (i <? Z.of_nat (length l))%Z)%bool eqn:Hr; [|done].
  apply andb_true_iff in Hr as [_ Hr]. lia.
Qed.

(** X6.  [compute_visuals] draws its index from [0 .. opt.batch_size - 1],
    not from the size of the batch at hand.  With [opt.batch_size] at most 0
    every draw raises [ValueError]; with [opt.batch_size] within the sizes of
    the image, mask and output batches every draw succeeds; with
    [opt.batch_size] above the size of the image batch some draw raises
    [IndexError].  In both failures the object is as it was. *)
Theorem compute_visuals_index (s : state) (li ls lo : list tensor) :
  tensors s !! "img" = Some (Dim li) →
  tensors s !! "seg" = Some (Dim ls) →
  tensors s !! "output" = Some (Dim lo) →
  let b := batch_size (opt s) in
  ((b ≤ 0)%Z → ∀ u, compute_visuals u s = (Err ValueError, s))
  ∧ ((0 < b)%Z → (b ≤ Z.of_nat (length li))%Z → (b ≤ Z.of_nat (length ls))%Z →
     (b ≤ Z.of_nat (length lo))%Z → ∀ u, (compute_visuals u s).1 = Ok tt)
  ∧ ((0 < b)%Z → (Z.of_nat (length li) < b)%Z →
     ∃ u, compute_visuals u s = (Err IndexError, s)).
Proof.
  intros Hi Hs Ho b. split; [|split].
  - intros Hb u. unfold compute_visuals. munfold. unfold randint. fold b.
    destruct (b - 1 <? 0)%Z eqn:Hlt; [done|lia].
  - intros Hb Hli Hls Hlo u.
    destruct (randint 0 (b - 1) u) as [idx|] eqn:Hr.
    2:{ unfold randint in Hr. destruct (b - 1 <? 0)%Z eqn:Hlt; [lia|done]. }
    pose proof (randint_range _ _ _ _ Hr) as Hidx.
    destruct (tindex (Dim li) idx) as [x|] eqn:Hx.
    2:{ pose proof (tindex_in_range li idx) as Hok. rewrite Hx in Hok.
        discriminate Hok. lia. }
    destruct (tindex (Dim ls) idx) as [y|] eqn:Hy.
    2:{ pose proof (tindex_in_range ls idx) as Hok. rewrite Hy in Hok.
        discriminate Hok. lia. }
    destruct (tindex (Dim lo) idx) as [z|] eqn:Hz.
    2:{ pose proof (tindex_in_range lo idx) as Hok. rewrite Hz in Hok.
        discriminate Hok. lia. }
    by rewrite (compute_visuals_run u s (Dim li) (Dim ls) (Dim lo) idx x y z).
  - intros Hb Hli.
    pose proof (randint_onto 0 (b - 1) (Z.of_nat (length li))) as Hu.
    exists (Z.to_nat (Z.of_nat (length li) - 0)).
    unfold compute_visuals, attr, setattr. munfold. fold b.
    rewrite Hu by lia. rewrite Hi.
    by rewrite tindex_beyond by lia.
Qed.
End UnetProperties.

(** The properties of the U-Net model on explicit inputs. *)

Lemma unet_type_selects_network_witness :
  UnetModel.get_network_by_name (Examples.unet_config "unet_4plus" [0%Z]) =
    (Err (NotImplementedError "Unet model name [unet_4plus] is not recognized"),
     Examples.unet_config "unet_4plus" [0%Z])
  ∧ UnetModel.constructed
      (UnetModel.get_network_by_name (Examples.unet_config "unet_3plus" [0%Z])).2 =
    [UnetModel.new_module UnetModel.UNet_3Plus 3 1].
Proof.
  split.
  - refine (proj1 (proj1 (unet_type_selects_network
                            (Examples.unet_config "unet_4plus" [0%Z])) _)).
    unfold UnetModel.recognized. cbn [UnetModel.opt UnetModel.unet_type Examples.unet_config].
    intros Hin. repeat (apply elem_of_cons in Hin as [Hin|Hin]; [discriminate Hin|]).
    by apply elem_of_nil in Hin.
  - refine (proj1 (proj2 (proj2 (unet_type_selects_network
                                   (Examples.unet_config "unet_3plus" [0%Z])))
                     UnetModel.UNet_3Plus _)).
    reflexivity.
Defined.

Lemma mask_rescaling_round_trip_witness :
  let r := (UnetModel.set_input Examples.soft_sample
              ≫= λ _, UnetModel.compute_visuals 0) Examples.unet_ready in
  r.1 = Ok tt
  ∧ ∃ t, UnetModel.tensors r.2 !! "true_seg" = Some (unsqueeze0 t)
         ∧ Toy.entries (Dim [Dim [Dim [Scalar Examples.tenth; Scalar (- 1)]]])
             = [13421773 # 134217728; -1]%Q
         ∧ Toy.entries t = [838861 # 8388608; -1]%Q.
Proof.
  intros r.
  destruct (proj2 (proj2 (proj2 mask_rescaling_round_trip)) Examples.soft_sample
              Examples.unet_ready 0%nat
              Examples.imgs Examples.soft_masks (PyPaths ["a.png"; "b.png"])
              (tmap (λ x, x * 1) Examples.imgs) 0%Z
              (Dim [Dim [Dim [Scalar Toy.half; Scalar (- 1)]]])
              (Dim [Dim [Dim [Scalar Examples.tenth; Scalar (- 1)]]])
              (tmap (λ x, x * 1) (Dim [Dim [Dim [Scalar Toy.half; Scalar (- 1)]]]))
              eq_refl eq_refl eq_refl eq_refl eq_refl eq_refl eq_refl eq_refl)
    as [Hok Hseg].
  split; [exact Hok|]. eexists. split; [exact Hseg|].
  split; vm_compute; reflexivity.
Defined.

(** C9, as the claim words it: the exposed image would be rescaled like the
    masks.  On the first sample of the example batch the image entry [1/2]
    is exposed as [1/2], not as [1/2 * 2 - 1]. *)
Lemma image_is_not_rescaled :
  ¬ UnetModel.all_three_rescaled 0 Examples.unet_ready.
Proof.
  intros Hc.
  destruct (Hc Examples.imgs (tdiv (tadd Examples.masks 1) 2)
              (tmap (λ x, x * 1) Examples.imgs) 0%Z
              (Dim [Dim [Dim [Scalar Toy.half; Scalar (- 1)]]])
              (tdiv (tadd (Dim [Dim [Dim [Scalar (- 1); Scalar 1]]]) 1) 2)
              (tmap (λ x, x * 1) (Dim [Dim [Dim [Scalar Toy.half; Scalar (- 1)]]]))
              eq_refl eq_refl eq_refl eq_refl eq_refl eq_refl eq_refl) as [Himg _].
  vm_compute in Himg. discriminate Himg.
Qed.

Lemma compute_visuals_exposes_sample_witness :
  (0 ≤ 1 ≤ 2 - 1)%Z
  ∧ UnetModel.compute_visuals 1 Examples.unet_ready =
      (Ok tt,
       UnetModel.set_tensors
         (λ m, <["pred_seg" := unsqueeze0 (tsub (tmul (tmap (λ x, x * 1)
                                   (Dim [Dim [Dim [Scalar 1; Scalar 0]]])) 2) 1)]>
                 (<["true_seg" := unsqueeze0 (tsub (tmul (tdiv (tadd
                                   (Dim [Dim [Dim [Scalar 1; Scalar 1]]]) 1) 2) 2) 1)]>
                    (<["input_image" := unsqueeze0 (Dim [Dim [Dim [Scalar 1; Scalar 0]]])]> m)))
         Examples.unet_ready).
Proof.
  refine (compute_visuals_exposes_sample 1 Examples.unet_ready
            Examples.imgs (tdiv (tadd Examples.masks 1) 2)
            (tmap (λ x, x * 1) Examples.imgs) 1%Z _ _ _ _ _ _ _ _ _ _);
    reflexivity.
Defined.

(** C10, as the claim words it: every configuration without a GPU would end
    in the unbound local.  With the unrecognized name [unet_4plus] the
    exception is the [NotImplementedError] of the dispatch. *)
Lemma unrecognized_name_without_gpu :
  ¬ UnetModel.unbound_local_without_gpu (Examples.unet_config "unet_4plus" []).
Proof.
  intros Hc. specialize (Hc eq_refl). vm_compute in Hc. discriminate Hc.
Qed.

Lemma no_gpu_no_network_witness :
  is_ok (UnetModel.get_network_by_name (Examples.unet_config "unet" [])).1 = false
  ∧ is_ok (UnetModel.__init__ (Examples.unet_config "unet" [])).1 = false
  ∧ UnetModel.netUnet (UnetModel.__init__ (Examples.unet_config "unet" [])).2 = None
  ∧ (UnetModel.get_network_by_name (Examples.unet_config "unet" [])).1 =
      Err (UnboundLocalError "net")
  ∧ (UnetModel.__init__ (Examples.unet_config "unet" [])).1 =
      Err (UnboundLocalError "net").
Proof.
  destruct (no_gpu_no_network (Examples.unet_config "unet" []) eq_refl)
    as (H1 & H2 & H3 & H4).
  repeat split; try assumption; apply H4; unfold UnetModel.recognized;
    cbn [UnetModel.opt UnetModel.unet_type Examples.unet_config];
    apply list_elem_of_here.
Defined.

Lemma init_returns_iff_witness :
  (UnetModel.__init__ (Examples.unet_config "unet" [0%Z])).1 = Ok tt.
Proof.
  apply (init_returns_iff (Examples.unet_config "unet" [0%Z])).
  - intros _. reflexivity.
  - split; [apply list_elem_of_here|]. split; [done|]. split; [reflexivity|].
    intros _. apply list_elem_of_further, list_elem_of_here.
Defined.

Lemma loss_type_selects_criterion_witness :
  let r := UnetModel.__init__ (Examples.unet_config "unet" [0%Z]) in
  r.1 = Ok tt
  ∧ UnetModel.train_criterion r.2 = Some UnetModel.IOU
  ∧ UnetModel.optimizer r.2 =
      Some {| UnetModel.lr := Q2Qc (1 # 1000); UnetModel.momentum := Q2Qc (9 # 10) |}.
Proof.
  refine (proj1 (loss_type_selects_criterion (Examples.unet_config "unet" [0%Z])
                   UnetModel.UNet 0%Z [] eq_refl eq_refl eq_refl eq_refl eq_refl)
            UnetModel.IOU _).
  apply list_elem_of_further, list_elem_of_here.
Defined.

Lemma compute_visuals_index_witness :
  (UnetModel.compute_visuals 5 Examples.unet_ready).1 = Ok tt.
Proof.
  edestruct (compute_visuals_index Examples.unet_ready) as (_ & Hok & _);
    [reflexivity..|].
  apply Hok; vm_compute; done.
Defined.

(** ** The Perceptual-CycleGAN model *)

Section CycleGANProperties.
Import PerceptualCycleGANModel.
Context `{Torch}.

Ltac cg_simpl :=
  repeat (progress (
    cbn [opt batch_size grad_enabled nets optimizer_G optimizer_D fake_A_pool
         fake_B_pool eval_net tensors losses fst snd];
    map_lookups)).

Ltac cg_unfold :=
  unfold netattr, attr, lossattr, setattr, setloss, call, torch_cat,
    criterionGAN, criterionCycle, criterionIdt, loss_mul, loss_add,
    set_tensors, set_losses;
  munfold.

(** Rewrite with every equation of the context that applies. *)
Ltac use_hyps :=
  repeat match goal with
         | Heq : ?l = _ |- context [?l] => rewrite Heq
         end.

Ltac cg_run := repeat (progress (cg_simpl; use_hyps)).


(** One step of a run: the first computation returns, the rest goes on. *)
Lemma step_ok {A B} (m : M state A) (k : A → M state B) s a s1 r :
  m s = (Ok a, s1) → k a s1 = r → (m ≫= k) s = r.
Proof. intros Hm <-. by apply bind_ok. Qed.

Lemma step_assoc {A B C} (m : M state A) (k1 : A → M state B) (k2 : B → M state C) s r :
  (m ≫= λ a, k1 a ≫= k2) s = r → ((m ≫= k1) ≫= k2) s = r.
Proof.
  intros <-. rewrite !run_bind. destruct (m s) as [[a|e] s1]; [|done].
  by rewrite run_bind.
Qed.

Lemma gets_run {A} (f : state → A) s : gets f s = (Ok (f s), s).
Proof. reflexivity. Qed.

Lemma netattr_run n net s : nets s !! n = Some net → netattr n s = (Ok n, s).
Proof. intros Hn. unfold netattr, getattr. by rewrite Hn. Qed.

Lemma attr_run name t s : tensors s !! name = Some t → attr name s = (Ok t, s).
Proof. intros Ht. by apply getattr_ok. Qed.

Lemma lossattr_run name l s : losses s !! name = Some l → lossattr name s = (Ok l, s).
Proof. intros Hl. by apply getattr_ok. Qed.

Lemma setattr_run name t s : setattr name t s = (Ok tt, set_tensors (insert name t) s).
Proof. reflexivity. Qed.

Lemma setloss_run name l s : setloss name l s = (Ok tt, set_losses (insert name l) s).
Proof. reflexivity. Qed.

Lemma torch_cat_run a b d x ge s :
  cat d (data a) (data b) = Ok x →
  grad_enabled s = ge →
  torch_cat a b d s =
    (Ok {| data := x; tgraph := recorded ge (GCat d (tgraph a) (tgraph b)) x |}, s).
Proof. intros Hc <-. unfold torch_cat, cat_t. munfold. by rewrite Hc. Qed.

Lemma call_run n net x d ge s :
  nets s !! n = Some net →
  net_fn n (parameters net) (data x) = Ok d →
  grad_enabled s = ge →
  call n x s =
    (Ok {| data := d;
           tgraph := recorded ge (GNet n (parameters net) (requires_grad net) (tgraph x)) d |},
     s).
Proof. intros Hn Hd <-. unfold call, apply_net. munfold. by rewrite Hn, Hd. Qed.

Lemma criterionGAN_run pred target v ge s :
  gan_fn (data pred) target = Ok v →
  grad_enabled s = ge →
  criterionGAN pred target s =
    (Ok {| lval := v; lgraph := recorded ge (GGan (tgraph pred) target) (Scalar v) |}, s).
Proof. intros Hv <-. unfold criterionGAN, gan_loss. munfold. by rewrite Hv. Qed.

Lemma criterionCycle_run a b v ge s :
  l1_fn (data a) (data b) = Ok v →
  grad_enabled s = ge →
  criterionCycle a b s =
    (Ok {| lval := v; lgraph := recorded ge (GL1 (tgraph a) (tgraph b)) (Scalar v) |}, s).
Proof. intros Hv <-. unfold criterionCycle, l1_loss. munfold. by rewrite Hv. Qed.

Lemma criterionIdt_run a b v ge s :
  l1_fn (data a) (data b) = Ok v →
  grad_enabled s = ge →
  criterionIdt a b s =
    (Ok {| lval := v; lgraph := recorded ge (GL1 (tgraph a) (tgraph b)) (Scalar v) |}, s).
Proof. intros Hv <-. unfold criterionIdt, l1_loss. munfold. by rewrite Hv. Qed.

Lemma loss_mul_run l q ge s :
  grad_enabled s = ge → loss_mul l q s = (Ok (mul_l ge l q), s).
Proof. by intros <-. Qed.

Lemma loss_add_run a b ge s :
  grad_enabled s = ge → loss_add a b s = (Ok (add_l ge a b), s).
Proof. by intros <-. Qed.

Lemma backward_run l s :
  tracked (lgraph l) = true →
  backward l s =
    (Ok tt, set_nets (map_imap (λ n net, Some (accumulate (lgraph l) n net))) s).
Proof. intros Ht. unfold backward. by rewrite Ht. Qed.

Lemma tracked_true (g : graph params) : leaves g ≠ ∅ → tracked g = true.
Proof. intros Hg. unfold tracked. by apply bool_decide_eq_true_2. Qed.

Lemma tracked_leaves (g : graph params) : tracked g = true → leaves g ≠ ∅.
Proof. unfold tracked. by intros Hg%bool_decide_eq_true_1. Qed.

Ltac cg_simpl ::=
  repeat (progress (
    cbn [opt batch_size grad_enabled nets optimizer_G optimizer_D fake_A_pool
         fake_B_pool eval_net tensors losses fst snd
         set_tensors set_losses set_nets set_grad_enabled set_optimizer_G
         set_optimizer_D set_fake_A_pool set_fake_B_pool
         data tgraph lval lgraph parameters grad requires_grad recorded
         mul_l add_l detach leaf number
         lambda_A lambda_B lambda_identity];
    map_lookups)).

(** Discharge the premise of a step from the context. *)
Ltac cg_side :=
  cg_simpl;
  repeat match goal with
         | He : grad_enabled _ = _ |- _ => rewrite He
         end;
  cg_simpl;
  first [eassumption | reflexivity].

Ltac cg_op :=
  first [ apply gets_run
        | apply setattr_run
        | apply setloss_run
        | eapply loss_mul_run; cg_side
        | eapply loss_add_run; cg_side
        | eapply netattr_run; cg_side
        | eapply attr_run; cg_side
        | eapply lossattr_run; cg_side
        | eapply torch_cat_run; cg_side
        | eapply call_run; cg_side
        | eapply criterionGAN_run; cg_side
        | eapply criterionCycle_run; cg_side
        | eapply criterionIdt_run; cg_side ].

Ltac cg_step :=
  lazymatch goal with
  | |- mbind _ (mbind _ _) _ = _ => eapply step_assoc; cbv beta
  | |- mbind _ _ _ = _ => eapply step_ok; [cg_op | cbv beta]
  end.

(** Read off the successful steps of a computation on values. *)
Ltac inv_result :=
  repeat match goal with
         | Hr : match ?x with Ok _ => _ | Err _ => _ end = Ok _ |- _ =>
             destruct x eqn:?; [|discriminate Hr]
         | Hr : match ?x with Some _ => _ | None => _ end = Ok _ |- _ =>
             destruct x eqn:?; [|discriminate Hr]
         | Hr : Ok _ = Ok _ |- _ => injection Hr as Hr
         | Hr : (_, _) = (_, _) |- _ => injection Hr as ? ?
         | Hr : Some _ = Some _ |- _ => injection Hr as Hr
         end;
  subst.


(** ** What the methods leave unchanged *)

Lemma frame_netattr {X} (f : state → X) n : frame f (netattr n).
Proof. intros s. unfold netattr, getattr. by destruct (nets s !! n). Qed.

Lemma frame_attr {X} (f : state → X) name : frame f (attr name).
Proof. apply frame_getattr. Qed.

Lemma frame_lossattr {X} (f : state → X) name : frame f (lossattr name).
Proof. apply frame_getattr. Qed.

Lemma frame_torch_cat {X} (f : state → X) a b d : frame f (torch_cat a b d).
Proof. intros s. reflexivity. Qed.

Lemma frame_call {X} (f : state → X) n x : frame f (call n x).
Proof. intros s. unfold call. munfold. by destruct (nets s !! n). Qed.

Lemma frame_criterionGAN {X} (f : state → X) p b : frame f (criterionGAN p b).
Proof. intros s. reflexivity. Qed.

Lemma frame_criterionCycle {X} (f : state → X) a b : frame f (criterionCycle a b).
Proof. intros s. reflexivity. Qed.

Lemma frame_criterionIdt {X} (f : state → X) a b : frame f (criterionIdt a b).
Proof. intros s. reflexivity. Qed.

Lemma frame_loss_mul {X} (f : state → X) l q : frame f (loss_mul l q).
Proof. intros s. reflexivity. Qed.

Lemma frame_loss_add {X} (f : state → X) a b : frame f (loss_add a b).
Proof. intros s. reflexivity. Qed.

Lemma frame_torch_max {X} (f : state → X) t : frame f (torch_max t).
Proof. intros s. unfold torch_max. munfold. by destruct (max_dim1 _) as [[]|]. Qed.

Lemma frame_no_grad {A X} (f : state → X) (body : M state A) :
  (∀ b s, f (set_grad_enabled b s) = f s) → frame f body → frame f (no_grad body).
Proof.
  intros Hf Hb s. unfold no_grad.
  specialize (Hb (set_grad_enabled false s)).
  destruct (body _) as [r s']. cbn [snd] in *. by rewrite Hf, Hb, Hf.
Qed.

(** Splits a computation into its steps; what remains are the steps that
    write to the state. *)
Ltac frame_pure :=
  first [ apply frame_ret | apply frame_raise | apply frame_gets | apply frame_lift
        | apply frame_getattr | apply frame_netattr | apply frame_attr
        | apply frame_lossattr | apply frame_torch_cat | apply frame_call
        | apply frame_criterionGAN | apply frame_criterionCycle
        | apply frame_criterionIdt | apply frame_loss_mul | apply frame_loss_add
        | apply frame_torch_max ].

Ltac frame_steps :=
  repeat first [ apply frame_bind; [|intros ?] | frame_pure ].

(** Writes to tensors, losses, pools and optimizer states leave the
    networks alone; [backward], [zero_grad] and [set_requires_grad] leave
    the parameter values alone. *)
Lemma frame_nets_modify {X} (f : gmap net_id network → X) (g : state → state) :
  (∀ s, nets (g s) = nets s) → frame (λ s, f (nets s)) (modify g).
Proof. intros Hg s. cbn. by rewrite Hg. Qed.

Lemma accumulate_parameters g n net : parameters (accumulate g n net) = parameters net.
Proof. unfold accumulate. by case_decide. Qed.

Lemma accumulate_requires_grad g n net :
  requires_grad (accumulate g n net) = requires_grad net.
Proof. unfold accumulate. by case_decide. Qed.

Lemma accumulate_other g n net : n ∉ leaves g → accumulate g n net = net.
Proof. intros Hn. unfold accumulate. by rewrite decide_False. Qed.

Lemma lookup_foldr_alter (h : network → network) (ns : list net_id)
    (m : gmap net_id network) (n : net_id) :
  ∃ k, foldr (alter h) m ns !! n = Nat.iter k h <$> m !! n.
Proof.
  induction ns as [|a ns [k IH]]; cbn [foldr].
  - exists O. cbn. by destruct (m !! n).
  - destruct (decide (a = n)) as [->|Hne].
    + exists (S k). rewrite lookup_alter_eq, IH. cbn. by destruct (m !! n).
    + exists k. by rewrite lookup_alter_ne.
Qed.

Lemma frame_params_backward n l : frame (params_of n) (backward l).
Proof.
  intros s. unfold backward. destruct (tracked _); [|done].
  unfold params_of. cbn. rewrite map_lookup_imap.
  destruct (nets s !! n); [|done]. cbn. by rewrite accumulate_parameters.
Qed.

Lemma frame_flag_backward n l : frame (requires_grad_of n) (backward l).
Proof.
  intros s. unfold backward. destruct (tracked _); [|done].
  unfold requires_grad_of. cbn. rewrite map_lookup_imap.
  destruct (nets s !! n); [|done]. cbn. by rewrite accumulate_requires_grad.
Qed.

Lemma frame_net_backward n l :
  n ∉ leaves (lgraph l) → frame (λ s, nets s !! n) (backward l).
Proof.
  intros Hn s. unfold backward. destruct (tracked _); [|done].
  cbn. rewrite map_lookup_imap.
  destruct (nets s !! n); [|done]. cbn. by rewrite accumulate_other.
Qed.

Lemma iter_clear_grad_parameters k net :
  parameters (Nat.iter k clear_grad net) = parameters net.
Proof. induction k; [done|]. cbn. exact IHk. Qed.

Lemma iter_clear_grad_requires_grad k net :
  requires_grad (Nat.iter k clear_grad net) = requires_grad net.
Proof. induction k; [done|]. cbn. exact IHk. Qed.

Lemma iter_with_requires_grad_parameters k b net :
  parameters (Nat.iter k (with_requires_grad b) net) = parameters net.
Proof. induction k; [done|]. cbn. exact IHk. Qed.

Lemma frame_params_zero_grad n ids : frame (params_of n) (zero_grad ids).
Proof.
  intros s. unfold zero_grad, params_of. cbn.
  destruct (lookup_foldr_alter clear_grad ids (nets s) n) as [k ->].
  destruct (nets s !! n); [|done]. cbn. by rewrite iter_clear_grad_parameters.
Qed.

Lemma frame_flag_zero_grad n ids : frame (requires_grad_of n) (zero_grad ids).
Proof.
  intros s. unfold zero_grad, requires_grad_of. cbn.
  destruct (lookup_foldr_alter clear_grad ids (nets s) n) as [k ->].
  destruct (nets s !! n); [|done]. cbn. by rewrite iter_clear_grad_requires_grad.
Qed.

Lemma frame_params_set_requires_grad n ns b :
  frame (params_of n) (set_requires_grad ns b).
Proof.
  intros s. unfold set_requires_grad, params_of. cbn.
  destruct (lookup_foldr_alter (with_requires_grad b) ns (nets s) n) as [k ->].
  destruct (nets s !! n); [|done]. cbn. by rewrite iter_with_requires_grad_parameters.
Qed.

(** An optimizer step writes to the networks it was built from only. *)
Lemma step_one_other acc a n :
  a ≠ n → (step_one acc a).2 !! n = acc.2 !! n.
Proof.
  intros Hne. unfold step_one.
  destruct (acc.2 !! a) as [net|]; [|done].
  destruct (grad net); [|done]. cbn [snd]. by rewrite lookup_insert_ne.
Qed.

Lemma step_one_requires_grad acc a n :
  requires_grad <$> (step_one acc a).2 !! n = requires_grad <$> acc.2 !! n.
Proof.
  unfold step_one.
  destruct (acc.2 !! a) as [net|] eqn:Ha; [|done].
  destruct (grad net); [|done]. cbn [snd].
  destruct (decide (a = n)) as [->|Hne].
  - by rewrite lookup_insert_eq, Ha.
  - by rewrite lookup_insert_ne.
Qed.

Lemma foldl_step_one_other ids acc n :
  n ∉ ids → (foldl step_one acc ids).2 !! n = acc.2 !! n.
Proof.
  revert acc. induction ids as [|a ids IH]; intros acc Hn; [done|].
  apply not_elem_of_cons in Hn as [Hne Hn]. cbn [foldl].
  rewrite IH by done. by apply step_one_other.
Qed.

Lemma foldl_step_one_requires_grad ids acc n :
  requires_grad <$> (foldl step_one acc ids).2 !! n = requires_grad <$> acc.2 !! n.
Proof.
  revert acc. induction ids as [|a ids IH]; intros acc; [done|].
  cbn [foldl]. rewrite IH. apply step_one_requires_grad.
Qed.

Lemma step_other ids st m n :
  n ∉ ids → (step ids st m).2 !! n = m !! n.
Proof. intros Hn. unfold step. by rewrite foldl_step_one_other. Qed.

Lemma step_requires_grad ids st m n :
  requires_grad <$> (step ids st m).2 !! n = requires_grad <$> m !! n.
Proof. unfold step. by rewrite foldl_step_one_requires_grad. Qed.

Lemma frame_net_optimizer_G_step n :
  n ∉ optimizer_G_params → frame (λ s, nets s !! n) optimizer_G_step.
Proof.
  intros Hn s. unfold optimizer_G_step. munfold.
  destruct (optimizer_G s); [|done]. cbn -[step]. by apply step_other.
Qed.

Lemma frame_net_optimizer_D_step n :
  n ∉ optimizer_D_params → frame (λ s, nets s !! n) optimizer_D_step.
Proof.
  intros Hn s. unfold optimizer_D_step. munfold.
  destruct (optimizer_D s); [|done]. cbn -[step]. by apply step_other.
Qed.

Lemma frame_flag_optimizer_G_step n : frame (requires_grad_of n) optimizer_G_step.
Proof.
  intros s. unfold optimizer_G_step, requires_grad_of. munfold.
  destruct (optimizer_G s); [|done]. cbn -[step]. by apply step_requires_grad.
Qed.

Lemma frame_flag_optimizer_D_step n : frame (requires_grad_of n) optimizer_D_step.
Proof.
  intros s. unfold optimizer_D_step, requires_grad_of. munfold.
  destruct (optimizer_D s); [|done]. cbn -[step]. by apply step_requires_grad.
Qed.

Lemma frame_compose {A X Y} (f : state → X) (g : X → Y) (m : M state A) :
  frame f m → frame (λ s, g (f s)) m.
Proof. intros Hf s. by rewrite Hf. Qed.

Lemma disjoint_optimizers n : n ∈ optimizer_D_params → n ∉ optimizer_G_params.
Proof.
  unfold optimizer_D_params, optimizer_G_params. intros Hd Hg.
  apply elem_of_cons in Hd as [->|Hd%list_elem_of_singleton]; [|subst n];
    repeat (apply elem_of_cons in Hg as [?|Hg]; [done|]);
    by apply elem_of_nil in Hg.
Qed.

Lemma frame_params_optimizer_G_step d :
  d ∈ optimizer_D_params → frame (params_of d) optimizer_G_step.
Proof.
  intros Hd. apply (frame_compose (λ s, nets s !! d) (fmap parameters)).
  by apply frame_net_optimizer_G_step, disjoint_optimizers.
Qed.

Lemma frame_params_optimizer_D_step g :
  g ∈ optimizer_G_params → frame (params_of g) optimizer_D_step.
Proof.
  intros Hg. apply (frame_compose (λ s, nets s !! g) (fmap parameters)).
  apply frame_net_optimizer_D_step. intros Hd.
  by apply (disjoint_optimizers g).
Qed.

(** The steps that write to the state, each with what it leaves alone:
    [backward], [zero_grad] and [set_requires_grad] the parameter values;
    [backward], [zero_grad] and the optimizers the [requires_grad] flags;
    an optimizer the networks of the other optimizer; writes to tensors,
    losses, pools and optimizer states all networks. *)
Ltac frame_write :=
  first [ apply frame_params_backward
        | apply frame_params_zero_grad
        | apply frame_params_set_requires_grad
        | apply frame_flag_backward
        | apply frame_flag_zero_grad
        | apply frame_flag_optimizer_G_step
        | apply frame_flag_optimizer_D_step
        | apply frame_params_optimizer_G_step; assumption
        | apply frame_params_optimizer_D_step; assumption
        | (apply frame_modify; intros ?; reflexivity) ].

Ltac frame_all :=
  repeat first [ frame_write | frame_pure | case_decide
               | progress unfold identity_losses
               | apply frame_bind; [|intros ?] ].

Lemma frame_params_generator_step d :
  d ∈ optimizer_D_params → frame (params_of d) generator_step.
Proof. intros Hd. frame_all. Qed.

Lemma frame_params_discriminator_step g :
  g ∈ optimizer_G_params → frame (params_of g) discriminator_step.
Proof. intros Hg. frame_all. Qed.

Lemma frame_flag_updates_G d :
  frame (requires_grad_of d)
    (optimizer_G_zero_grad ≫= λ _, backward_G ≫= λ _, optimizer_G_step).
Proof. frame_all. Qed.

Lemma frame_flag_updates_D d :
  frame (requires_grad_of d)
    (optimizer_D_zero_grad ≫= λ _, backward_D_A ≫= λ _,
     backward_D_B ≫= λ _, optimizer_D_step).
Proof. frame_all. Qed.

(** The flags of the discriminators right after
    [set_requires_grad([netD_A, netD_B], flag)]. *)
Lemma set_requires_grad_discriminators (s : state) (b : bool) (d : net_id) :
  d ∈ optimizer_D_params →
  is_Some (nets s !! D_A) → is_Some (nets s !! D_B) →
  requires_grad_of d (set_requires_grad [D_A; D_B] b s).2 = Some b.
Proof.
  intros Hd [na Ha] [nb Hb]. unfold requires_grad_of, set_requires_grad. cbn.
  apply elem_of_cons in Hd as [->|Hd%list_elem_of_singleton]; [|subst d].
  - by rewrite lookup_alter_eq, lookup_alter_ne, Ha.
  - by rewrite lookup_alter_ne, lookup_alter_eq, Hb.
Qed.


Lemma half_is_division (x : Qc) : x * Q2Qc (1 # 2) = x / 2.
Proof. unfold Qcdiv. by f_equal. Qed.

(** Like [frame_bind], with something known of the value the first
    computation returns. *)
Lemma frame_bind_post {A B X} (f : state → X) (Q : A → Prop)
    (m : M state A) (k : A → M state B) :
  frame f m →
  (∀ s a s', m s = (Ok a, s') → Q a) →
  (∀ a, Q a → frame f (k a)) →
  frame f (m ≫= k).
Proof.
  intros Hm HQ Hk s. rewrite run_bind. specialize (Hm s). specialize (HQ s).
  destruct (m s) as [[a|e] s1]; cbn [snd] in *; [|done].
  rewrite Hk; [done|]. by eapply HQ.
Qed.

(** The histories the operations of a loss computation record reach no
    more parameters than their arguments and the network they call. *)
Lemma recorded_leaves (ge : bool) (node : graph params) (dat : tensor) :
  leaves (recorded ge node dat) ⊆ leaves node.
Proof. destruct ge; cbn; set_solver. Qed.

Lemma call_leaves n x s y s' :
  call n x s = (Ok y, s') → leaves (tgraph y) ⊆ {[n]} ∪ leaves (tgraph x).
Proof.
  unfold call, apply_net. munfold.
  destruct (nets s !! n) as [net|]; [|done].
  destruct (net_fn _ _ _); [|done]. intros [= <- _]. cbn [tgraph].
  etrans; [apply recorded_leaves|]. cbn [leaves]. destruct (requires_grad net); set_solver.
Qed.

Lemma criterionGAN_leaves p b s l s' :
  criterionGAN p b s = (Ok l, s') → leaves (lgraph l) ⊆ leaves (tgraph p).
Proof.
  unfold criterionGAN, gan_loss. munfold.
  destruct (gan_fn _ _); [|done]. intros [= <- _]. cbn [lgraph].
  etrans; [apply recorded_leaves|]. done.
Qed.

Lemma loss_add_leaves a b s l s' :
  loss_add a b s = (Ok l, s') → leaves (lgraph l) ⊆ leaves (lgraph a) ∪ leaves (lgraph b).
Proof.
  unfold loss_add, add_l. munfold. intros [= <- _]. cbn [lgraph].
  etrans; [apply recorded_leaves|]. done.
Qed.

Lemma loss_mul_leaves a q s l s' :
  loss_mul a q s = (Ok l, s') → leaves (lgraph l) ⊆ leaves (lgraph a).
Proof.
  unfold loss_mul, mul_l. munfold. intros [= <- _]. cbn [lgraph].
  etrans; [apply recorded_leaves|]. cbn [leaves]. set_solver.
Qed.

(** [backward_D_basic] writes to the discriminator it is given and to what
    the history of [real] reaches, and to no other network, whatever the
    history of [fake] and whether it returns or raises. *)
Lemma frame_net_backward_D_basic n netD real fake :
  n ≠ netD → n ∉ leaves (tgraph real) →
  frame (λ s, nets s !! n) (backward_D_basic netD real fake).
Proof.
  intros Hne Hreal. unfold backward_D_basic.
  eapply (frame_bind_post _ (λ y, n ∉ leaves (tgraph y))); [frame_pure| |intros pr Hpr].
  { intros s y s' Hc%call_leaves. set_solver. }
  eapply (frame_bind_post _ (λ l, n ∉ leaves (lgraph l))); [frame_pure| |intros lr Hlr].
  { intros s y s' Hc%criterionGAN_leaves. set_solver. }
  eapply (frame_bind_post _ (λ y, n ∉ leaves (tgraph y))); [frame_pure| |intros pf Hpf].
  { intros s y s' Hc%call_leaves. cbn [detach tgraph leaves] in Hc. set_solver. }
  eapply (frame_bind_post _ (λ l, n ∉ leaves (lgraph l))); [frame_pure| |intros lf Hlf].
  { intros s y s' Hc%criterionGAN_leaves. set_solver. }
  eapply (frame_bind_post _ (λ l, n ∉ leaves (lgraph l))); [frame_pure| |intros ls Hls].
  { intros s y s' Hc%loss_add_leaves. set_solver. }
  eapply (frame_bind_post _ (λ l, n ∉ leaves (lgraph l))); [frame_pure| |intros ld Hld].
  { intros s y s' Hc%loss_mul_leaves. set_solver. }
  apply frame_bind; [|intros ?; frame_pure].
  by apply frame_net_backward.
Qed.


Lemma lift_run {A} (r : result A) (a : A) (s : state) :
  r = Ok a → lift r s = (Ok a, s).
Proof. by intros ->. Qed.



Lemma shape_replicate n x : shape (Dim (replicate n (Scalar x))) = [n].
Proof. cbn. rewrite length_replicate. by destruct n. Qed.

(** The label vector: [n] zeros followed by [n] ones. *)
Lemma cat_labels (n : Z) z o :
  zeros n = Ok z → ones n = Ok o →
  cat 0 z o = Ok (Dim (replicate (Z.to_nat n) (Scalar 0)
                       ++ replicate (Z.to_nat n) (Scalar 1))).
Proof.
  unfold zeros, ones, full. destruct (n <? 0)%Z; [done|].
  intros [= <-] [= <-]. unfold cat. by rewrite !shape_replicate.
Qed.



Lemma set_grad_enabled_same s :
  set_grad_enabled (grad_enabled s) (set_grad_enabled false s) = s.
Proof. by destruct s. Qed.

Lemma frame_forward {X} (f : state → X) :
  (∀ g s, f (set_tensors g s) = f s) → frame f forward.
Proof.
  intros Hf. unfold forward, setattr.
  repeat first [ frame_pure | apply frame_bind; [|intros ?]
               | (apply frame_modify; intros ?; apply Hf) ].
Qed.


(** ** The claims *)

(** C1. With the two generators present and the four inputs set, [forward]
    is this computation and nothing else: [fake_B = G_A(cat(real_A, aux_A))],
    then [rec_A = G_B(cat(fake_B, aux_A))], then
    [fake_A = G_B(cat(real_B, aux_B))], then
    [rec_B = G_A(cat(fake_A, aux_B))], concatenating along dimension 1.  Each
    result is stored under its name before the next one is computed, so a
    call that raises leaves the results before it stored and the later ones
    as they were; when the eight framework calls succeed [forward] returns
    and the state is the one it found with the four results stored. *)
Theorem forward_computes (s : state) (gA gB : network)
    (real_A aux_A real_B aux_B : Tensor params) :
  nets s !! G_A = Some gA →
  nets s !! G_B = Some gB →
  tensors s !! "real_A" = Some real_A →
  tensors s !! "aux_A" = Some aux_A →
  tensors s !! "real_B" = Some real_B →
  tensors s !! "aux_B" = Some aux_B →
  let ge := grad_enabled s in
  let G_A_of (a b : Tensor params) := cat_t ge 1 a b ≫= apply_net ge G_A gA in
  let G_B_of (a b : Tensor params) := cat_t ge 1 a b ≫= apply_net ge G_B gB in
  let store (name : string) (t : Tensor params) := set_tensors (insert name t) in
  forward s =
    match G_A_of real_A aux_A with
    | Err e => (Err e, s)
    | Ok fake_B =>
        let s1 := store "fake_B" fake_B s in
        match G_B_of fake_B aux_A with
        | Err e => (Err e, s1)
        | Ok rec_A =>
            let s2 := store "rec_A" rec_A s1 in
            match G_B_of real_B aux_B with
            | Err e => (Err e, s2)
            | Ok fake_A =>
                let s3 := store "fake_A" fake_A s2 in
                match G_A_of fake_A aux_B with
                | Err e => (Err e, s3)
                | Ok rec_B => (Ok tt, store "rec_B" rec_B s3)
                end
            end
        end
    end.
Proof.
  intros HgA HgB HrA HaA HrB HaB ge G_A_of G_B_of store.
  subst G_A_of G_B_of store. cbv beta zeta.
  unfold forward. cg_unfold. cg_run. fold ge.
  repeat (lazymatch goal with
          | |- context [match cat_t ?g ?d ?a ?b with _ => _ end] =>
              destruct (cat_t g d a b) eqn:?
          | |- context [match apply_net ?g ?n ?w ?x with _ => _ end] =>
              destruct (apply_net g n w x) eqn:?
          end;
          cbn [mbind result_bind]; cg_run; try reflexivity).
Qed.

(** The order of [forward] shows when a call raises: a failure of the second
    generator call leaves [fake_B] stored and nothing else. *)
Lemma forward_raises_after_fake_B (s : state) (gA gB : network)
    (real_A aux_A x1 fake_B x2 : Tensor params) (e : exn) :
  nets s !! G_A = Some gA →
  nets s !! G_B = Some gB →
  tensors s !! "real_A" = Some real_A →
  tensors s !! "aux_A" = Some aux_A →
  cat_t (grad_enabled s) 1 real_A aux_A = Ok x1 →
  apply_net (grad_enabled s) G_A gA x1 = Ok fake_B →
  cat_t (grad_enabled s) 1 fake_B aux_A = Ok x2 →
  apply_net (grad_enabled s) G_B gB x2 = Err e →
  forward s = (Err e, set_tensors (insert "fake_B" fake_B) s).
Proof.
  intros HgA HgB HrA HaA H1 H2 H3 H4.
  unfold forward. cg_unfold. cg_run. reflexivity.
Qed.

(** A run of [backward_G] in a state where the terms of the objective are
    defined, the gradient mode is on and [fake_B] has a history that reaches
    parameters: it returns, the losses it stores carry the terms, and
    [loss_G] is their sum. *)
Lemma backward_G_run (s : state) (t : generator_terms) (fake_B : Tensor params) :
  terms_as_documented s = Ok t →
  grad_enabled s = true →
  tensors s !! "fake_B" = Some fake_B →
  tracked (tgraph fake_B) = true →
  ∃ s', backward_G s = (Ok tt, s')
        ∧ loss_value s' "loss_G_A" = Some (G_A_term t)
        ∧ loss_value s' "loss_G_B" = Some (G_B_term t)
        ∧ loss_value s' "loss_cycle_A" = Some (cycle_A_term t)
        ∧ loss_value s' "loss_cycle_B" = Some (cycle_B_term t)
        ∧ loss_value s' "loss_idt_A" = Some (idt_A_term t)
        ∧ loss_value s' "loss_idt_B" = Some (idt_B_term t)
        ∧ loss_value s' "loss_G" = Some (total t)
        ∧ (¬ 0 < lambda_identity (opt s) →
             losses s' !! "loss_idt_A" = Some (number 0)
             ∧ losses s' !! "loss_idt_B" = Some (number 0)).
Proof.
  intros Ht Hge HfB Htr. apply tracked_leaves in Htr.
  unfold terms_as_documented, adversarial_and_cycle in Ht.
  unfold mbind, result_bind, mret, result_ret, tensor_data, net_data in Ht.
  destruct (decide (0 < lambda_identity (opt s))) as [Hpos|Hpos].
  - unfold identity_distances in Ht.
    unfold mbind, result_bind, mret, result_ret, tensor_data, net_data in Ht.
    inv_result.
    eexists. split.
    { unfold backward_G. do 3 cg_step. unfold identity_losses.
      rewrite decide_True by done. repeat cg_step.
      apply backward_run, tracked_true. cg_simpl. cbn [leaves]. set_solver. }
    unfold loss_value, total. cg_simpl.
    cbn [G_A_term G_B_term cycle_A_term cycle_B_term idt_A_term idt_B_term].
    repeat split; done.
  - inv_result.
    eexists. split.
    { unfold backward_G. do 3 cg_step. unfold identity_losses.
      rewrite decide_False by done. repeat cg_step.
      apply backward_run, tracked_true. cg_simpl. cbn [leaves]. set_solver. }
    unfold loss_value, total. cg_simpl.
    cbn [G_A_term G_B_term cycle_A_term cycle_B_term idt_A_term idt_B_term].
    repeat split; done.
Qed.
(** C2, as amended.  In a state where the adversarial losses and the cycle
    distances are defined, the gradient mode is on and [fake_B] has a
    history, [backward_G] returns and [loss_G] is the plain sum of six
    terms: the two adversarial losses, the cycle distances weighted by
    [lambda_A] and [lambda_B], and, when [lambda_identity] is positive,
    the identity distances weighted by [lambda_B * lambda_identity] and
    [lambda_A * lambda_identity]; otherwise the two identity terms are 0. *)
Theorem loss_G_is_sum_of_weighted_terms (s : state) (fake_B : Tensor params)
    (adv_A adv_B cyc_A cyc_B : Qc) :
  adversarial_and_cycle s = Ok (adv_A, adv_B, cyc_A, cyc_B) →
  grad_enabled s = true →
  tensors s !! "fake_B" = Some fake_B →
  tracked (tgraph fake_B) = true →
  (0 < lambda_identity (opt s) →
   ∀ idt_A idt_B, identity_distances s = Ok (idt_A, idt_B) →
     ∃ s', backward_G s = (Ok tt, s')
           ∧ loss_value s' "loss_G" =
               Some (adv_A + adv_B
                     + cyc_A * lambda_A (opt s) + cyc_B * lambda_B (opt s)
                     + idt_A * lambda_B (opt s) * lambda_identity (opt s)
                     + idt_B * lambda_A (opt s) * lambda_identity (opt s)))
  ∧ (¬ 0 < lambda_identity (opt s) →
     ∃ s', backward_G s = (Ok tt, s')
           ∧ loss_value s' "loss_G" =
               Some (adv_A + adv_B
                     + cyc_A * lambda_A (opt s) + cyc_B * lambda_B (opt s)
                     + 0 + 0)).
Proof.
  intros Hac Hge HfB Htr. split.
  - intros Hpos a b Hid.
    destruct (backward_G_run s
                {| G_A_term := adv_A; G_B_term := adv_B;
                   cycle_A_term := cyc_A * lambda_A (opt s);
                   cycle_B_term := cyc_B * lambda_B (opt s);
                   idt_A_term := a * lambda_B (opt s) * lambda_identity (opt s);
                   idt_B_term := b * lambda_A (opt s) * lambda_identity (opt s) |}
                fake_B) as (s' & Hrun & Hl); try done.
    + unfold terms_as_documented. rewrite Hac. cbn [mbind result_bind].
      rewrite decide_True by done. by rewrite Hid.
    + exists s'. split; [done|]. apply Hl.
  - intros Hneg.
    destruct (backward_G_run s
                {| G_A_term := adv_A; G_B_term := adv_B;
                   cycle_A_term := cyc_A * lambda_A (opt s);
                   cycle_B_term := cyc_B * lambda_B (opt s);
                   idt_A_term := 0; idt_B_term := 0 |}
                fake_B) as (s' & Hrun & Hl); try done.
    + unfold terms_as_documented. rewrite Hac. cbn [mbind result_bind].
      by rewrite decide_False by done.
    + exists s'. split; [done|]. apply Hl.
Qed.

(** C3.  [backward_D_basic] returns the mean of two adversarial losses: of
    the prediction of the discriminator on the real images against the
    label true and of its prediction on the fake images against the label
    false.  The fake enters detached: the history of the loss reaches the
    discriminator and what the history of [real] reaches, whatever the
    history of [fake] is, and the backward pass leaves every other network,
    the generators with their [.grad] among them, as it was. *)
Theorem discriminator_loss_is_average (s : state) (netD : net_id) (net : network)
    (real fake : Tensor params) (d_real d_fake : tensor) (v_real v_fake : Qc) :
  nets s !! netD = Some net →
  requires_grad net = true →
  grad_enabled s = true →
  net_fn netD (parameters net) (data real) = Ok d_real →
  gan_fn d_real true = Ok v_real →
  net_fn netD (parameters net) (data fake) = Ok d_fake →
  gan_fn d_fake false = Ok v_fake →
  ∃ loss s',
    backward_D_basic netD real fake s = (Ok loss, s')
    ∧ lval loss = (v_real + v_fake) / 2
    ∧ leaves (lgraph loss) = {[netD]} ∪ leaves (tgraph real)
    ∧ (∀ n, n ≠ netD → n ∉ leaves (tgraph real) → nets s' !! n = nets s !! n).
Proof.
  intros Hn Hrg Hge Hdr Hvr Hdf Hvf.
  eexists _, _. split; [|split; [|split]].
  - unfold backward_D_basic. repeat cg_step.
    eapply step_ok; [|reflexivity].
    apply backward_run, tracked_true. cg_simpl. cbn [leaves]. rewrite Hrg. set_solver.
  - cg_simpl. apply half_is_division.
  - cg_simpl. cbn [leaves]. rewrite Hrg. set_solver.
  - intros n Hne Hreal. cg_simpl. rewrite map_lookup_imap.
    destruct (nets s !! n); [|done]. cbn. rewrite accumulate_other; [done|].
    cbn [leaves]. rewrite Hrg. set_solver.
Qed.

(** X12.  [backward_D_A] scores the image that the pool of fake B images
    hands back for the current [fake_B], which need not be the current one:
    it stores under [loss_D_A] the mean of the adversarial loss of [D_A] on
    [real_B] against the label true and on the pooled image against the
    label false, keeps the updated pool, and its backward pass changes no
    network but [D_A] and what the history of [real_B] reaches. *)
Lemma backward_D_A_run (s : state) (p p' : pool) (net : network)
    (fake_B fake real_B : Tensor params) (d_real d_fake : tensor) (v_real v_fake : Qc) :
  fake_B_pool s = Some p →
  tensors s !! "fake_B" = Some fake_B →
  pool_query p fake_B = Ok (fake, p') →
  nets s !! D_A = Some net →
  requires_grad net = true →
  grad_enabled s = true →
  tensors s !! "real_B" = Some real_B →
  net_fn D_A (parameters net) (data real_B) = Ok d_real →
  gan_fn d_real true = Ok v_real →
  net_fn D_A (parameters net) (data fake) = Ok d_fake →
  gan_fn d_fake false = Ok v_fake →
  ∃ s', backward_D_A s = (Ok tt, s')
        ∧ loss_value s' "loss_D_A" = Some ((v_real + v_fake) / 2)
        ∧ fake_B_pool s' = Some p'
        ∧ (∀ n, n ≠ D_A → n ∉ leaves (tgraph real_B) → nets s' !! n = nets s !! n).
Proof.
  intros Hp Hf Hq Hn Hrg Hge Hr Hdr Hvr Hdf Hvf.
  eexists. split; [|split; [|split]].
  - unfold backward_D_A, query_fake_B_pool.
    repeat first [ cg_step
                 | eapply step_ok; [apply getattr_ok; exact Hp|cbv beta]
                 | eapply step_ok; [apply lift_run; exact Hq|cbv beta]
                 | eapply step_ok; [reflexivity|cbv beta] ].
    unfold backward_D_basic. cbn [fst snd]. repeat cg_step.
    eapply step_ok; [|cbv beta; eapply step_ok; reflexivity].
    apply backward_run, tracked_true. cg_simpl. cbn [leaves]. rewrite Hrg. set_solver.
  - unfold loss_value. cg_simpl. cbn [fmap option_fmap option_map].
    cg_simpl. by rewrite half_is_division.
  - reflexivity.
  - intros n Hne Hreal. cg_simpl. rewrite map_lookup_imap.
    destruct (nets s !! n); [|done]. cbn. rewrite accumulate_other; [done|].
    cbn [leaves]. rewrite Hrg. set_solver.
Qed.

(** X13.  [backward_D_B] is the mirror image for the other domain: the
    pooled image comes from the pool of fake A images for the current
    [fake_A], the real batch is [real_A], the loss is stored under
    [loss_D_B], and no network but [D_B] and what the history of [real_A]
    reaches is changed. *)
Lemma backward_D_B_run (s : state) (p p' : pool) (net : network)
    (fake_A fake real_A : Tensor params) (d_real d_fake : tensor) (v_real v_fake : Qc) :
  fake_A_pool s = Some p →
  tensors s !! "fake_A" = Some fake_A →
  pool_query p fake_A = Ok (fake, p') →
  nets s !! D_B = Some net →
  requires_grad net = true →
  grad_enabled s = true →
  tensors s !! "real_A" = Some real_A →
  net_fn D_B (parameters net) (data real_A) = Ok d_real →
  gan_fn d_real true = Ok v_real →
  net_fn D_B (parameters net) (data fake) = Ok d_fake →
  gan_fn d_fake false = Ok v_fake →
  ∃ s', backward_D_B s = (Ok tt, s')
        ∧ loss_value s' "loss_D_B" = Some ((v_real + v_fake) / 2)
        ∧ fake_A_pool s' = Some p'
        ∧ (∀ n, n ≠ D_B → n ∉ leaves (tgraph real_A) → nets s' !! n = nets s !! n).
Proof.
  intros Hp Hf Hq Hn Hrg Hge Hr Hdr Hvr Hdf Hvf.
  eexists. split; [|split; [|split]].
  - unfold backward_D_B, query_fake_A_pool.
    repeat first [ cg_step
                 | eapply step_ok; [apply getattr_ok; exact Hp|cbv beta]
                 | eapply step_ok; [apply lift_run; exact Hq|cbv beta]
                 | eapply step_ok; [reflexivity|cbv beta] ].
    unfold backward_D_basic. cbn [fst snd]. repeat cg_step.
    eapply step_ok; [|cbv beta; eapply step_ok; reflexivity].
    apply backward_run, tracked_true. cg_simpl. cbn [leaves]. rewrite Hrg. set_solver.
  - unfold loss_value. cg_simpl. cbn [fmap option_fmap option_map].
    cg_simpl. by rewrite half_is_division.
  - reflexivity.
  - intros n Hne Hreal. cg_simpl. rewrite map_lookup_imap.
    destruct (nets s !! n); [|done]. cbn. rewrite accumulate_other; [done|].
    cbn [leaves]. rewrite Hrg. set_solver.
Qed.

(** ** What a backward pass spares

    A network whose [requires_grad] is off, and that no stored tensor has
    in its history, is out of reach of every loss the generator update
    computes. *)
Section Spared.
Variables (d : net_id) (N : option network).

Lemma triple_same {A} ks (m : M state A) (φ : A → Prop) :
  (∀ s, spared d N ks s → (m s).2 = s ∧ ∀ a, (m s).1 = Ok a → φ a) →
  triple (spared d N ks) m (λ a s, φ a ∧ spared d N ks s) (λ s, nets s !! d = N).
Proof.
  intros Hm s Hs. destruct (Hm s Hs) as [Heq Hφ]. rewrite Heq.
  split; [apply Hs|]. intros a Ha. split; [by apply Hφ|done].
Qed.

Lemma triple_gets {A} ks (f : state → A) :
  triple (spared d N ks) (gets f) (λ _ s, True ∧ spared d N ks s) (λ s, nets s !! d = N).
Proof. by apply triple_same. Qed.

Lemma triple_netattr ks n :
  triple (spared d N ks) (netattr n) (λ a s, a = n ∧ spared d N ks s)
    (λ s, nets s !! d = N).
Proof.
  apply triple_same. intros s _. unfold netattr, getattr.
  destruct (nets s !! n); [|done]. split; [done|]. by intros a [= <-].
Qed.

Lemma triple_attr ks name :
  triple (spared d N ks) (attr name)
    (λ t s, (d ∉ leaves (tgraph t)) ∧ spared d N ks s) (λ s, nets s !! d = N).
Proof.
  apply triple_same. intros s (_ & Ht & _). unfold attr, getattr.
  destruct (tensors s !! name) as [t|] eqn:Hl; [|done].
  split; [done|]. intros a [= <-]. by eapply Ht.
Qed.

Lemma triple_lossattr ks name :
  name ∈ ks →
  triple (spared d N ks) (lossattr name)
    (λ l s, (d ∉ leaves (lgraph l)) ∧ spared d N ks s) (λ s, nets s !! d = N).
Proof.
  intros Hin. apply triple_same. intros s (_ & _ & Hl). unfold lossattr, getattr.
  destruct (losses s !! name) as [l|] eqn:Hlk; [|done].
  split; [done|]. intros a [= <-]. by eapply Hl.
Qed.

Lemma triple_torch_cat ks a b dim :
  d ∉ leaves (tgraph a) → d ∉ leaves (tgraph b) →
  triple (spared d N ks) (torch_cat a b dim)
    (λ t s, (d ∉ leaves (tgraph t)) ∧ spared d N ks s) (λ s, nets s !! d = N).
Proof.
  intros Ha Hb. apply triple_same. intros s _. split; [done|].
  unfold torch_cat, cat_t. munfold. destruct (cat _ _ _) as [x|]; [|done].
  intros t [= <-]. cbn [tgraph].
  pose proof (recorded_leaves (grad_enabled s) (GCat dim (tgraph a) (tgraph b)) x).
  cbn [leaves] in *. set_solver.
Qed.

Lemma triple_call ks n x :
  d ∉ leaves (tgraph x) →
  (n = d → ∀ net, N = Some net → requires_grad net = false) →
  triple (spared d N ks) (call n x)
    (λ t s, (d ∉ leaves (tgraph t)) ∧ spared d N ks s) (λ s, nets s !! d = N).
Proof.
  intros Hx flag_off. apply triple_same. intros s (Hd & _ & _).
  split; [apply (frame_call id)|].
  unfold call, apply_net. munfold.
  destruct (nets s !! n) as [net|] eqn:Hn; [|done].
  destruct (net_fn _ _ _) as [y|]; [|done].
  intros t [= <-]. cbn [tgraph].
  pose proof (recorded_leaves (grad_enabled s)
                (GNet n (parameters net) (requires_grad net) (tgraph x)) y) as Hr.
  cbn [leaves] in Hr.
  destruct (decide (n = d)) as [->|Hne].
  - assert (Hoff : requires_grad net = false) by (apply flag_off; congruence).
    rewrite Hoff in Hr |- *. cbv iota in Hr. set_solver.
  - destruct (requires_grad net); set_solver.
Qed.

Lemma triple_criterionGAN ks p b :
  d ∉ leaves (tgraph p) →
  triple (spared d N ks) (criterionGAN p b)
    (λ l s, (d ∉ leaves (lgraph l)) ∧ spared d N ks s) (λ s, nets s !! d = N).
Proof.
  intros Hp. apply triple_same. intros s _. split; [done|].
  intros l Hl%run_returns%criterionGAN_leaves. set_solver.
Qed.

Lemma triple_criterionCycle ks a b :
  d ∉ leaves (tgraph a) → d ∉ leaves (tgraph b) →
  triple (spared d N ks) (criterionCycle a b)
    (λ l s, (d ∉ leaves (lgraph l)) ∧ spared d N ks s) (λ s, nets s !! d = N).
Proof.
  intros Ha Hb. apply triple_same. intros s _. split; [done|].
  unfold criterionCycle, l1_loss. munfold. destruct (l1_fn _ _) as [v|]; [|done].
  intros l [= <-]. cbn [lgraph].
  pose proof (recorded_leaves (grad_enabled s) (GL1 (tgraph a) (tgraph b)) (Scalar v)).
  cbn [leaves] in *. set_solver.
Qed.

Lemma triple_criterionIdt ks a b :
  d ∉ leaves (tgraph a) → d ∉ leaves (tgraph b) →
  triple (spared d N ks) (criterionIdt a b)
    (λ l s, (d ∉ leaves (lgraph l)) ∧ spared d N ks s) (λ s, nets s !! d = N).
Proof.
  intros Ha Hb. apply triple_same. intros s _. split; [done|].
  unfold criterionIdt, l1_loss. munfold. destruct (l1_fn _ _) as [v|]; [|done].
  intros l [= <-]. cbn [lgraph].
  pose proof (recorded_leaves (grad_enabled s) (GL1 (tgraph a) (tgraph b)) (Scalar v)).
  cbn [leaves] in *. set_solver.
Qed.

Lemma triple_loss_mul ks l q :
  d ∉ leaves (lgraph l) →
  triple (spared d N ks) (loss_mul l q)
    (λ l s, (d ∉ leaves (lgraph l)) ∧ spared d N ks s) (λ s, nets s !! d = N).
Proof.
  intros Hl. apply triple_same. intros s _. split; [done|].
  intros r Hr%run_returns%loss_mul_leaves. set_solver.
Qed.

Lemma triple_loss_add ks a b :
  d ∉ leaves (lgraph a) → d ∉ leaves (lgraph b) →
  triple (spared d N ks) (loss_add a b)
    (λ l s, (d ∉ leaves (lgraph l)) ∧ spared d N ks s) (λ s, nets s !! d = N).
Proof.
  intros Ha Hb. apply triple_same. intros s _. split; [done|].
  intros r Hr%run_returns%loss_add_leaves. set_solver.
Qed.

Lemma triple_setattr ks name t :
  d ∉ leaves (tgraph t) →
  triple (spared d N ks) (setattr name t) (λ _ s, True ∧ spared d N ks s)
    (λ s, nets s !! d = N).
Proof.
  intros Ht s (Hd & Hts & Hls). split; [done|]. intros _ _. split; [done|].
  split; [done|]. split; [|done].
  intros k t'. cbn. destruct (decide (name = k)) as [->|Hne].
  - rewrite lookup_insert_eq. by intros [= <-].
  - rewrite lookup_insert_ne by done. apply Hts.
Qed.

Lemma triple_setloss ks name l :
  d ∉ leaves (lgraph l) →
  triple (spared d N ks) (setloss name l)
    (λ _ s, True ∧ spared d N (name :: ks) s) (λ s, nets s !! d = N).
Proof.
  intros Hl s (Hd & Hts & Hls). split; [done|]. intros _ _. split; [done|].
  split; [done|]. split; [done|].
  intros k l' Hk. cbn. destruct (decide (name = k)) as [->|Hne].
  - rewrite lookup_insert_eq. by intros [= <-].
  - rewrite lookup_insert_ne by done. apply Hls.
    apply elem_of_cons in Hk as [->|Hk]; done.
Qed.

Lemma triple_backward ks l :
  d ∉ leaves (lgraph l) →
  triple (spared d N ks) (backward l) (λ _ s, True ∧ spared d N ks s)
    (λ s, nets s !! d = N).
Proof.
  intros Hl s (Hd & Hts & Hls).
  assert (Hn : nets (backward l s).2 !! d = N).
  { rewrite <- Hd. by apply (frame_net_backward d l). }
  split; [done|]. intros _ _. split; [done|]. split; [done|].
  unfold backward. by destruct (tracked _).
Qed.

Lemma triple_optimizer_G_zero_grad ks :
  d ∉ optimizer_G_params →
  triple (spared d N ks) optimizer_G_zero_grad (λ _ s, True ∧ spared d N ks s)
    (λ s, nets s !! d = N).
Proof.
  intros Hd s (Hn & Hts & Hls).
  assert (Hk : nets (optimizer_G_zero_grad s).2 !! d = N).
  { rewrite <- Hn. unfold optimizer_G_zero_grad, zero_grad. munfold.
    destruct (optimizer_G s); [|done]. cbn.
    unfold optimizer_G_params in *. cbn [foldr].
    rewrite !lookup_alter_ne; [done|set_solver..]. }
  split; [done|]. intros _ _. split; [done|]. split; [done|].
  unfold optimizer_G_zero_grad, zero_grad. munfold.
  by destruct (optimizer_G s).
Qed.

Lemma triple_optimizer_G_step ks :
  d ∉ optimizer_G_params →
  triple (spared d N ks) optimizer_G_step (λ _ s, True ∧ spared d N ks s)
    (λ s, nets s !! d = N).
Proof.
  intros Hd s (Hn & Hts & Hls).
  assert (Hk : nets (optimizer_G_step s).2 !! d = N).
  { rewrite <- Hn. by apply frame_net_optimizer_G_step. }
  split; [done|]. intros _ _. split; [done|]. split; [done|].
  unfold optimizer_G_step. munfold. by destruct (optimizer_G s).
Qed.

End Spared.

Ltac key_in := repeat first [apply list_elem_of_here | apply list_elem_of_further].

Ltac triple_op :=
  lazymatch goal with
  | |- triple _ (gets _) _ _ => apply triple_gets
  | |- triple _ (netattr _) _ _ => apply triple_netattr
  | |- triple _ (attr _) _ _ => apply triple_attr
  | |- triple _ (lossattr _) _ _ => apply triple_lossattr; key_in
  | |- triple _ (torch_cat _ _ _) _ _ => apply triple_torch_cat; assumption
  | |- triple _ (call _ _) _ _ =>
      apply triple_call;
      [ assumption
      | first [ by intros _
              | intros ?; subst; exfalso;
                match goal with
                | Hx : ?x = _, Hn : ?x ∉ _ |- _ => rewrite Hx in Hn; apply Hn; key_in
                end ] ]
  | |- triple _ (criterionGAN _ _) _ _ => apply triple_criterionGAN; assumption
  | |- triple _ (criterionCycle _ _) _ _ => apply triple_criterionCycle; assumption
  | |- triple _ (criterionIdt _ _) _ _ => apply triple_criterionIdt; assumption
  | |- triple _ (loss_mul _ _) _ _ => apply triple_loss_mul; assumption
  | |- triple _ (loss_add _ _) _ _ => apply triple_loss_add; assumption
  | |- triple _ (setattr _ _) _ _ => apply triple_setattr; assumption
  | |- triple _ (setloss _ (number _)) _ _ => apply triple_setloss; cbn; set_solver
  | |- triple _ (setloss _ _) _ _ => apply triple_setloss; assumption
  | |- triple _ (backward _) _ _ => apply triple_backward; assumption
  end.

Ltac triple_steps :=
  repeat lazymatch goal with
         | |- triple _ (mbind _ _) _ _ =>
             eapply triple_step; [|let H := fresh in intros ? H; cbv beta in H |- *]
         | |- triple _ _ _ _ => triple_op
         end.

(** [backward_G] leaves a network alone whose [requires_grad] is off and
    that no stored tensor has in its history, its [.grad] included. *)
Lemma triple_backward_G d N :
  (∀ net, N = Some net → requires_grad net = false) →
  ∃ ks, triple (spared d N []) backward_G (λ _ s, True ∧ spared d N ks s)
          (λ s, nets s !! d = N).
Proof.
  intros HN. eexists. unfold backward_G.
  do 3 (eapply triple_step; [by apply triple_gets|intros ? _; cbv beta]).
  eapply triple_step; [|intros ? ?; cbv beta].
  { unfold identity_losses. case_decide; triple_steps. }
  triple_steps.
Qed.

(** [forward] stores no tensor with a discriminator in its history. *)
Lemma triple_forward d N :
  d ∈ optimizer_D_params →
  triple (spared d N []) forward (λ _ s, True ∧ spared d N [] s)
    (λ s, nets s !! d = N).
Proof.
  intros Hd%disjoint_optimizers. unfold optimizer_G_params in Hd.
  unfold forward. triple_steps.
Qed.

Lemma netattr_cases n (s : state) :
  netattr n s = (Ok n, s) ∨ ∃ e, netattr n s = (Err e, s).
Proof. unfold netattr, getattr. destruct (nets s !! n); eauto. Qed.

(** In the generator block of [optimize_parameters] no gradient reaches a
    discriminator: with no discriminator in the history of a stored tensor,
    its [.grad] is after the block, however the block ends, what it was
    before. *)
Lemma generator_step_spares_discriminators (d : net_id) (s : state) :
  d ∈ optimizer_D_params →
  (∀ name t, tensors s !! name = Some t → d ∉ leaves (tgraph t)) →
  grad_of d (generator_step s).2 = grad_of d s.
Proof.
  intros Hd Hts. unfold generator_step.
  destruct (netattr_cases D_A s) as [Ha|[e Ha]]; [|by rewrite (bind_err _ _ _ _ _ Ha)].
  rewrite (bind_ok _ _ _ _ _ Ha).
  destruct (netattr_cases D_B s) as [Hb|[e Hb]]; [|by rewrite (bind_err _ _ _ _ _ Hb)].
  rewrite (bind_ok _ _ _ _ _ Hb).
  set (s1 := (set_requires_grad [D_A; D_B] false s).2).
  rewrite (bind_ok _ _ s s1 tt) by reflexivity.
  assert (Hflag : nets s1 !! d = with_requires_grad false <$> nets s !! d).
  { subst s1. unfold set_requires_grad. cbn.
    apply elem_of_cons in Hd as [->|Hd%list_elem_of_singleton]; [|subst d].
    - by rewrite lookup_alter_eq, lookup_alter_ne.
    - by rewrite lookup_alter_ne, lookup_alter_eq. }
  assert (HN : ∀ net, nets s1 !! d = Some net → requires_grad net = false).
  { intros net. rewrite Hflag. destruct (nets s !! d); [|done]. by intros [= <-]. }
  destruct (triple_backward_G d (nets s1 !! d) HN) as [ks Hbw].
  assert (Hrest : triple (spared d (nets s1 !! d) [])
                    (optimizer_G_zero_grad ≫= λ _, backward_G ≫= λ _, optimizer_G_step)
                    (λ _ s, True ∧ spared d (nets s1 !! d) ks s)
                    (λ s', nets s' !! d = nets s1 !! d)).
  { pose proof (disjoint_optimizers d Hd) as Hdg.
    eapply triple_step; [by apply triple_optimizer_G_zero_grad|intros _ _].
    eapply triple_step; [exact Hbw|intros _ _].
    by apply triple_optimizer_G_step. }
  destruct (Hrest s1) as [Hkept _].
  { split; [done|]. split; [exact Hts|]. intros ? ? Hin. by apply elem_of_nil in Hin. }
  unfold grad_of. rewrite Hkept, Hflag. by destruct (nets s !! d).
Qed.

(** X14.  From the start of [optimize_parameters] to the end of its
    generator update no gradient reaches a discriminator: with no
    discriminator in the history of a stored tensor, [forward] stores tensors
    that only the generators are in the history of, the generator losses are
    computed with the flags of the discriminators off, and the [.grad] of a
    discriminator is afterwards what it was, however the update ends. *)
Lemma forward_and_generator_step_spare_discriminators (d : net_id) (s : state) :
  d ∈ optimizer_D_params →
  (∀ name t, tensors s !! name = Some t → d ∉ leaves (tgraph t)) →
  grad_of d ((forward ≫= λ _, generator_step) s).2 = grad_of d s.
Proof.
  intros Hd Hts.
  destruct (triple_forward d (nets s !! d) Hd s) as [Hk Hq].
  { split; [done|]. split; [exact Hts|]. intros ? ? Hin. by apply elem_of_nil in Hin. }
  rewrite run_bind. destruct (forward s) as [[[]|e] s1] eqn:Hf; cbn [fst snd] in *.
  - destruct (Hq tt eq_refl) as [_ (Hn & Hts1 & _)].
    rewrite generator_step_spares_discriminators by done.
    unfold grad_of. by rewrite Hn.
  - unfold grad_of. by rewrite Hk.
Qed.

(** C4.  [optimize_parameters] is [forward], then the generator block, then
    the discriminator block.  The generator block leaves the parameters of
    both discriminators as they were; it first switches their
    [requires_grad] off, nothing in the rest of the block switches it back,
    and it is off when the block ends.  The discriminator block switches it
    on again and leaves the parameters of both generators as they were.
    This holds for every state, whether a block returns or raises. *)
Theorem optimize_parameters_frames :
  (∀ s, optimize_parameters s =
          (forward ≫= λ _, generator_step ≫= λ _, discriminator_step) s)
  ∧ (∀ d, d ∈ optimizer_D_params →
       (∀ s, params_of d (generator_step s).2 = params_of d s)
       ∧ (∀ s, requires_grad_of d (optimizer_G_zero_grad s).2 = requires_grad_of d s)
       ∧ (∀ s, requires_grad_of d (backward_G s).2 = requires_grad_of d s)
       ∧ (∀ s, requires_grad_of d (optimizer_G_step s).2 = requires_grad_of d s)
       ∧ (∀ s, is_Some (nets s !! D_A) → is_Some (nets s !! D_B) →
               requires_grad_of d (generator_step s).2 = Some false)
       ∧ (∀ s, is_Some (nets s !! D_A) → is_Some (nets s !! D_B) →
               requires_grad_of d (discriminator_step s).2 = Some true))
  ∧ (∀ g, g ∈ optimizer_G_params →
       ∀ s, params_of g (discriminator_step s).2 = params_of g s).
Proof.
  split; [done|]. split.
  - intros d Hd. split; [|split; [|split; [|split; [|split]]]].
    + apply frame_params_generator_step, Hd.
    + assert (Hf : frame (requires_grad_of d) optimizer_G_zero_grad) by frame_all.
      apply Hf.
    + assert (Hf : frame (requires_grad_of d) backward_G) by frame_all.
      apply Hf.
    + apply frame_flag_optimizer_G_step.
    + intros s [na Ha] [nb Hb]. unfold generator_step.
      erewrite step_ok; [| by eapply netattr_run | reflexivity].
      erewrite step_ok; [| by eapply netattr_run | reflexivity].
      rewrite run_bind.
      pose proof (set_requires_grad_discriminators s false d Hd) as Hs.
      destruct (set_requires_grad [D_A; D_B] false s) as [[[]|e] s1] eqn:Hset;
        [|done].
      cbn [snd] in Hs. rewrite <- Hs by eauto. apply frame_flag_updates_G.
    + intros s [na Ha] [nb Hb]. unfold discriminator_step.
      erewrite step_ok; [| by eapply netattr_run | reflexivity].
      erewrite step_ok; [| by eapply netattr_run | reflexivity].
      rewrite run_bind.
      pose proof (set_requires_grad_discriminators s true d Hd) as Hs.
      destruct (set_requires_grad [D_A; D_B] true s) as [[[]|e] s1] eqn:Hset;
        [|done].
      cbn [snd] in Hs. rewrite <- Hs by eauto. apply frame_flag_updates_D.
  - intros g Hg. apply frame_params_discriminator_step, Hg.
Qed.

(** What follows a successful first step leaves an observation as that
    step left it. *)
Lemma frame_after {A B X} (f : state → X) (m : M state A) (k : A → M state B)
    s a s1 x :
  m s = (Ok a, s1) → frame f (k a) → f s1 = x → f ((m ≫= k) s).2 = x.
Proof. intros Hm Hk <-. rewrite (bind_ok _ _ _ _ _ Hm). apply Hk. Qed.

Lemma frame_losses_backward {X} (f : gmap string (Loss params) → X) l :
  frame (λ s, f (losses s)) (backward l).
Proof. intros s. unfold backward. by destruct (tracked _). Qed.

(** C5.  With [lambda_identity = 0] the identity branch of [backward_G]
    calls no network: it stores the number 0 under [loss_idt_A] and
    [loss_idt_B] and touches nothing else.  Whatever [backward_G] does
    afterwards, and whether it returns or raises, the two entries are the
    number 0 when it ends; when it returns from a state where the four other
    terms are defined, [loss_G] is the sum of these four. *)
Theorem zero_identity_weight (s : state) :
  lambda_identity (opt s) = 0 →
  identity_losses (lambda_identity (opt s)) (lambda_A (opt s)) (lambda_B (opt s)) s =
    (Ok tt, set_losses (λ m, <["loss_idt_B" := number 0]>
                               (<["loss_idt_A" := number 0]> m)) s)
  ∧ losses (backward_G s).2 !! "loss_idt_A" = Some (number 0)
  ∧ losses (backward_G s).2 !! "loss_idt_B" = Some (number 0)
  ∧ (∀ (fake_B : Tensor params) (adv_A adv_B cyc_A cyc_B : Qc),
       adversarial_and_cycle s = Ok (adv_A, adv_B, cyc_A, cyc_B) →
       grad_enabled s = true →
       tensors s !! "fake_B" = Some fake_B →
       tracked (tgraph fake_B) = true →
       ∃ s', backward_G s = (Ok tt, s')
             ∧ loss_value s' "loss_G" =
                 Some (adv_A + adv_B
                       + cyc_A * lambda_A (opt s) + cyc_B * lambda_B (opt s))).
Proof.
  intros Hz.
  assert (Hneg : ¬ 0 < lambda_identity (opt s)).
  { rewrite Hz. apply Qcle_not_lt, Qcle_refl. }
  assert (Hbranch :
    identity_losses (lambda_identity (opt s)) (lambda_A (opt s)) (lambda_B (opt s)) s =
      (Ok tt, set_losses (λ m, <["loss_idt_B" := number 0]>
                                 (<["loss_idt_A" := number 0]> m)) s)).
  { unfold identity_losses. by rewrite decide_False by done. }
  assert (Hend : ∀ name, name = "loss_idt_A" ∨ name = "loss_idt_B" →
                         losses (backward_G s).2 !! name = Some (number 0)).
  { intros name Hname. unfold backward_G.
    do 3 (erewrite bind_ok by apply gets_run).
    eapply (frame_after (λ s, losses s !! name)); [exact Hbranch| |].
    - unfold setloss.
      repeat first [ frame_pure | apply frame_bind; [|intros ?]
                   | apply (frame_losses_backward (λ m, m !! name))
                   | (apply frame_modify; intros ?; cbn;
                      destruct Hname as [-> | ->]; by rewrite lookup_insert_ne) ].
    - cbn. destruct Hname as [-> | ->]; by map_lookups. }
  split; [exact Hbranch|].
  split; [apply Hend; by left|]. split; [apply Hend; by right|].
  intros fake_B adv_A adv_B cyc_A cyc_B Hac Hge HfB Htr.
  destruct (backward_G_run s
              {| G_A_term := adv_A; G_B_term := adv_B;
                 cycle_A_term := cyc_A * lambda_A (opt s);
                 cycle_B_term := cyc_B * lambda_B (opt s);
                 idt_A_term := 0; idt_B_term := 0 |}
              fake_B) as (s' & Hrun & Hl); try done.
  - unfold terms_as_documented. rewrite Hac. cbn [mbind result_bind].
    by rewrite decide_False by done.
  - destruct Hl as (_ & _ & _ & _ & _ & _ & HG & _).
    exists s'. split; [done|].
    rewrite HG. unfold total. cbn [G_A_term G_B_term cycle_A_term cycle_B_term
                                  idt_A_term idt_B_term].
    by rewrite !Qcplus_0_r.
Qed.


(** ** More of the CycleGAN model *)

(** A computation that leaves [f] alone keeps what holds of [f]. *)
Lemma triple_frame {A X} (f : state → X) (P : X → Prop) (m : M state A) :
  frame f m →
  triple (λ s, P (f s)) m (λ _ s, True ∧ P (f s)) (λ s, P (f s)).
Proof.
  intros Hf s Hs. cbv beta in *. specialize (Hf s). split; [by rewrite Hf|].
  intros a _. split; [exact I|by rewrite Hf].
Qed.

Lemma triple_weaken {A} (P : state → Prop) (m : M state A)
    (Q Q' : A → state → Prop) (E E' : state → Prop) :
  triple P m Q E → (∀ a s, Q a s → Q' a s) → (∀ s, E s → E' s) → triple P m Q' E'.
Proof.
  intros Hm HQ HE s Hs. destruct (Hm s Hs) as [He Hq]. split; [by apply HE|].
  intros a Ha. by apply HQ, Hq.
Qed.

Lemma frame_grad_enabled_no_grad {A} (body : M state A) :
  frame grad_enabled (no_grad body).
Proof. intros s. unfold no_grad. by destruct (body _). Qed.

Lemma frame_model_evaluation {X} (f : state → X) :
  frame f forward →
  (∀ b s, f (set_grad_enabled b s) = f s) →
  frame f model_evaluation.
Proof.
  intros Ht Hg. unfold model_evaluation.
  repeat first [ frame_pure | exact Ht
               | apply frame_no_grad; [exact Hg|]
               | apply frame_bind; [|intros ?] ].
Qed.

(** [forward] assigns the four tensors of [forward_outputs] and no other. *)
Lemma frame_forward_other (name : string) :
  name ∉ forward_outputs → frame (λ s, tensors s !! name) forward.
Proof.
  intros Hn. unfold forward, setattr.
  repeat first [ frame_pure | apply frame_bind; [|intros ?]
               | (apply frame_modify; intros ?; cbn [tensors set_tensors];
                  apply lookup_insert_ne; intros <-; apply Hn;
                  unfold forward_outputs; key_in) ].
Qed.

(** X9.  [model_evaluation] changes nothing of the training state: the
    four networks with their parameters, gradients and flags, the losses,
    the optimizers and the image pools are as they were and the gradient
    mode is back to what it was, whether the evaluation returns or raises;
    of the tensor attributes only the four that [forward] assigns may
    differ. *)
Theorem model_evaluation_leaves_training_state (s : state) :
  let s' := (model_evaluation s).2 in
  nets s' = nets s
  ∧ losses s' = losses s
  ∧ optimizer_G s' = optimizer_G s
  ∧ optimizer_D s' = optimizer_D s
  ∧ fake_A_pool s' = fake_A_pool s
  ∧ fake_B_pool s' = fake_B_pool s
  ∧ grad_enabled s' = grad_enabled s
  ∧ (∀ name, name ∉ forward_outputs → tensors s' !! name = tensors s !! name).
Proof.
  cbv zeta.
  repeat (split; [by apply frame_model_evaluation; [apply frame_forward|]|]).
  split.
  - unfold model_evaluation.
    repeat first [ frame_pure | apply frame_forward; done
                 | apply frame_grad_enabled_no_grad
                 | apply frame_bind; [|intros ?] ].
  - intros name Hn.
    apply (frame_model_evaluation (λ s, tensors s !! name)); [|done].
    by apply frame_forward_other.
Qed.

(** *** The order of the assignments of [forward] *)

Lemma zip_snoc {A B} (names : list A) (vals : list B) (k : nat) (name : A) (v : B) :
  length vals = k → names !! k = Some name →
  zip names (vals ++ [v]) = zip names vals ++ [(name, v)].
Proof.
  revert vals k. induction names as [|n names IH]; intros vals k Hl Hk; [done|].
  destruct vals as [|w vals]; cbn in *.
  - subst k. injection Hk as ->. by destruct names.
  - subst k. cbn in Hk. f_equal. by eapply IH.
Qed.

Lemma triple_assigned_pure {A} names T0 k (m : M state A) :
  (k ≤ length names)%nat →
  frame tensors m →
  triple (assigned names T0 k) m (λ _ s, True ∧ assigned names T0 k s)
    (λ s, ∃ j, (j ≤ length names)%nat ∧ assigned names T0 j s).
Proof.
  intros Hk Hf s Hs. specialize (Hf s).
  assert (Hs' : assigned names T0 k (m s).2).
  { destruct Hs as (vals & Hl & Ht). exists vals. by rewrite Hf. }
  split; [by exists k|]. by intros a _.
Qed.

Lemma triple_assigned_set names T0 k name t :
  names !! k = Some name →
  triple (assigned names T0 k) (setattr name t)
    (λ _ s, True ∧ assigned names T0 (S k) s)
    (λ s, ∃ j, (j ≤ length names)%nat ∧ assigned names T0 j s).
Proof.
  intros Hk s (vals & Hl & Ht).
  assert (Hs' : assigned names T0 (S k) (setattr name t s).2).
  { exists (vals ++ [t]). split; [rewrite length_app; cbn; lia|].
    cbn [setattr modify snd tensors set_tensors].
    rewrite (zip_snoc names vals k name t Hl Hk), foldl_snoc, Ht. done. }
  split; [|by intros a _].
  exists (S k). split; [|done]. apply lookup_lt_Some in Hk. lia.
Qed.

Ltac assigned_steps :=
  repeat lazymatch goal with
         | |- triple _ (mbind _ _) _ _ => eapply triple_step; [|intros ? _; cbv beta]
         | |- triple _ (setattr _ _) _ _ => apply triple_assigned_set; reflexivity
         | |- triple _ _ _ _ =>
             apply triple_assigned_pure; [cbn; lia|frame_pure]
         end.

(** X7.  [forward] assigns [fake_B], [rec_A], [fake_A] and [rec_B] in this
    order and is not all-or-nothing: however it ends, the tensor attributes
    are those it found with a first part of the four assigned anew, so a
    call that raises on the way leaves the results computed before it beside
    stale later ones; when it returns all four are assigned.  Nothing but
    tensor attributes changes. *)
Theorem forward_assigns_in_order (s : state) :
  ∃ vals : list (Tensor params),
    (length vals ≤ 4)%nat
    ∧ tensors (forward s).2 =
        foldl (λ m kv, <[kv.1 := kv.2]> m) (tensors s) (zip forward_outputs vals)
    ∧ ((forward s).1 = Ok tt → length vals = 4%nat)
    ∧ nets (forward s).2 = nets s
    ∧ losses (forward s).2 = losses s
    ∧ grad_enabled (forward s).2 = grad_enabled s.
Proof.
  assert (Ht : triple (assigned forward_outputs (tensors s) 0) forward
                 (λ _ s', True ∧ assigned forward_outputs (tensors s) 4 s')
                 (λ s', ∃ j, (j ≤ length forward_outputs)%nat
                             ∧ assigned forward_outputs (tensors s) j s')).
  { unfold forward. assigned_steps. }
  destruct (Ht s) as [Hall Hok]; [by exists []|].
  assert (Hrest : nets (forward s).2 = nets s ∧ losses (forward s).2 = losses s
                  ∧ grad_enabled (forward s).2 = grad_enabled s).
  { repeat split; by apply frame_forward. }
  destruct Hrest as (Hn & Hlo & Hge).
  destruct (forward s) as [[[]|e] s'] eqn:Hf; cbn [fst snd] in *.
  - destruct (Hok tt eq_refl) as [_ (vals & Hl & Hv)].
    exists vals. split; [lia|]. by repeat split.
  - destruct Hall as (j & Hj & vals & Hl & Hv). cbn in Hj.
    exists vals. split; [lia|]. by repeat split.
Qed.

(** *** Which losses a training step assigns *)

Lemma triple_has_losses_keep {A} ks (m : M state A) :
  frame losses m →
  triple (has_losses ks) m (λ _ s, True ∧ has_losses ks s) (λ _, True).
Proof.
  intros Hf s Hs. split; [done|]. intros a _. split; [done|].
  unfold has_losses. by rewrite Hf.
Qed.

Lemma triple_has_losses_set ks name l :
  triple (has_losses ks) (setloss name l)
    (λ _ s, True ∧ has_losses (name :: ks) s) (λ _, True).
Proof.
  intros s Hs. split; [done|]. intros a _. split; [done|].
  intros k Hk. cbn. destruct (decide (name = k)) as [->|Hne].
  - by rewrite lookup_insert_eq.
  - rewrite lookup_insert_ne by done. apply Hs.
    apply elem_of_cons in Hk as [->|Hk]; done.
Qed.

Lemma frame_losses_optimizer_G_step : frame losses optimizer_G_step.
Proof. intros s. unfold optimizer_G_step. munfold. by destruct (optimizer_G s). Qed.

Lemma frame_losses_optimizer_D_step : frame losses optimizer_D_step.
Proof. intros s. unfold optimizer_D_step. munfold. by destruct (optimizer_D s). Qed.

Ltac frame_losses :=
  solve [ frame_pure
        | apply frame_forward; done
        | apply (frame_losses_backward (λ m, m))
        | apply frame_losses_optimizer_G_step
        | apply frame_losses_optimizer_D_step
        | (apply frame_modify; intros ?; reflexivity) ].

Ltac has_losses_steps :=
  repeat lazymatch goal with
         | |- triple _ (mbind _ _) _ _ => eapply triple_step; [|intros ? _; cbv beta]
         | |- triple _ (setloss _ _) _ _ => apply triple_has_losses_set
         | |- triple _ (if decide _ then _ else _) _ _ => case_decide
         | |- triple _ _ _ _ => apply triple_has_losses_keep; frame_losses
         end.

(** X10.  A training step that returns has assigned the loss of every name
    in [loss_names]: each [loss_<name>] that the training script prints
    exists after [optimize_parameters], with or without the identity
    terms. *)
Theorem optimize_parameters_assigns_losses (s s' : state) :
  optimize_parameters s = (Ok tt, s') →
  ∀ name, name ∈ loss_names → is_Some (losses s' !! ("loss_" +:+ name)).
Proof.
  intros Hrun.
  assert (Ht : ∃ ks, triple (has_losses []) optimize_parameters
                       (λ _ s, True ∧ has_losses ks s) (λ _, True)
                     ∧ ∀ name, name ∈ loss_names → "loss_" +:+ name ∈ ks).
  { eexists. split.
    - unfold optimize_parameters, generator_step, discriminator_step, backward_G,
        identity_losses, backward_D_A, backward_D_B, backward_D_basic,
        query_fake_A_pool, query_fake_B_pool, optimizer_G_zero_grad,
        optimizer_D_zero_grad, zero_grad, set_requires_grad.
      has_losses_steps.
    - intros name Hin. unfold loss_names in Hin.
      repeat (apply elem_of_cons in Hin as [->|Hin]; [cbn; key_in|]).
      by apply elem_of_nil in Hin. }
  destruct Ht as (ks & Ht & Hks).
  destruct (Ht s) as [_ Hok]; [by intros k Hk%elem_of_nil|].
  rewrite Hrun in Hok. destruct (Hok tt eq_refl) as [_ Hl].
  intros name Hin. by apply Hl, Hks.
Qed.

(** *** What the discriminator update leaves alone *)

Lemma frame_pair {A X Y} (f : state → X) (g : state → Y) (m : M state A) :
  frame f m → frame g m → frame (λ s, (f s, g s)) m.
Proof. intros Hf Hg s. by rewrite Hf, Hg. Qed.

Lemma triple_frame_post {A X} (f : state → X) (P : X → Prop) (φ : A → Prop)
    (m : M state A) :
  frame f m →
  (∀ s a, P (f s) → (m s).1 = Ok a → φ a) →
  triple (λ s, P (f s)) m (λ a s, φ a ∧ P (f s)) (λ s, P (f s)).
Proof.
  intros Hf Hφ s Hs. cbv beta in *. pose proof (Hf s) as Hfs.
  split; [by rewrite Hfs|]. intros a Ha. split; [by eapply Hφ|by rewrite Hfs].
Qed.

Lemma frame_tensors_backward l : frame tensors (backward l).
Proof. intros s. unfold backward. by destruct (tracked _). Qed.

Lemma frame_tensors_backward_D_basic netD real fake :
  frame tensors (backward_D_basic netD real fake).
Proof.
  unfold backward_D_basic.
  repeat first [ frame_pure | apply frame_tensors_backward
               | apply frame_bind; [|intros ?] ].
Qed.

Lemma frame_net_alter (h : network → network) (ns : list net_id) (n : net_id) :
  n ∉ ns → frame (λ s, nets s !! n) (modify (set_nets (λ m, foldr (alter h) m ns))).
Proof.
  intros Hn s. cbn. induction ns as [|a ns IH]; [done|].
  apply not_elem_of_cons in Hn as [Hne Hn]. cbn [foldr].
  rewrite lookup_alter_ne by done. by apply IH.
Qed.

Lemma frame_tensors_optimizer_D_step : frame tensors optimizer_D_step.
Proof. intros s. unfold optimizer_D_step. munfold. by destruct (optimizer_D s). Qed.

Lemma netattr_returns n s a : (netattr n s).1 = Ok a → a = n.
Proof.
  unfold netattr, getattr. destruct (nets s !! n); [|done]. by intros [= <-].
Qed.

(** X8.  The discriminator update leaves the generators as they were,
    parameters, [.grad] and [requires_grad]: the real images carry no
    history and the fake ones enter [backward_D_basic] detached, so the two
    backward passes reach the discriminators only, and the optimizer and its
    [zero_grad] were built from the discriminators alone.  This holds
    however the block ends. *)
Theorem discriminator_step_spares_generators (g : net_id) (s : state) :
  g ∈ optimizer_G_params →
  (∀ t, tensors s !! "real_A" = Some t → g ∉ leaves (tgraph t)) →
  (∀ t, tensors s !! "real_B" = Some t → g ∉ leaves (tgraph t)) →
  nets (discriminator_step s).2 !! g = nets s !! g.
Proof.
  intros Hg HA HB.
  assert (HgD : g ∉ optimizer_D_params).
  { intros Hd. by apply (disjoint_optimizers g). }
  assert (HgA : g ≠ D_A).
  { intros ->. apply HgD, list_elem_of_here. }
  assert (HgB : g ≠ D_B).
  { intros ->. apply HgD, list_elem_of_further, list_elem_of_here. }
  pose (f := λ s' : state, (nets s' !! g, tensors s')).
  pose (P := λ x : option network * gmap string (Tensor params),
               x = (nets s !! g, tensors s)).
  assert (Hkeep : ∀ A (m : M state A),
            frame (λ s', nets s' !! g) m → frame tensors m →
            triple (λ s', P (f s')) m (λ _ s', True ∧ P (f s')) (λ s', P (f s'))).
  { intros A m H1 H2. apply (triple_frame f P). by apply frame_pair. }
  assert (Hnet : ∀ n, triple (λ s', P (f s')) (netattr n)
                        (λ a s', a = n ∧ P (f s')) (λ s', P (f s'))).
  { intros n. apply (triple_frame_post f P); [frame_pure|].
    intros s0 a _. apply netattr_returns. }
  assert (Hattr : ∀ name, triple (λ s', P (f s')) (attr name)
                        (λ t s', tensors s !! name = Some t ∧ P (f s'))
                        (λ s', P (f s'))).
  { intros name. apply (triple_frame_post f P); [frame_pure|].
    intros s0 t [= _ Ht]. unfold attr, getattr. rewrite Ht.
    destruct (tensors s !! name); [|done]. by intros [= <-]. }
  assert (Ht : triple (λ s', P (f s')) discriminator_step
                 (λ _ s', True ∧ P (f s')) (λ s', P (f s'))).
  { unfold discriminator_step, backward_D_A, backward_D_B.
    eapply triple_step; [apply Hnet|intros ? ->].
    eapply triple_step; [apply Hnet|intros ? ->].
    eapply triple_step; [|intros _ _].
    { apply Hkeep; [by apply frame_net_alter|].
      apply frame_modify. by intros ?. }
    eapply triple_step; [|intros _ _].
    { apply Hkeep; unfold optimizer_D_zero_grad, zero_grad.
      - apply frame_bind; [frame_pure|intros _]. by apply frame_net_alter.
      - apply frame_bind; [frame_pure|intros _]. apply frame_modify. by intros ?. }
    eapply triple_step; [|intros _ _].
    { eapply triple_step; [|intros fake _].
      { apply Hkeep; unfold query_fake_B_pool;
          repeat first [ frame_pure | apply frame_bind; [|intros ?]
                       | (apply frame_modify; by intros ?) ]. }
      eapply triple_step; [apply Hnet|intros ? ->].
      eapply triple_step; [apply Hattr|intros real Hreal].
      eapply triple_step; [|intros loss _].
      { apply Hkeep; [|apply frame_tensors_backward_D_basic].
        apply frame_net_backward_D_basic; [done|by apply HB]. }
      apply Hkeep; apply frame_modify; by intros ?. }
    eapply triple_step; [|intros _ _].
    { eapply triple_step; [|intros fake _].
      { apply Hkeep; unfold query_fake_A_pool;
          repeat first [ frame_pure | apply frame_bind; [|intros ?]
                       | (apply frame_modify; by intros ?) ]. }
      eapply triple_step; [apply Hnet|intros ? ->].
      eapply triple_step; [apply Hattr|intros real Hreal].
      eapply triple_step; [|intros loss _].
      { apply Hkeep; [|apply frame_tensors_backward_D_basic].
        apply frame_net_backward_D_basic; [done|by apply HA]. }
      apply Hkeep; apply frame_modify; by intros ?. }
    apply Hkeep; [by apply frame_net_optimizer_D_step|].
    apply frame_tensors_optimizer_D_step. }
  destruct (Ht s) as [Hend _]; [done|]. by injection Hend.
Qed.

(** *** When the evaluation cannot return *)

Lemma triple_never {A X} (f : state → X) (P : X → Prop) (m : M state A) :
  frame f m →
  (∀ s, P (f s) → is_ok (m s).1 = false) →
  triple (λ s, P (f s)) m (λ _ s, False ∧ P (f s)) (λ s, P (f s)).
Proof.
  intros Hf Hm s Hs. cbv beta in *. pose proof (Hf s) as Hfs.
  split; [by rewrite Hfs|]. intros a Ha. specialize (Hm s Hs).
  rewrite Ha in Hm. discriminate Hm.
Qed.

Lemma never_returns {A} (P : state → Prop) (m : M state A) (E : state → Prop) s :
  triple P m (λ _ _, False) E → P s → is_ok (m s).1 = false.
Proof.
  intros Hm Hs. destruct (Hm s Hs) as [_ Hq].
  destruct (m s).1 as [a|e]; [|done]. destruct (Hq a eq_refl).
Qed.

(** X11.  [model_evaluation] cannot return on a model that was built
    without evaluation network ([use_val] off), nor with a negative
    [batch_size].  On a model without evaluation network whose [forward]
    and label construction go through, the exception is the
    [AttributeError] for [eval_net]; the state is the one [forward] left,
    with the gradient mode back to what it was. *)
Theorem model_evaluation_needs_eval_net (s : state) :
  (eval_net s = None → is_ok (model_evaluation s).1 = false)
  ∧ ((batch_size s < 0)%Z → is_ok (model_evaluation s).1 = false)
  ∧ (∀ s1 fake_A fake_B images,
       eval_net s = None →
       forward s = (Ok tt, s1) →
       tensors s1 !! "fake_A" = Some fake_A →
       tensors s1 !! "fake_B" = Some fake_B →
       cat 0 (data fake_A) (data fake_B) = Ok images →
       (0 ≤ batch_size s)%Z →
       model_evaluation s = (Err (AttributeError "eval_net"), s1)).
Proof.
  split; [|split].
  - intros Hnone.
    apply (never_returns (λ s', eval_net s' = None) _ (λ s', eval_net s' = None));
      [|done].
    unfold model_evaluation.
    eapply triple_step;
      [apply (triple_frame eval_net (λ x, x = None)), frame_forward; done|intros _ _].
    do 8 (eapply triple_step;
            [apply (triple_frame eval_net (λ x, x = None)); frame_pure|intros ? _]).
    eapply triple_step; [apply (triple_never eval_net (λ x, x = None))|intros ? []].
    + apply frame_no_grad; [done|].
      repeat first [ frame_pure | apply frame_bind; [|intros ?] ].
    + intros s0 Hs0. unfold no_grad. munfold. cbn [eval_net set_grad_enabled].
      by rewrite Hs0.
  - intros Hneg.
    apply (never_returns (λ s', (batch_size s' < 0)%Z) _ (λ s', (batch_size s' < 0)%Z));
      [|done].
    unfold model_evaluation.
    eapply triple_step;
      [apply (triple_frame batch_size (λ x, (x < 0)%Z)), frame_forward; done|intros _ _].
    do 3 (eapply triple_step;
            [apply (triple_frame batch_size (λ x, (x < 0)%Z)); frame_pure|intros ? _]).
    eapply triple_step; [|intros n Hn].
    { apply (triple_frame_post batch_size (λ x, (x < 0)%Z) (λ n, (n < 0)%Z));
        [frame_pure|]. intros s0 x Hs0 [= <-]. exact Hs0. }
    eapply triple_step;
      [apply (triple_never batch_size (λ x, (x < 0)%Z)); [frame_pure|]|intros ? []].
    intros s0 _. unfold lift, zeros, full. cbn [fst].
    destruct (n <? 0)%Z eqn:Hlt; [done|]. apply Z.ltb_ge in Hlt.
    cbv beta in Hn. lia.
  - intros s1 fake_A fake_B images Hnone Hfwd HfA HfB Hcat Hbs.
    assert (Hb1 : batch_size s1 = batch_size s).
    { pose proof (frame_forward batch_size (λ _ _, eq_refl) s) as Hf.
      by rewrite Hfwd in Hf. }
    assert (He1 : eval_net s1 = None).
    { pose proof (frame_forward eval_net (λ _ _, eq_refl) s) as Hf.
      rewrite Hfwd in Hf. cbn in Hf. by rewrite Hf. }
    destruct (zeros (batch_size s)) as [z|] eqn:Hz.
    2:{ unfold zeros, full in Hz. destruct (batch_size s <? 0)%Z eqn:Hlt; [lia|done]. }
    destruct (ones (batch_size s)) as [o|] eqn:Ho.
    2:{ unfold ones, full in Ho. destruct (batch_size s <? 0)%Z eqn:Hlt; [lia|done]. }
    pose proof (cat_labels _ _ _ Hz Ho) as Hlab.
    unfold model_evaluation.
    eapply step_ok; [exact Hfwd|cbv beta].
    do 4 cg_step.
    eapply step_ok; [apply lift_run; cg_simpl; rewrite Hb1; exact Hz|cbv beta].
    cg_step.
    eapply step_ok; [apply lift_run; cg_simpl; rewrite Hb1; exact Ho|cbv beta].
    eapply step_ok; [eapply torch_cat_run; [exact Hlab|reflexivity]|cbv beta].
    rewrite run_bind. unfold no_grad. munfold. cbn [eval_net set_grad_enabled].
    rewrite He1. by rewrite set_grad_enabled_same.
Qed.

(** ** Construction and input pre-processing *)

Context {HP : Perception}.

Lemma on_core_run {A} (m : M state A) (o : object) :
  on_core m o = ((m (core o)).1, set_core (λ _, (m (core o)).2) o).
Proof. reflexivity. Qed.

Ltac obj_simpl :=
  repeat (progress (
    cbn [core cfg isTrain self_loss_names self_visual_names self_model_names
         aux_net aux_nc hooks activation image_paths
         set_core set_cfg set_loss_names set_visual_names set_model_names
         set_aux_net set_aux_nc set_hooks set_activation set_image_paths
         after_base fst snd
         opt batch_size grad_enabled nets optimizer_G optimizer_D fake_A_pool
         fake_B_pool eval_net tensors losses
         set_tensors set_losses set_nets set_grad_enabled set_optimizer_G
         set_optimizer_D set_fake_A_pool set_fake_B_pool
         cfg_isTrain cfg_batch_size cfg_direction aux_model_path eval_net_path
         use_val input_nc output_nc pool_size train_options set_eval_net_path])).

Lemma run_step {S A B} (m : M S A) (k : A → M S B) (s s1 : S) (a : A) r :
  m s = (Ok a, s1) → k a s1 = r → (m ≫= k) s = r.
Proof. intros Hm <-. by rewrite (bind_ok _ _ _ _ _ Hm). Qed.

Lemma run_assoc {S A B C} (m : M S A) (k1 : A → M S B) (k2 : B → M S C) (s : S) r :
  (m ≫= λ a, k1 a ≫= k2) s = r → ((m ≫= k1) ≫= k2) s = r.
Proof. intros <-. rewrite !run_bind. by destruct (m s) as [[a|e] s1]. Qed.

Lemma run_err {S A B} (m : M S A) (k : A → M S B) (s s1 : S) (e : exn) :
  m s = (Err e, s1) → (m ≫= k) s = (Err e, s1).
Proof. apply bind_err. Qed.

Lemma on_core_modify (f : state → state) (o : object) :
  on_core (modify f) o = (Ok tt, set_core f o).
Proof. reflexivity. Qed.

Lemma on_core_pure {A} (m : M state A) (o : object) (a : A) :
  m (core o) = (Ok a, core o) → on_core m o = (Ok a, o).
Proof. intros Hm. unfold on_core. rewrite Hm. by destruct o. Qed.

Ltac use_eqs :=
  repeat match goal with
         | Hx : ?l = _ |- context [?l] => rewrite Hx
         end.

Ltac init_step :=
  obj_simpl; use_eqs; cbv iota; cbn [andb];
  lazymatch goal with
  | |- mbind _ (mbind _ _) _ = _ => eapply run_assoc; cbv beta
  | |- mbind _ _ _ = _ =>
      first [ eapply run_step; [first [apply on_core_modify|reflexivity]|cbv beta zeta]
            | eapply run_err; reflexivity ]
  end.

(** [__init__] on an object fresh from [BaseModel.__init__] when both
    loaded networks are found and the channel counts pass the assertion. *)
Lemma init_run (c : config) (aux : classifier) (ev : option classifier) :
  load_model_by_path (aux_model_path c) = Ok aux →
  (if use_val c
   then ∃ e, ev = Some e
             ∧ load_model_by_path (if eval_net_path c is None then aux_model_path c
                                   else eval_net_path c) = Ok e
   else ev = None) →
  (cfg_isTrain c = true → 0 < lambda_identity (train_options c) →
   input_nc c = output_nc c) →
  ∃ o, __init__ (after_base c) = (Ok tt, o)
       ∧ aux_net o = Some aux ∧ hooks o = ["layer4"] ∧ activation o = Some ∅
       ∧ isTrain o = cfg_isTrain c
       ∧ batch_size (core o) = cfg_batch_size c
       ∧ opt (core o) = train_options c
       ∧ grad_enabled (core o) = true
       ∧ tensors (core o) = ∅ ∧ losses (core o) = ∅
       ∧ self_loss_names o = loss_names
       ∧ eval_net (core o) = ev
       ∧ cfg o = (if use_val c
                  then if eval_net_path c is None
                       then set_eval_net_path (aux_model_path c) c else c
                  else c)
       ∧ nets (core o) !! G_A =
           Some {| parameters := define_G G_A (input_nc c + 3) (output_nc c);
                   grad := None; requires_grad := true |}
       ∧ nets (core o) !! G_B =
           Some {| parameters := define_G G_B (output_nc c + 3) (input_nc c);
                   grad := None; requires_grad := true |}
       ∧ nets (core o) !! D_A =
           (if cfg_isTrain c
            then Some {| parameters := define_D D_A (output_nc c);
                         grad := None; requires_grad := true |}
            else None)
       ∧ nets (core o) !! D_B =
           (if cfg_isTrain c
            then Some {| parameters := define_D D_B (input_nc c);
                         grad := None; requires_grad := true |}
            else None)
       ∧ self_model_names o =
           (if cfg_isTrain c then ["G_A"; "G_B"; "D_A"; "D_B"] else ["G_A"; "G_B"])
       ∧ self_visual_names o =
           (if cfg_isTrain c && bool_decide (0 < lambda_identity (train_options c))
            then ["real_A"; "fake_B"; "rec_A"; "heatmap_A"; "idt_B";
                  "real_B"; "fake_A"; "rec_B"; "heatmap_B"; "idt_A"]
            else ["real_A"; "fake_B"; "rec_A"; "heatmap_A";
                  "real_B"; "fake_A"; "rec_B"; "heatmap_B"])
       ∧ fake_A_pool (core o) =
           (if cfg_isTrain c then Some (new_pool (pool_size c)) else None)
       ∧ fake_B_pool (core o) =
           (if cfg_isTrain c then Some (new_pool (pool_size c)) else None)
       ∧ optimizer_G (core o) = (if cfg_isTrain c then Some new_adam else None)
       ∧ optimizer_D (core o) = (if cfg_isTrain c then Some new_adam else None).
Proof.
  intros Haux Hev Hassert.
  assert (Hio : cfg_isTrain c = true →
                bool_decide (0 < lambda_identity (train_options c)) = true →
                bool_decide (input_nc c = output_nc c) = true).
  { intros Htr Hl%bool_decide_eq_true_1. rewrite bool_decide_eq_true.
    by apply Hassert. }
  clear Hassert.
  destruct (use_val c) eqn:Huv;
    [destruct Hev as (e & -> & Hev);
     destruct (eval_net_path c) as [p|] eqn:Hp;
     [|rewrite Haux in Hev; injection Hev as <-]
    |subst ev];
    (destruct (cfg_isTrain c) eqn:Htr;
     [destruct (bool_decide (0 < lambda_identity (train_options c))) eqn:Hl;
      [specialize (Hio eq_refl eq_refl)|clear Hio]
     |clear Hio]);
    (eexists; split;
     [unfold __init__; repeat init_step; obj_simpl; use_eqs; cbv iota;
      first [apply on_core_modify|reflexivity]|]);
    obj_simpl; cbn [app andb]; map_lookups; rewrite ?lookup_empty; use_eqs;
    repeat split; reflexivity.
Qed.

(** The three ways in which [__init__] raises. *)
Lemma init_fails_aux (c : config) (e : exn) :
  load_model_by_path (aux_model_path c) = Err e →
  (__init__ (after_base c)).1 = Err e.
Proof.
  intros Haux.
  enough (∃ o, __init__ (after_base c) = (Err e, o)) as [o ->] by done.
  eexists. unfold __init__. repeat init_step.
Qed.

Lemma init_fails_eval (c : config) (aux : classifier) (e : exn) :
  load_model_by_path (aux_model_path c) = Ok aux →
  use_val c = true →
  load_model_by_path (if eval_net_path c is None then aux_model_path c
                      else eval_net_path c) = Err e →
  (__init__ (after_base c)).1 = Err e.
Proof.
  intros Haux Huv Hev.
  enough (∃ o, __init__ (after_base c) = (Err e, o)) as [o ->] by done.
  destruct (eval_net_path c) as [p|] eqn:Hp.
  - eexists. unfold __init__. repeat init_step.
  - rewrite Haux in Hev. discriminate Hev.
Qed.

Lemma init_fails_assert (c : config) (aux : classifier) (ev : option classifier) :
  load_model_by_path (aux_model_path c) = Ok aux →
  (if use_val c
   then ∃ e, ev = Some e
             ∧ load_model_by_path (if eval_net_path c is None then aux_model_path c
                                   else eval_net_path c) = Ok e
   else ev = None) →
  cfg_isTrain c = true →
  0 < lambda_identity (train_options c) →
  input_nc c ≠ output_nc c →
  ∃ o, __init__ (after_base c) = (Err AssertionError, o)
       ∧ (∀ n, is_Some (nets (core o) !! n))
       ∧ fake_A_pool (core o) = None ∧ fake_B_pool (core o) = None
       ∧ optimizer_G (core o) = None ∧ optimizer_D (core o) = None.
Proof.
  intros Haux Hev Htr Hl%(bool_decide_eq_true_2 _) Hio%(bool_decide_eq_false_2 _).
  destruct (use_val c) eqn:Huv;
    [destruct Hev as (e & -> & Hev);
     destruct (eval_net_path c) as [p|] eqn:Hp;
     [|rewrite Haux in Hev; injection Hev as <-]
    |subst ev];
    (eexists; split; [unfold __init__; repeat init_step|]);
    obj_simpl; (split; [|by repeat split]);
    intros []; map_lookups; by eexists.
Qed.

(** What a return of [__init__] tells. *)
Lemma init_ok_inv (c : config) :
  (__init__ (after_base c)).1 = Ok tt →
  ∃ aux ev,
    load_model_by_path (aux_model_path c) = Ok aux
    ∧ (if use_val c
       then ∃ e, ev = Some e
                 ∧ load_model_by_path (if eval_net_path c is None then aux_model_path c
                                       else eval_net_path c) = Ok e
       else ev = None)
    ∧ (cfg_isTrain c = true → 0 < lambda_identity (train_options c) →
       input_nc c = output_nc c).
Proof.
  intros Hok.
  destruct (load_model_by_path (aux_model_path c)) as [aux|e] eqn:Haux.
  2:{ rewrite (init_fails_aux c e Haux) in Hok. discriminate Hok. }
  assert (Hev : ∃ ev, if use_val c
                then ∃ e, ev = Some e
                          ∧ load_model_by_path
                              (if eval_net_path c is None then aux_model_path c
                               else eval_net_path c) = Ok e
                else ev = None).
  { destruct (use_val c) eqn:Huv; [|by exists None].
    destruct (load_model_by_path (if eval_net_path c is None then aux_model_path c
                                  else eval_net_path c)) as [ev|e] eqn:Hev.
    - exists (Some ev). by exists ev.
    - rewrite (init_fails_eval c aux e Haux Huv Hev) in Hok. discriminate Hok. }
  destruct Hev as [ev Hev]. exists aux, ev. split; [done|]. split; [done|].
  intros Htr Hl.
  destruct (decide (input_nc c = output_nc c)) as [Hio|Hio]; [done|].
  destruct (init_fails_assert c aux ev Haux Hev Htr Hl Hio) as (o & Hrun & _).
  rewrite Hrun in Hok. discriminate Hok.
Qed.

(** X15.  On an object fresh from the base class, [__init__] returns
    exactly when the auxiliary network can be loaded from [aux_model_path],
    with [use_val] the evaluation network can be loaded from [eval_net_path]
    (from [aux_model_path] when that is [None]), and, in training with
    [lambda_identity > 0], [input_nc] equals [output_nc].  The
    constructors of networks, image pools, criteria and optimizers are
    taken not to raise, and the loaded network to have a [layer4]. *)
Theorem cyclegan_init_returns_iff (c : config) :
  (__init__ (after_base c)).1 = Ok tt ↔
    is_ok (load_model_by_path (aux_model_path c)) = true
    ∧ (use_val c = true →
       is_ok (load_model_by_path (if eval_net_path c is None then aux_model_path c
                                  else eval_net_path c)) = true)
    ∧ (cfg_isTrain c = true → 0 < lambda_identity (train_options c) →
       input_nc c = output_nc c).
Proof.
  split.
  - intros (aux & ev & Haux & Hev & Hassert)%init_ok_inv.
    rewrite Haux. split; [done|]. split; [|done].
    intros Huv. rewrite Huv in Hev. destruct Hev as (e & _ & ->). done.
  - intros (Haux & Hev & Hassert).
    destruct (load_model_by_path (aux_model_path c)) as [aux|] eqn:Ha; [|done].
    destruct (use_val c) eqn:Huv.
    + specialize (Hev eq_refl).
      destruct (load_model_by_path (if eval_net_path c is None then aux_model_path c
                                    else eval_net_path c)) as [e|] eqn:He; [|done].
      destruct (init_run c aux (Some e)) as (o & -> & _); try done.
      rewrite Huv. by exists e.
    + destruct (init_run c aux None) as (o & -> & _); try done.
      by rewrite Huv.
Qed.

(** X16.  What [__init__] builds when it returns: the networks that exist
    are those of [model_names] (as [net<name>]), both generators always and
    both discriminators in training only, each requiring gradients and
    without gradient yet; optimizers and image pools exist in training only;
    the evaluation network exists exactly with [use_val], and without
    [eval_net_path] it is the auxiliary network loaded a second time, the
    path being written back into the caller's options; one hook named
    [layer4] is registered and the activation dictionary is empty; no tensor
    or loss is assigned; and [idt_A] is listed among the visuals exactly in
    training with [lambda_identity > 0]. *)
Theorem cyclegan_init_builds (c : config) (o : object) :
  __init__ (after_base c) = (Ok tt, o) →
  (∀ n, is_Some (nets (core o) !! n)
        ↔ net_name n ∈ (λ name, "net" +:+ name) <$> self_model_names o)
  ∧ (∀ n net, nets (core o) !! n = Some net → requires_grad net = true ∧ grad net = None)
  ∧ (if isTrain o
     then is_Some (optimizer_G (core o)) ∧ is_Some (optimizer_D (core o))
          ∧ is_Some (fake_A_pool (core o)) ∧ is_Some (fake_B_pool (core o))
          ∧ self_model_names o = ["G_A"; "G_B"; "D_A"; "D_B"]
     else optimizer_G (core o) = None ∧ optimizer_D (core o) = None
          ∧ fake_A_pool (core o) = None ∧ fake_B_pool (core o) = None
          ∧ self_model_names o = ["G_A"; "G_B"])
  ∧ (is_Some (eval_net (core o)) ↔ use_val c = true)
  ∧ (use_val c = true → eval_net_path c = None →
     eval_net_path (cfg o) = aux_model_path c ∧ eval_net (core o) = aux_net o)
  ∧ isTrain o = cfg_isTrain c
  ∧ hooks o = ["layer4"] ∧ activation o = Some ∅ ∧ is_Some (aux_net o)
  ∧ self_loss_names o = loss_names
  ∧ batch_size (core o) = cfg_batch_size c
  ∧ opt (core o) = train_options c
  ∧ tensors (core o) = ∅ ∧ losses (core o) = ∅
  ∧ ("idt_A" ∈ self_visual_names o
     ↔ isTrain o = true ∧ 0 < lambda_identity (opt (core o))).
Proof.
  intros Hrun.
  destruct (init_ok_inv c) as (aux & ev & Haux & Hev & Hassert); [by rewrite Hrun|].
  destruct (init_run c aux ev Haux Hev Hassert)
    as (o' & Hrun' & Hax & Hh & Hact & Htr & Hbs & Hopt & Hge & Hts & Hls & Hln
        & Hevn & Hcfg & HGA & HGB & HDA & HDB & Hmn & Hvn & HpA & HpB & HoG & HoD).
  rewrite Hrun in Hrun'. injection Hrun' as <-.
  repeat split; try done.
  - intros [net Hn]. rewrite Hmn.
    destruct n; cbn; destruct (cfg_isTrain c); try (rewrite Hn in *; done);
      repeat first [apply list_elem_of_here | apply list_elem_of_further].
  - intros Hin. rewrite Hmn in Hin.
    destruct n; rewrite ?HGA, ?HGB, ?HDA, ?HDB; try done;
      destruct (cfg_isTrain c); try done; cbn in Hin;
      repeat (apply elem_of_cons in Hin as [Hin|Hin]; [discriminate Hin|]);
      by apply elem_of_nil in Hin.
  - destruct n; rewrite ?HGA, ?HGB, ?HDA, ?HDB in H0;
      try destruct (cfg_isTrain c); by simplify_eq.
  - destruct n; rewrite ?HGA, ?HGB, ?HDA, ?HDB in H0;
      try destruct (cfg_isTrain c); by simplify_eq.
  - rewrite Htr, HoG, HoD, HpA, HpB, Hmn. by destruct (cfg_isTrain c).
  - rewrite Hevn. intros [e He]. destruct (use_val c); [done|]. by subst ev.
  - intros Huv. rewrite Hevn. rewrite Huv in Hev. destruct Hev as (e & -> & _). done.
  - rewrite Hcfg, H0, H1. done.
  - rewrite Hevn, Hax. rewrite H0, H1 in Hev. destruct Hev as (e & -> & He).
    rewrite Haux in He. by injection He as ->.
  - rewrite Hvn in H0. rewrite Htr.
    destruct (cfg_isTrain c); [|cbn in H0; set_solver].
    done.
  - rewrite Hvn in H0. rewrite Hopt.
    destruct (cfg_isTrain c); cbn [andb] in H0; [|set_solver].
    destruct (bool_decide (0 < lambda_identity (train_options c))) eqn:Hl;
      [by apply bool_decide_eq_true_1 in Hl|set_solver].
  - intros [Ht Hl]. rewrite Hvn. rewrite Htr in Ht. rewrite Hopt in Hl.
    rewrite Ht. cbn [andb]. rewrite bool_decide_eq_true_2 by done.
    do 9 apply list_elem_of_further. apply list_elem_of_here.
Qed.

(** *** Input pre-processing *)

Lemma bind_inv {S A B} (m : M S A) (k : A → M S B) (s s' : S) (b : B) :
  (m ≫= k) s = (Ok b, s') → ∃ a s1, m s = (Ok a, s1) ∧ k a s1 = (Ok b, s').
Proof.
  rewrite run_bind. destruct (m s) as [[a|e] s1]; [|done].
  intros Hk. by exists a, s1.
Qed.

Lemma gets_inv {S A} (f : S → A) (s s' : S) (a : A) :
  gets f s = (Ok a, s') → a = f s ∧ s' = s.
Proof. unfold gets. by intros [= <- <-]. Qed.

Lemma modify_inv {S} (f : S → S) (s s' : S) (u : unit) :
  modify f s = (Ok u, s') → s' = f s.
Proof. unfold modify. by intros [= <-]. Qed.

Lemma lift_inv {S A} (r : result A) (s s' : S) (a : A) :
  lift r s = (Ok a, s') → r = Ok a ∧ s' = s.
Proof. unfold lift. by intros [= -> <-]. Qed.

Lemma getitem_inv {S A} (d : gmap string A) (key : string) (s s' : S) (v : A) :
  getitem d key s = (Ok v, s') → d !! key = Some v ∧ s' = s.
Proof. unfold getitem. destruct (d !! key); [|done]. by intros [= <- <-]. Qed.

Lemma to_device_inv {S} (v : pyval) (s s' : S) (t : tensor) :
  to_device v s = (Ok t, s') → v = PyTensor t ∧ s' = s.
Proof. destruct v; [|done]. by intros [= <- <-]. Qed.

Lemma getattr_inv {S A} (name : string) (f : S → option A) (s s' : S) (a : A) :
  getattr name f s = (Ok a, s') → f s = Some a ∧ s' = s.
Proof. unfold getattr. destruct (f s); [|done]. by intros [= <- <-]. Qed.

Lemma store_inv (name : string) (t : Tensor params) (o o' : object) (u : unit) :
  store name t o = (Ok u, o') → o' = set_core (set_tensors (insert name t)) o.
Proof. by intros [= <-]. Qed.

Lemma load_inv (name : string) (o o' : object) (t : Tensor params) :
  load name o = (Ok t, o') → tensors (core o) !! name = Some t ∧ o' = o.
Proof.
  unfold load, on_core, attr, getattr. destruct (tensors (core o) !! name); [|done].
  intros [= <- <-]. by destruct o.
Qed.

Lemma get_activation_inv (name : string) (a : tensor) (o o' : object) (u : unit) :
  get_activation name a o = (Ok u, o') →
  ∃ act, activation o = Some act ∧ o' = set_activation (<[name := a]> act) o.
Proof.
  unfold get_activation. intros (act & o1 & [Hact ->]%getattr_inv & ->%modify_inv)%bind_inv.
  by exists act.
Qed.

Lemma hooks_inv (a : tensor) (hs : list string) (o o' : object) (u : unit) :
  foldr (λ name rest, get_activation name a;; rest) (mret tt) hs o = (Ok u, o') →
  o' = foldl (λ o name, match activation o with
                        | Some act => set_activation (<[name := a]> act) o
                        | None => o
                        end) o hs.
Proof.
  revert o. induction hs as [|name hs IH]; intros o; cbn [foldr foldl].
  - by intros [= <-].
  - intros (u1 & o1 & (act & Hact & ->)%get_activation_inv & Hrest)%bind_inv.
    rewrite Hact. by apply IH.
Qed.

Lemma call_aux_net_inv (x out : Tensor params) (o o' : object) :
  call_aux_net x o = (Ok out, o') →
  ∃ net, aux_net o = Some net
         ∧ (aux_fn net (data x)).2 = Ok (data out)
         ∧ tgraph out = recorded (grad_enabled (core o)) (GEval (tgraph x)) (data out)
         ∧ o' = hooked (aux_fn net (data x)).1 o.
Proof.
  unfold call_aux_net.
  intros (net & o1 & [Hnet ->]%getattr_inv & Hr)%bind_inv. cbv zeta in Hr.
  apply bind_inv in Hr as (hs & o1 & [-> ->]%gets_inv & Hr).
  apply bind_inv in Hr as (u & o1 & Hh & Hr).
  apply bind_inv in Hr as (dat & o2 & [Hout ->]%lift_inv & Hr).
  apply bind_inv in Hr as (ge & o2 & Hge & Hr).
  injection Hr as <- <-.
  exists net. split; [done|]. cbn [data tgraph]. split; [exact Hout|].
  assert (Ho1 : o1 = hooked (aux_fn net (data x)).1 o).
  { unfold hooked. destruct (aux_fn net (data x)).1 as [a|].
    - by apply hooks_inv in Hh.
    - by injection Hh as <-. }
  unfold on_core, gets in Hge. cbn [fst snd] in Hge. injection Hge as <- <-.
  assert (Hcore : ∀ a o, core (hooked a o) = core o).
  { intros [a|] o0; [|done]. unfold hooked. generalize (hooks o0).
    intros hs. revert o0. induction hs as [|n hs IH]; intros o0; [done|].
    cbn [foldl]. rewrite IH. by destruct (activation o0). }
  split; [by rewrite Ho1, Hcore|]. rewrite <- Ho1. by destruct o1.
Qed.


Lemma hooked_keeps {X} (f : object → X) a o :
  (∀ act o, f (set_activation act o) = f o) → f (hooked a o) = f o.
Proof.
  intros Hf. destruct a as [a|]; [|done]. unfold hooked. generalize (hooks o).
  intros hs. revert o. induction hs as [|n hs IH]; intros o; [done|].
  cbn [foldl]. rewrite IH. destruct (activation o); [apply Hf|done].
Qed.

Lemma core_hooked a o : core (hooked a o) = core o.
Proof. by apply hooked_keeps. Qed.

Lemma cfg_hooked a o : cfg (hooked a o) = cfg o.
Proof. by apply hooked_keeps. Qed.

Lemma image_paths_hooked a o : image_paths (hooked a o) = image_paths o.
Proof. by apply hooked_keeps. Qed.

Lemma hooks_hooked a o : hooks (hooked a o) = hooks o.
Proof. by apply hooked_keeps. Qed.

Lemma aux_net_hooked a o : aux_net (hooked a o) = aux_net o.
Proof. by apply hooked_keeps. Qed.

Ltac input_simpl_in H :=
  repeat (progress (
    rewrite ?core_hooked, ?cfg_hooked, ?image_paths_hooked, ?hooks_hooked,
      ?aux_net_hooked in H;
    cbn [core cfg isTrain self_loss_names self_visual_names self_model_names
         aux_net aux_nc hooks activation image_paths
         set_core set_cfg set_loss_names set_visual_names set_model_names
         set_aux_net set_aux_nc set_hooks set_activation set_image_paths
         fst snd
         opt batch_size grad_enabled nets optimizer_G optimizer_D fake_A_pool
         fake_B_pool eval_net tensors losses
         set_tensors set_losses set_nets set_grad_enabled set_optimizer_G
         set_optimizer_D set_fake_A_pool set_fake_B_pool] in H)).

Ltac inv_op Hm :=
  first [ apply gets_inv in Hm as [-> ->]
        | apply getitem_inv in Hm as [Hm ->]
        | apply to_device_inv in Hm as [-> ->]
        | apply store_inv in Hm as ->
        | apply load_inv in Hm as [Hm ->];
          input_simpl_in Hm;
          repeat first [rewrite lookup_insert_eq in Hm
                       | rewrite lookup_insert_ne in Hm by done];
          try injection Hm as <-
        | apply modify_inv in Hm as ->
        | apply getattr_inv in Hm as [Hm ->]
        | apply lift_inv in Hm as [Hm ->]
        | apply call_aux_net_inv in Hm as (? & ? & ? & ? & ->) ].

Ltac inv_run H :=
  cbv beta zeta in H;
  lazymatch type of H with
  | mbind _ _ _ = (Ok _, _) =>
      let Hm := fresh "Hm" in
      apply bind_inv in H as (? & ? & Hm & H); inv_run Hm; inv_run H
  | _ => inv_op H
  end.

Ltac input_simpl :=
  repeat (progress (
    rewrite ?core_hooked, ?cfg_hooked, ?image_paths_hooked, ?hooks_hooked,
      ?aux_net_hooked;
    cbn [core cfg isTrain self_loss_names self_visual_names self_model_names
         aux_net aux_nc hooks activation image_paths
         set_core set_cfg set_loss_names set_visual_names set_model_names
         set_aux_net set_aux_nc set_hooks set_activation set_image_paths
         fst snd
         opt batch_size grad_enabled nets optimizer_G optimizer_D fake_A_pool
         fake_B_pool eval_net tensors losses
         set_tensors set_losses set_nets set_grad_enabled set_optimizer_G
         set_optimizer_D set_fake_A_pool set_fake_B_pool])).

(** X17.  When [set_input] returns, on any object: [real_A] and [real_B]
    are the tensors of the keys [A] and [B] of the sample, in this order
    exactly when [opt.direction] is the string [AtoB] and swapped for every
    other value; [image_paths] is the entry [A_paths] (or [B_paths]);
    [aux_A] and [aux_B] are fresh tensors without history whose first
    dimension was added by [unsqueeze(0)]; the outputs of the auxiliary
    network and the heat maps are assigned; no other tensor attribute, and
    nothing else of the training state, of the options, of the hooks or of
    the auxiliary network has changed. *)
Theorem cyclegan_set_input_assigns (input : gmap string pyval) (o o' : object) :
  set_input input o = (Ok tt, o') →
  let AtoB := bool_decide (cfg_direction (cfg o) = "AtoB") in
  ∃ ta tb pA pB,
    input !! (if AtoB then "A" else "B") = Some (PyTensor ta)
    ∧ input !! (if AtoB then "B" else "A") = Some (PyTensor tb)
    ∧ image_paths o' = input !! (if AtoB then "A_paths" else "B_paths")
    ∧ tensors (core o') !! "real_A" = Some (leaf ta)
    ∧ tensors (core o') !! "real_B" = Some (leaf tb)
    ∧ tensors (core o') !! "aux_A" = Some (leaf (unsqueeze0 pA))
    ∧ tensors (core o') !! "aux_B" = Some (leaf (unsqueeze0 pB))
    ∧ (∀ name, name ∈ ["aux_A_out"; "aux_B_out"; "heatmap_A"; "heatmap_B"] →
               is_Some (tensors (core o') !! name))
    ∧ (∀ name, name ∉ ["real_A"; "real_B"; "aux_A_out"; "aux_B_out"; "heatmap_A";
                       "heatmap_B"; "aux_A"; "aux_B"] →
               tensors (core o') !! name = tensors (core o) !! name)
    ∧ core o' = set_tensors (λ _, tensors (core o')) (core o)
    ∧ cfg o' = cfg o ∧ hooks o' = hooks o ∧ aux_net o' = aux_net o.
Proof.
  intros Hrun AtoB. unfold set_input, permute_unsqueeze, reassign in Hrun.
  inv_run Hrun.
  match goal with
  | HA : permute201 (data (leaf (?rA.2))) = Ok ?pA,
    HB : permute201 (data (leaf (?rB.2))) = Ok ?pB,
    H1 : input !! _ = Some (PyTensor ?ta),
    H2 : input !! _ = Some (PyTensor ?tb),
    H3 : input !! _ = Some ?p |- _ =>
      lazymatch type of H1 with context [if _ then "A" else "B"] =>
      lazymatch type of H2 with context [if _ then "B" else "A"] =>
        exists ta, tb, pA, pB; subst AtoB; rewrite H1, H2, H3
      end end
  end.
  input_simpl. map_lookups.
  repeat split; try done.
  - intros name Hn. repeat (apply elem_of_cons in Hn as [->|Hn]; [by map_lookups|]).
    by apply elem_of_nil in Hn.
  - intros name Hn.
    repeat (rewrite lookup_insert_ne;
            [|intros <-; apply Hn;
              repeat first [apply list_elem_of_here | apply list_elem_of_further]]).
    done.
Qed.

Lemma object_eq (o1 o2 : object) :
  core o1 = core o2 → cfg o1 = cfg o2 → isTrain o1 = isTrain o2 →
  self_loss_names o1 = self_loss_names o2 →
  self_visual_names o1 = self_visual_names o2 →
  self_model_names o1 = self_model_names o2 →
  aux_net o1 = aux_net o2 → aux_nc o1 = aux_nc o2 → hooks o1 = hooks o2 →
  activation o1 = activation o2 → image_paths o1 = image_paths o2 → o1 = o2.
Proof. destruct o1, o2. cbn. by intros -> -> -> -> -> -> -> -> -> -> ->. Qed.

Lemma state_eq (s1 s2 : state) :
  opt s1 = opt s2 → batch_size s1 = batch_size s2 →
  grad_enabled s1 = grad_enabled s2 → nets s1 = nets s2 →
  optimizer_G s1 = optimizer_G s2 → optimizer_D s1 = optimizer_D s2 →
  fake_A_pool s1 = fake_A_pool s2 → fake_B_pool s1 = fake_B_pool s2 →
  eval_net s1 = eval_net s2 → tensors s1 = tensors s2 → losses s1 = losses s2 →
  s1 = s2.
Proof. destruct s1, s2. cbn. by intros -> -> -> -> -> -> -> -> -> -> ->. Qed.

Lemma load_run (name : string) (o : object) (t : Tensor params) :
  tensors (core o) !! name = Some t → load name o = (Ok t, o).
Proof. intros Ht. apply on_core_pure. by apply getattr_ok. Qed.

Lemma store_run (name : string) (t : Tensor params) (o : object) :
  store name t o = (Ok tt, set_core (set_tensors (insert name t)) o).
Proof. reflexivity. Qed.

Lemma getitem_run {S A} (d : gmap string A) (key : string) (v : A) (s : S) :
  d !! key = Some v → getitem d key s = (Ok v, s).
Proof. intros Hd. unfold getitem. by rewrite Hd. Qed.

Lemma lift_ok {S A} (r : result A) (a : A) (s : S) : r = Ok a → lift r s = (Ok a, s).
Proof. by intros ->. Qed.

Lemma call_aux_net_run (x : Tensor params) (o : object) net act la out :
  aux_net o = Some net → hooks o = ["layer4"] → activation o = Some act →
  aux_fn net (data x) = (Some la, Ok out) →
  call_aux_net x o =
    (Ok {| data := out;
           tgraph := recorded (grad_enabled (core o)) (GEval (tgraph x)) out |},
     set_activation (<["layer4" := la]> act) o).
Proof.
  intros Hnet Hh Hact Hfn. unfold call_aux_net.
  eapply run_step; [by apply getattr_ok|]. cbv beta zeta.
  eapply run_step; [reflexivity|]. cbv beta. rewrite Hfn, Hh. cbn [fst snd foldr].
  eapply run_assoc. eapply run_assoc. unfold get_activation.
  eapply run_step; [by apply getattr_ok|]. cbv beta.
  eapply run_step; [reflexivity|]. cbv beta.
  eapply run_step; [reflexivity|]. cbv beta.
  eapply run_step; [reflexivity|]. cbv beta.
  eapply run_step; [apply on_core_pure; reflexivity|]. cbv beta.
  reflexivity.
Qed.

Ltac input_op :=
  lazymatch goal with
  | |- store _ _ _ = _ => apply store_run
  | |- load _ _ = _ => apply load_run; input_simpl; map_lookups; reflexivity
  | |- getitem _ _ _ = _ =>
      apply getitem_run; first [eassumption | input_simpl; by map_lookups]
  | |- getattr _ _ _ = _ => apply getattr_ok; input_simpl; reflexivity
  | |- lift _ _ = _ => apply lift_ok; cbn [data leaf]; eassumption
  | |- call_aux_net _ _ = _ =>
      eapply call_aux_net_run;
      [input_simpl; eassumption | input_simpl; eassumption
      |input_simpl; first [eassumption|reflexivity]
      |cbn [data leaf]; eassumption]
  | |- _ => reflexivity
  end.

Ltac input_step :=
  lazymatch goal with
  | |- mbind _ (mbind _ _) _ = _ => eapply run_assoc; cbv beta
  | |- mbind _ _ _ = _ => eapply run_step; [input_op|cbv beta zeta]
  end.

(** [set_input] on an object with one hook named [layer4], when every
    step finds what it needs. *)
Lemma cyclegan_set_input_run (input : gmap string pyval) (o : object) net act
    ta tb paths la lb outA outB hA fA hB fB pA pB :
  hooks o = ["layer4"] → aux_net o = Some net → activation o = Some act →
  let AtoB := bool_decide (cfg_direction (cfg o) = "AtoB") in
  input !! (if AtoB then "A" else "B") = Some (PyTensor ta) →
  input !! (if AtoB then "B" else "A") = Some (PyTensor tb) →
  input !! (if AtoB then "A_paths" else "B_paths") = Some paths →
  aux_fn net ta = (Some la, Ok outA) →
  aux_fn net tb = (Some lb, Ok outB) →
  calculate_heatmap ta la = Ok (hA, fA) →
  calculate_heatmap tb lb = Ok (hB, fB) →
  permute201 fA = Ok pA → permute201 fB = Ok pB →
  set_input input o =
    (Ok tt,
     set_core (set_tensors (λ T,
         <["aux_B" := leaf (unsqueeze0 pB)]> (<["aux_A" := leaf (unsqueeze0 pA)]>
        (<["heatmap_B" := leaf hB]> (<["heatmap_A" := leaf hA]>
        (<["aux_B_out" := {| data := outB;
                             tgraph := recorded (grad_enabled (core o))
                                         (GEval (tgraph (leaf tb))) outB |}]>
        (<["aux_A_out" := {| data := outA;
                             tgraph := recorded (grad_enabled (core o))
                                         (GEval (tgraph (leaf ta))) outA |}]>
        (<["real_B" := leaf tb]> (<["real_A" := leaf ta]> T)))))))))
       (set_image_paths paths (set_activation (<["layer4" := lb]> act) o))).
Proof.
  intros Hh Hnet Hact AtoB HA HB HP' HfA HfB HhA HhB HpA HpB.
  unfold set_input, permute_unsqueeze, reassign. fold AtoB.
  repeat input_step.
  rewrite store_run. f_equal.
  apply object_eq; input_simpl; try reflexivity.
  - apply state_eq; input_simpl; try reflexivity.
    cbn [leaf data fst snd]. apply map_eq. intros k.
    destruct (decide (k = "aux_B")) as [->|]; [by map_lookups|].
    destruct (decide (k = "aux_A")) as [->|]; [by map_lookups|].
    destruct (decide (k = "heatmap_B")) as [->|]; [by map_lookups|].
    destruct (decide (k = "heatmap_A")) as [->|]; [by map_lookups|].
    destruct (decide (k = "aux_B_out")) as [->|]; [by map_lookups|].
    destruct (decide (k = "aux_A_out")) as [->|]; [by map_lookups|].
    map_lookups. symmetry. by map_lookups.
  - by rewrite insert_insert_eq.
Qed.

Lemma activation_hooked la o act :
  hooks o = ["layer4"] → activation o = Some act →
  activation (hooked (Some la) o) = Some (<["layer4" := la]> act).
Proof. intros Hh Hact. unfold hooked. rewrite Hh. cbn [foldl]. by rewrite Hact. Qed.

Lemma set_input_finds (input : gmap string pyval) (o o' : object) net act :
  hooks o = ["layer4"] → aux_net o = Some net → activation o = Some act →
  (∀ x, is_ok (aux_fn net x).2 = true → is_Some (aux_fn net x).1) →
  set_input input o = (Ok tt, o') →
  let AtoB := bool_decide (cfg_direction (cfg o) = "AtoB") in
  ∃ ta tb paths la lb outA outB hA fA hB fB pA pB,
    input !! (if AtoB then "A" else "B") = Some (PyTensor ta)
    ∧ input !! (if AtoB then "B" else "A") = Some (PyTensor tb)
    ∧ input !! (if AtoB then "A_paths" else "B_paths") = Some paths
    ∧ aux_fn net ta = (Some la, Ok outA)
    ∧ aux_fn net tb = (Some lb, Ok outB)
    ∧ calculate_heatmap ta la = Ok (hA, fA)
    ∧ calculate_heatmap tb lb = Ok (hB, fB)
    ∧ permute201 fA = Ok pA ∧ permute201 fB = Ok pB.
Proof.
  intros Hh Hnet Hact Hreach Hrun AtoB.
  unfold set_input, permute_unsqueeze, reassign in Hrun.
  inv_run Hrun.
  repeat match goal with
         | Hx : aux_net _ = Some ?n |- _ =>
             input_simpl_in Hx; rewrite Hnet in Hx; injection Hx as <-
         end.
  cbn [data leaf] in *.
  lazymatch goal with
  | HA : input !! (if _ then "A" else "B") = Some (PyTensor ?ta),
    HB : input !! (if _ then "B" else "A") = Some (PyTensor ?tb),
    HP' : input !! (if _ then "A_paths" else "B_paths") = Some ?paths,
    HoA : (aux_fn net ?ta).2 = Ok ?outA,
    HoB : (aux_fn net ?tb).2 = Ok ?outB,
    HactA : activation (set_core _ (hooked (aux_fn net ?ta).1 _)) = Some ?actA,
    HactB : activation (set_core _ (hooked (aux_fn net ?tb).1 _)) = Some ?actB,
    HlA : ?actA !! "layer4" = Some ?la,
    HlB : ?actB !! "layer4" = Some ?lb,
    HhA : calculate_heatmap ?ta ?la = Ok ?rA,
    HhB : calculate_heatmap ?tb ?lb = Ok ?rB,
    HpA : permute201 (?rA.2) = Ok ?pA,
    HpB : permute201 (?rB.2) = Ok ?pB |- _ =>
      destruct (Hreach ta) as [la' Hla]; [by rewrite HoA|];
      destruct (Hreach tb) as [lb' Hlb]; [by rewrite HoB|];
      rewrite Hla in HactA; rewrite Hla, Hlb in HactB;
      input_simpl_in HactA; input_simpl_in HactB;
      erewrite activation_hooked in HactA;
        [|input_simpl; exact Hh|input_simpl; exact Hact];
      erewrite activation_hooked in HactB;
        [|input_simpl; exact Hh
         |input_simpl; erewrite activation_hooked;
          [reflexivity|input_simpl; exact Hh|input_simpl; exact Hact]];
      injection HactA as <-; injection HactB as <-;
      rewrite lookup_insert_eq in HlA; rewrite lookup_insert_eq in HlB;
      injection HlA as ->; injection HlB as ->;
      exists ta, tb, paths, la, lb, outA, outB, rA.1, rA.2, rB.1, rB.2, pA, pB;
      destruct rA, rB; destruct (aux_fn net ta), (aux_fn net tb);
      cbn [fst snd] in *; subst; by repeat split
  end.
Qed.

(** X18.  On a model with the one hook that [__init__] registers, and an
    auxiliary network that passes [layer4] whenever it returns, [set_input]
    returns exactly when the sample has the three keys it reads with
    tensors for the images, the auxiliary network accepts both images,
    [calculate_heatmap] accepts each image with the activation of its own
    pass, and both feature maps it returns have three dimensions.  The
    object it leaves is then this one: the feature map of [real_A] comes
    from the activation recorded during the pass on [real_A], although both
    passes write the same entry [layer4], and the activation dictionary ends
    with the activation of [real_B]. *)
Theorem cyclegan_set_input_returns_iff (input : gmap string pyval) (o o' : object) net act :
  hooks o = ["layer4"] → aux_net o = Some net → activation o = Some act →
  (∀ x, is_ok (aux_fn net x).2 = true → is_Some (aux_fn net x).1) →
  let AtoB := bool_decide (cfg_direction (cfg o) = "AtoB") in
  set_input input o = (Ok tt, o') ↔
  ∃ ta tb paths la lb outA outB hA fA hB fB pA pB,
    input !! (if AtoB then "A" else "B") = Some (PyTensor ta)
    ∧ input !! (if AtoB then "B" else "A") = Some (PyTensor tb)
    ∧ input !! (if AtoB then "A_paths" else "B_paths") = Some paths
    ∧ aux_fn net ta = (Some la, Ok outA)
    ∧ aux_fn net tb = (Some lb, Ok outB)
    ∧ calculate_heatmap ta la = Ok (hA, fA)
    ∧ calculate_heatmap tb lb = Ok (hB, fB)
    ∧ permute201 fA = Ok pA ∧ permute201 fB = Ok pB
    ∧ o' = set_core (set_tensors (λ T,
               <["aux_B" := leaf (unsqueeze0 pB)]> (<["aux_A" := leaf (unsqueeze0 pA)]>
              (<["heatmap_B" := leaf hB]> (<["heatmap_A" := leaf hA]>
              (<["aux_B_out" := {| data := outB;
                                   tgraph := recorded (grad_enabled (core o))
                                               (GEval (tgraph (leaf tb))) outB |}]>
              (<["aux_A_out" := {| data := outA;
                                   tgraph := recorded (grad_enabled (core o))
                                               (GEval (tgraph (leaf ta))) outA |}]>
              (<["real_B" := leaf tb]> (<["real_A" := leaf ta]> T)))))))))
             (set_image_paths paths (set_activation (<["layer4" := lb]> act) o)).
Proof.
  intros Hh Hnet Hact Hreach AtoB. split.
  - intros Hrun.
    destruct (set_input_finds input o o' net act Hh Hnet Hact Hreach Hrun)
      as (ta & tb & paths & la & lb & outA & outB & hA & fA & hB & fB & pA & pB
          & HA & HB & HP' & HfA & HfB & HhA & HhB & HpA & HpB).
    exists ta, tb, paths, la, lb, outA, outB, hA, fA, hB, fB, pA, pB.
    do 9 (split; [done|]).
    rewrite (cyclegan_set_input_run input o net act ta tb paths la lb outA outB hA fA hB fB
               pA pB Hh Hnet Hact HA HB HP' HfA HfB HhA HhB HpA HpB) in Hrun.
    by injection Hrun.
  - intros (ta & tb & paths & la & lb & outA & outB & hA & fA & hB & fB & pA & pB
            & HA & HB & HP' & HfA & HfB & HhA & HhB & HpA & HpB & ->).
    by apply (cyclegan_set_input_run input o net act ta tb paths la lb outA outB hA fA hB fB).
Qed.

Ltac inv_state_op Hm :=
  first [ apply gets_inv in Hm as [-> ->]
        | apply modify_inv in Hm as ->
        | apply getattr_inv in Hm as [Hm ->]; cbv beta in Hm;
          cbn [tensors set_tensors nets set_nets] in Hm;
          repeat first [rewrite lookup_insert_eq in Hm
                       | rewrite lookup_insert_ne in Hm by done]
        | apply lift_inv in Hm as [Hm ->] ].

Ltac inv_state H :=
  cbv beta zeta in H;
  lazymatch type of H with
  | mbind _ _ _ = (Ok _, _) =>
      let Hm := fresh "Hm" in
      apply bind_inv in H as (? & ? & Hm & H); inv_state Hm; inv_state H
  | _ => inv_state_op H
  end.

Lemma cat_t_inv ge d (a b x : Tensor params) :
  cat_t ge d a b = Ok x → sizes_agree d (shape (data a)) (shape (data b)) = true.
Proof.
  unfold cat_t, cat. by destruct (sizes_agree d (shape (data a)) (shape (data b))).
Qed.

(** [forward] concatenates each image with its feature map along the
    channels. *)
Lemma forward_cats (s : state) (real_A aux_A real_B aux_B : Tensor params) :
  (forward s).1 = Ok tt →
  tensors s !! "real_A" = Some real_A → tensors s !! "aux_A" = Some aux_A →
  tensors s !! "real_B" = Some real_B → tensors s !! "aux_B" = Some aux_B →
  sizes_agree 1 (shape (data real_A)) (shape (data aux_A)) = true
  ∧ sizes_agree 1 (shape (data real_B)) (shape (data aux_B)) = true.
Proof.
  intros Hok HrA HaA HrB HaB.
  destruct (forward s) as [r s'] eqn:Hrun. cbn [fst] in Hok. subst r.
  unfold forward, attr, setattr, netattr, torch_cat, call in Hrun.
  inv_state Hrun. simplify_eq. split; eapply cat_t_inv; eassumption.
Qed.

(** The tensor attributes of an object on which [set_input] has returned. *)
Lemma set_input_tensors (input : gmap string pyval) (o o' : object) :
  set_input input o = (Ok tt, o') →
  ∃ ta tb pA pB hA hB,
    input !! (if bool_decide (cfg_direction (cfg o) = "AtoB") then "A" else "B")
      = Some (PyTensor ta)
    ∧ input !! (if bool_decide (cfg_direction (cfg o) = "AtoB") then "B" else "A")
      = Some (PyTensor tb)
    ∧ tensors (core o') !! "real_A" = Some (leaf ta)
    ∧ tensors (core o') !! "real_B" = Some (leaf tb)
    ∧ tensors (core o') !! "aux_A" = Some (leaf (unsqueeze0 pA))
    ∧ tensors (core o') !! "aux_B" = Some (leaf (unsqueeze0 pB))
    ∧ tensors (core o') !! "heatmap_A" = Some (leaf hA)
    ∧ tensors (core o') !! "heatmap_B" = Some (leaf hB)
    ∧ core o' = set_tensors (λ _, tensors (core o')) (core o).
Proof.
  intros Hrun. unfold set_input, permute_unsqueeze, reassign in Hrun.
  inv_run Hrun.
  lazymatch goal with
  | HA : input !! (if _ then "A" else "B") = Some (PyTensor ?ta),
    HB : input !! (if _ then "B" else "A") = Some (PyTensor ?tb),
    HhA : calculate_heatmap (data (leaf ?ta)) _ = Ok ?rA,
    HhB : calculate_heatmap (data (leaf ?tb)) _ = Ok ?rB,
    HpA : permute201 (data (leaf (?rA.2))) = Ok ?pA,
    HpB : permute201 (data (leaf (?rB.2))) = Ok ?pB |- _ =>
      exists ta, tb, pA, pB, rA.1, rB.1
  end.
  input_simpl. map_lookups. by repeat split.
Qed.

(** X19.  [forward] after [set_input] can return only on single images:
    the feature maps get one leading dimension of size 1, and [forward]
    concatenates them with the images along the channels, which requires
    all other dimensions to agree.  So both images of the sample have a
    first dimension of size 1 and the height and width of their feature
    maps. *)
Theorem forward_after_set_input_needs_single_images
    (input : gmap string pyval) (o o' : object) :
  set_input input o = (Ok tt, o') →
  (forward (core o')).1 = Ok tt →
  let AtoB := bool_decide (cfg_direction (cfg o) = "AtoB") in
  ∃ ta tb pA pB,
    input !! (if AtoB then "A" else "B") = Some (PyTensor ta)
    ∧ input !! (if AtoB then "B" else "A") = Some (PyTensor tb)
    ∧ tensors (core o') !! "aux_A" = Some (leaf (unsqueeze0 pA))
    ∧ tensors (core o') !! "aux_B" = Some (leaf (unsqueeze0 pB))
    ∧ (∃ n m hw, shape ta = 1%nat :: n :: hw ∧ shape pA = m :: hw)
    ∧ (∃ n m hw, shape tb = 1%nat :: n :: hw ∧ shape pB = m :: hw).
Proof.
  intros (ta & tb & pA & pB & hA & hB & HA & HB & HrA & HrB & HaA & HaB & _)%set_input_tensors
    Hfwd AtoB.
  destruct (forward_cats _ _ _ _ _ Hfwd HrA HaA HrB HaB) as [HsA HsB].
  exists ta, tb, pA, pB. do 4 (split; [done|]).
  cbn [data leaf unsqueeze0 shape length] in HsA, HsB.
  assert (Hshape : ∀ t p,
    sizes_agree 1 (shape t) (1%nat :: shape p) = true →
    ∃ n m hw, shape t = 1%nat :: n :: hw ∧ shape p = m :: hw).
  { intros t p. destruct (shape t) as [|x [|n hw]], (shape p) as [|m hw'];
      cbn [sizes_agree]; try done;
      intros [Hx Hr]%andb_true_iff; try done.
    apply bool_decide_eq_true_1 in Hx as ->. apply bool_decide_eq_true_1 in Hr as ->.
    by exists n, m, hw'. }
  split; by apply Hshape.
Qed.

(** Frames of the operations on the whole object. *)
Lemma frame_on_core {A X} (g : state → X) (m : M state A) :
  frame g m → frame (λ o, g (core o)) (on_core m).
Proof. intros Hm o. apply Hm. Qed.

Lemma frame_on_core_other {A X} (f : object → X) (m : M state A) :
  (∀ o s, f (set_core (λ _, s) o) = f o) → frame f (on_core m).
Proof. intros Hf o. apply Hf. Qed.

Lemma frame_getitem {S A X} (f : S → X) (d : gmap string A) (key : string) :
  frame f (getitem d key).
Proof. unfold getitem. destruct (d !! key); [apply frame_ret|apply frame_raise]. Qed.

Lemma frame_to_device {S X} (f : S → X) (v : pyval) : frame f (to_device v).
Proof. destruct v; [apply frame_ret|apply frame_raise]. Qed.

Lemma frame_call_aux_net {X} (f : object → X) (x : Tensor params) :
  (∀ act o, f (set_activation act o) = f o) → frame f (call_aux_net x).
Proof.
  intros Hf. unfold call_aux_net.
  apply frame_bind; [apply frame_getattr|intros net]. cbv zeta.
  apply frame_bind; [apply frame_gets|intros hs].
  apply frame_bind.
  { destruct (aux_fn net (data x)).1 as [a|]; [|apply frame_ret].
    induction hs as [|name hs IH]; [apply frame_ret|]. cbn [foldr].
    apply frame_bind; [|by intros _].
    apply frame_bind; [apply frame_getattr|intros act]. by apply frame_modify. }
  intros _. apply frame_bind; [apply frame_lift|intros out].
  apply frame_bind; [|intros ge; apply frame_ret].
  intros o. cbn. by destruct o.
Qed.

Lemma cyclegan_frame_set_input {X} (f : object → X) (input : gmap string pyval) :
  (∀ act o, f (set_activation act o) = f o) →
  (∀ p o, f (set_image_paths p o) = f o) →
  (∀ name, frame f (load name)) →
  (∀ name, name ∈ ["real_A"; "real_B"; "aux_A_out"; "aux_B_out"; "heatmap_A";
                    "heatmap_B"; "aux_A"; "aux_B"] →
           ∀ t, frame f (store name t)) →
  frame f (set_input input).
Proof.
  intros Hact Hpaths Hload Hstore. unfold set_input, permute_unsqueeze, reassign.
  repeat lazymatch goal with
         | |- frame _ (mbind _ _) => apply frame_bind; [|intros ?]
         | |- frame _ (let _ := _ in _) => cbv zeta
         | |- frame _ (gets _) => apply frame_gets
         | |- frame _ (getitem _ _) => apply frame_getitem
         | |- frame _ (to_device _) => apply frame_to_device
         | |- frame _ (getattr _ _) => apply frame_getattr
         | |- frame _ (lift _) => apply frame_lift
         | |- frame _ (load _) => apply Hload
         | |- frame _ (store _ _) => apply Hstore; key_in
         | |- frame _ (call_aux_net _) => by apply frame_call_aux_net
         | |- frame _ (modify (set_image_paths _)) => by apply frame_modify
         end.
Qed.

(** X20.  Whether [set_input] returns or raises, it changes no tensor
    attribute other than the eight it assigns, and nothing of the networks,
    losses, optimizers, image pools, options, name lists and hooks.  A
    sample without the key of the first image raises [KeyError] for that key
    and leaves the object as it was; a list in place of the image raises
    [AttributeError] for [to]. *)
Theorem cyclegan_set_input_touches_inputs_only (input : gmap string pyval) (o : object) :
  let AtoB := bool_decide (cfg_direction (cfg o) = "AtoB") in
  let o' := (set_input input o).2 in
  (∀ name, name ∉ ["real_A"; "real_B"; "aux_A_out"; "aux_B_out"; "heatmap_A";
                   "heatmap_B"; "aux_A"; "aux_B"] →
           tensors (core o') !! name = tensors (core o) !! name)
  ∧ nets (core o') = nets (core o) ∧ losses (core o') = losses (core o)
  ∧ optimizer_G (core o') = optimizer_G (core o)
  ∧ optimizer_D (core o') = optimizer_D (core o)
  ∧ fake_A_pool (core o') = fake_A_pool (core o)
  ∧ fake_B_pool (core o') = fake_B_pool (core o)
  ∧ eval_net (core o') = eval_net (core o)
  ∧ grad_enabled (core o') = grad_enabled (core o)
  ∧ opt (core o') = opt (core o) ∧ batch_size (core o') = batch_size (core o)
  ∧ cfg o' = cfg o ∧ isTrain o' = isTrain o
  ∧ self_loss_names o' = self_loss_names o
  ∧ self_visual_names o' = self_visual_names o
  ∧ self_model_names o' = self_model_names o
  ∧ aux_net o' = aux_net o ∧ aux_nc o' = aux_nc o ∧ hooks o' = hooks o
  ∧ (input !! (if AtoB then "A" else "B") = None →
     set_input input o = (Err (KeyError (if AtoB then "A" else "B")), o))
  ∧ (∀ l, input !! (if AtoB then "A" else "B") = Some (PyPaths l) →
     set_input input o = (Err (AttributeError "to"), o)).
Proof.
  intros AtoB o'.
  assert (Hcore : ∀ {X} (g : state → X),
            (∀ h s, g (set_tensors h s) = g s) → g (core o') = g (core o)).
  { intros X g Hg. apply (cyclegan_frame_set_input (λ o, g (core o))); try done.
    - intros name. apply frame_on_core, frame_attr.
    - intros name _ t. apply frame_on_core. by apply frame_modify. }
  assert (Hrest : ∀ {X} (f : object → X),
            (∀ act o, f (set_activation act o) = f o) →
            (∀ p o, f (set_image_paths p o) = f o) →
            (∀ o s, f (set_core (λ _, s) o) = f o) → f o' = f o).
  { intros X f Hact Hp Hc. apply (cyclegan_frame_set_input f); try done.
    - intros name. by apply frame_on_core_other.
    - intros name _ t. by apply frame_on_core_other. }
  split.
  { intros name Hn. apply (cyclegan_frame_set_input (λ o, tensors (core o) !! name)); try done.
    - intros k. apply (frame_on_core (λ s, tensors s !! name)), frame_attr.
    - intros k Hk t. apply (frame_on_core (λ s, tensors s !! name)).
      apply frame_modify. intros s. cbn [tensors set_tensors].
      apply lookup_insert_ne. by intros ->. }
  do 10 (split; [by apply Hcore|]).
  do 8 (split; [by apply Hrest|]).
  split.
  - intros HA. unfold set_input.
    eapply run_step; [reflexivity|]. cbv beta zeta. fold AtoB.
    eapply run_err. unfold getitem. by rewrite HA.
  - intros l HA. unfold set_input.
    eapply run_step; [reflexivity|]. cbv beta zeta. fold AtoB.
    eapply run_step; [by apply getitem_run|]. cbv beta.
    eapply run_err. reflexivity.
Qed.

(** *** A model built for testing *)

(** X21.  A model that [__init__] built with [isTrain] off has no
    discriminators, so it cannot be trained: after any [set_input],
    [optimize_parameters] never returns, and when its forward pass goes
    through it raises [AttributeError] for [netD_A] and leaves the state of
    that forward pass, the four results replaced. *)
Theorem test_model_cannot_train (c : config) (o : object) (input : gmap string pyval) :
  __init__ (after_base c) = (Ok tt, o) →
  cfg_isTrain c = false →
  let s := core (set_input input o).2 in
  is_ok (optimize_parameters s).1 = false
  ∧ ((forward s).1 = Ok tt →
     optimize_parameters s = (Err (AttributeError "netD_A"), (forward s).2)).
Proof.
  intros Hrun Htest s.
  destruct (init_ok_inv c) as (aux & ev & Haux & Hev & Hassert); [by rewrite Hrun|].
  destruct (init_run c aux ev Haux Hev Hassert)
    as (o' & Hrun' & _ & _ & _ & _ & _ & _ & _ & _ & _ & _ & _ & _ & _ & _ & HDA & _).
  rewrite Hrun in Hrun'. injection Hrun' as <-. rewrite Htest in HDA.
  assert (HD : nets s !! D_A = None).
  { subst s. rewrite <- HDA.
    apply (cyclegan_frame_set_input (λ o, nets (core o) !! D_A)); try done;
      intros name; apply (frame_on_core (λ s, nets s !! D_A)), frame_attr. }
  assert (Hopt : ∀ u s1, forward s = (Ok u, s1) →
                 optimize_parameters s = (Err (AttributeError "netD_A"), s1)).
  { intros u s1 Hf.
    assert (HD1 : nets s1 !! D_A = None).
    { pose proof (frame_forward (λ s, nets s !! D_A) (λ _ _, eq_refl) s) as Hfr.
      rewrite Hf in Hfr. cbn [snd] in Hfr. by rewrite Hfr. }
    unfold optimize_parameters. rewrite run_bind, Hf.
    rewrite run_bind. unfold generator_step. rewrite run_bind.
    unfold netattr, getattr. by rewrite HD1. }
  split.
  - destruct (forward s) as [[u|e] s1] eqn:Hf.
    + by rewrite (Hopt u s1).
    + unfold optimize_parameters. rewrite run_bind, Hf. done.
  - intros Hok. destruct (forward s) as [r s1] eqn:Hf. cbn [fst snd] in *. subst r.
    by apply (Hopt tt).
Qed.
End CycleGANProperties.

(** The properties of the CycleGAN model on explicit inputs. *)

Lemma forward_computes_witness :
  ∃ fake_B rec_A fake_A rec_B,
    PerceptualCycleGANModel.forward (Examples.cyclegan Toy.half) =
      (Ok tt,
       PerceptualCycleGANModel.set_tensors
         (λ m, <["rec_B" := rec_B]>
                 (<["fake_A" := fake_A]>
                    (<["rec_A" := rec_A]> (<["fake_B" := fake_B]> m))))
         (Examples.cyclegan Toy.half))
    ∧ Toy.entries (PerceptualCycleGANModel.data fake_B) = [2; 0]%Q
    ∧ Toy.entries (PerceptualCycleGANModel.data rec_A) = [6; 0]%Q
    ∧ Toy.entries (PerceptualCycleGANModel.data fake_A) = [0; 3]%Q
    ∧ Toy.entries (PerceptualCycleGANModel.data rec_B) = [0; 6]%Q.
Proof.
  eexists _, _, _, _. split.
  - etransitivity.
    + eapply (forward_computes (Examples.cyclegan Toy.half)); reflexivity.
    + reflexivity.
  - repeat split; reflexivity.
Defined.

(** C2, as the claim words it: each identity distance would enter [loss_G]
    with the weight [lambda_identity].  With [lambda_A = lambda_B = 10] and
    [lambda_identity = 1/2] the stored [loss_G] is [61], the sum as stated is
    [217/4]. *)
Lemma identity_weight_is_not_lambda_identity :
  ¬ PerceptualCycleGANModel.loss_G_as_stated (Examples.cyclegan_forwarded Toy.half).
Proof.
  intros Hc.
  destruct (PerceptualCycleGANModel.adversarial_and_cycle
              (Examples.cyclegan_forwarded Toy.half))
    as [[[[adv_A adv_B] cyc_A] cyc_B]|] eqn:Hac; [|vm_compute in Hac; discriminate Hac].
  destruct (PerceptualCycleGANModel.identity_distances
              (Examples.cyclegan_forwarded Toy.half))
    as [[idt_A idt_B]|] eqn:Hid; [|vm_compute in Hid; discriminate Hid].
  specialize (Hc _ _ _ _ _ _ eq_refl eq_refl).
  vm_compute in Hac. injection Hac as <- <- <- <-.
  vm_compute in Hid. injection Hid as <- <-.
  vm_compute in Hc. discriminate Hc.
Qed.

Lemma loss_G_is_sum_of_weighted_terms_witness :
  ∃ s' adv_A adv_B cyc_A cyc_B idt_A idt_B,
    PerceptualCycleGANModel.backward_G (Examples.cyclegan_forwarded Toy.half) = (Ok tt, s')
    ∧ PerceptualCycleGANModel.loss_value s' "loss_G" =
        Some (adv_A + adv_B + cyc_A * Examples.ten + cyc_B * Examples.ten
              + idt_A * Examples.ten * Toy.half + idt_B * Examples.ten * Toy.half)
    ∧ [this adv_A; this adv_B; this cyc_A; this cyc_B; this idt_A; this idt_B]
      = [1; 5 # 2; 5 # 2; 5 # 2; 1 # 2; 1]%Q.
Proof.
  pose proof (loss_G_is_sum_of_weighted_terms (Examples.cyclegan_forwarded Toy.half))
    as Hthm.
  edestruct Hthm as [Hpos _]; [reflexivity..|].
  edestruct Hpos as (s' & Hrun & Hval); [reflexivity..|].
  eexists s', _, _, _, _, _, _. split; [exact Hrun|]. split; [exact Hval|].
  reflexivity.
Defined.

Lemma discriminator_loss_is_average_witness :
  let s := Examples.cyclegan_forwarded Toy.half in
  let fake_B := Examples.stored s "fake_B" in
  PerceptualCycleGANModel.tracked (PerceptualCycleGANModel.tgraph fake_B) = true
  ∧ ∃ loss s' v_real v_fake,
      PerceptualCycleGANModel.backward_D_basic PerceptualCycleGANModel.D_A
        (PerceptualCycleGANModel.leaf (Toy.image 0 1)) fake_B s = (Ok loss, s')
      ∧ PerceptualCycleGANModel.lval loss = (v_real + v_fake) / 2
      ∧ [this v_real; this v_fake] = [1 # 2; 2]%Q
      ∧ PerceptualCycleGANModel.nets s' !! PerceptualCycleGANModel.G_A =
          PerceptualCycleGANModel.nets s !! PerceptualCycleGANModel.G_A
      ∧ PerceptualCycleGANModel.nets s' !! PerceptualCycleGANModel.G_B =
          PerceptualCycleGANModel.nets s !! PerceptualCycleGANModel.G_B.
Proof.
  intros s fake_B. split; [reflexivity|].
  edestruct (discriminator_loss_is_average s PerceptualCycleGANModel.D_A
               (Examples.trainable 1)
               (PerceptualCycleGANModel.leaf (Toy.image 0 1)) fake_B)
    as (loss & s' & Hrun & Hval & Hleaves & Hframe); [reflexivity..|].
  eexists loss, s', _, _.
  split; [exact Hrun|]. split; [exact Hval|]. split; [reflexivity|].
  split; apply Hframe; try done; cbn; set_solver.
Defined.

Lemma optimize_parameters_frames_witness :
  let s1 := Examples.cyclegan_forwarded Toy.half in
  let s2 := (PerceptualCycleGANModel.generator_step s1).2 in
  let s3 := (PerceptualCycleGANModel.discriminator_step s2).2 in
  PerceptualCycleGANModel.params_of PerceptualCycleGANModel.D_A s2 =
    PerceptualCycleGANModel.params_of PerceptualCycleGANModel.D_A s1
  ∧ PerceptualCycleGANModel.params_of PerceptualCycleGANModel.D_B s2 =
      PerceptualCycleGANModel.params_of PerceptualCycleGANModel.D_B s1
  ∧ PerceptualCycleGANModel.requires_grad_of PerceptualCycleGANModel.D_A s2 = Some false
  ∧ PerceptualCycleGANModel.requires_grad_of PerceptualCycleGANModel.D_B s2 = Some false
  ∧ PerceptualCycleGANModel.requires_grad_of PerceptualCycleGANModel.D_A s3 = Some true
  ∧ PerceptualCycleGANModel.requires_grad_of PerceptualCycleGANModel.D_B s3 = Some true
  ∧ PerceptualCycleGANModel.params_of PerceptualCycleGANModel.G_A s3 =
      PerceptualCycleGANModel.params_of PerceptualCycleGANModel.G_A s2
  ∧ PerceptualCycleGANModel.params_of PerceptualCycleGANModel.G_B s3 =
      PerceptualCycleGANModel.params_of PerceptualCycleGANModel.G_B s2.
Proof.
  intros s1 s2 s3.
  destruct optimize_parameters_frames as (_ & HD & HG).
  assert (HA : PerceptualCycleGANModel.D_A ∈ PerceptualCycleGANModel.optimizer_D_params)
    by apply list_elem_of_here.
  assert (HB : PerceptualCycleGANModel.D_B ∈ PerceptualCycleGANModel.optimizer_D_params)
    by apply list_elem_of_further, list_elem_of_here.
  assert (HGA : PerceptualCycleGANModel.G_A ∈ PerceptualCycleGANModel.optimizer_G_params)
    by apply list_elem_of_here.
  assert (HGB : PerceptualCycleGANModel.G_B ∈ PerceptualCycleGANModel.optimizer_G_params)
    by apply list_elem_of_further, list_elem_of_here.
  destruct (HD _ HA) as (HpA & _ & _ & _ & HfA & HtA).
  destruct (HD _ HB) as (HpB & _ & _ & _ & HfB & HtB).
  split; [apply HpA|]. split; [apply HpB|].
  split; [apply HfA; apply is_Some_alt; vm_compute; exact I|].
  split; [apply HfB; apply is_Some_alt; vm_compute; exact I|].
  split; [apply HtA; apply is_Some_alt; vm_compute; exact I|].
  split; [apply HtB; apply is_Some_alt; vm_compute; exact I|].
  split; [apply (HG _ HGA)|apply (HG _ HGB)].
Defined.

(** A whole training step on the example: it returns, the generator block
    moves the weights of both generators and the discriminator block those
    of both discriminators. *)
Example optimize_parameters_example :
  let s := Examples.cyclegan Toy.half in
  let s1 := Examples.cyclegan_forwarded Toy.half in
  let s2 := (PerceptualCycleGANModel.generator_step s1).2 in
  let weights (st : PerceptualCycleGANModel.state) :=
    (λ n, this <$> PerceptualCycleGANModel.params_of n st)
      <$> [PerceptualCycleGANModel.G_A; PerceptualCycleGANModel.G_B;
           PerceptualCycleGANModel.D_A; PerceptualCycleGANModel.D_B] in
  (PerceptualCycleGANModel.optimize_parameters s).1 = Ok tt
  ∧ weights s1 = [Some 2; Some 3; Some 1; Some 1]%Q
  ∧ weights s2 = [Some (8 # 5); Some (13 # 5); Some 1; Some 1]%Q
  ∧ weights (PerceptualCycleGANModel.optimize_parameters s).2 =
      [Some (8 # 5); Some (13 # 5); Some (4 # 5); Some (4 # 5)]%Q.
Proof. repeat split; vm_compute; reflexivity. Qed.

Lemma zero_identity_weight_witness :
  let s := Examples.cyclegan_forwarded 0 in
  PerceptualCycleGANModel.identity_losses 0 Examples.ten Examples.ten s =
    (Ok tt,
     PerceptualCycleGANModel.set_losses
       (λ m, <["loss_idt_B" := PerceptualCycleGANModel.number 0]>
               (<["loss_idt_A" := PerceptualCycleGANModel.number 0]> m)) s)
  ∧ PerceptualCycleGANModel.losses (PerceptualCycleGANModel.backward_G s).2
      !! "loss_idt_A" = Some (PerceptualCycleGANModel.number 0)
  ∧ PerceptualCycleGANModel.losses (PerceptualCycleGANModel.backward_G s).2
      !! "loss_idt_B" = Some (PerceptualCycleGANModel.number 0)
  ∧ ∃ s' adv_A adv_B cyc_A cyc_B,
      PerceptualCycleGANModel.backward_G s = (Ok tt, s')
      ∧ PerceptualCycleGANModel.loss_value s' "loss_G" =
          Some (adv_A + adv_B + cyc_A * Examples.ten + cyc_B * Examples.ten)
      ∧ [this adv_A; this adv_B; this cyc_A; this cyc_B] = [1; 5 # 2; 5 # 2; 5 # 2]%Q.
Proof.
  intros s.
  destruct (zero_identity_weight s eq_refl) as (Hbranch & HA & HB & Hrun).
  split; [exact Hbranch|]. split; [exact HA|]. split; [exact HB|].
  edestruct Hrun as (s' & Hs' & HG); [reflexivity..|].
  eexists s', _, _, _, _. split; [exact Hs'|]. split; [exact HG|]. reflexivity.
Defined.



(** The further properties of the CycleGAN model on explicit inputs. *)

Lemma backward_D_A_run_witness :
  let s := Examples.cyclegan_forwarded Toy.half in
  ∃ s' v_real v_fake,
    PerceptualCycleGANModel.backward_D_A s = (Ok tt, s')
    ∧ PerceptualCycleGANModel.loss_value s' "loss_D_A" = Some ((v_real + v_fake) / 2)
    ∧ [this v_real; this v_fake] = [1 # 2; 2]%Q
    ∧ PerceptualCycleGANModel.fake_B_pool s' =
        Some (Some (PerceptualCycleGANModel.detach (Examples.stored s "fake_B")))
    ∧ PerceptualCycleGANModel.nets s' !! PerceptualCycleGANModel.G_A =
        PerceptualCycleGANModel.nets s !! PerceptualCycleGANModel.G_A.
Proof.
  intros s.
  edestruct (backward_D_A_run s None
               (Some (PerceptualCycleGANModel.detach (Examples.stored s "fake_B")))
               (Examples.trainable 1) (Examples.stored s "fake_B")
               (PerceptualCycleGANModel.detach (Examples.stored s "fake_B"))
               (PerceptualCycleGANModel.leaf (Toy.image 0 1)))
    as (s' & Hrun & Hval & Hpool & Hframe); [reflexivity..|].
  eexists s', _, _.
  split; [exact Hrun|]. split; [exact Hval|]. split; [reflexivity|].
  split; [exact Hpool|]. apply Hframe; [done|]. apply not_elem_of_empty.
Defined.

Lemma backward_D_B_run_witness :
  let s := Examples.cyclegan_forwarded Toy.half in
  ∃ s' v_real v_fake,
    PerceptualCycleGANModel.backward_D_B s = (Ok tt, s')
    ∧ PerceptualCycleGANModel.loss_value s' "loss_D_B" = Some ((v_real + v_fake) / 2)
    ∧ PerceptualCycleGANModel.fake_A_pool s' =
        Some (Some (PerceptualCycleGANModel.detach (Examples.stored s "fake_A")))
    ∧ PerceptualCycleGANModel.nets s' !! PerceptualCycleGANModel.G_B =
        PerceptualCycleGANModel.nets s !! PerceptualCycleGANModel.G_B.
Proof.
  intros s.
  edestruct (backward_D_B_run s None
               (Some (PerceptualCycleGANModel.detach (Examples.stored s "fake_A")))
               (Examples.trainable 1) (Examples.stored s "fake_A")
               (PerceptualCycleGANModel.detach (Examples.stored s "fake_A"))
               (PerceptualCycleGANModel.leaf (Toy.image 1 0)))
    as (s' & Hrun & Hval & Hpool & Hframe); [reflexivity..|].
  eexists s', _, _.
  split; [exact Hrun|]. split; [exact Hval|].
  split; [exact Hpool|]. apply Hframe; [done|]. apply not_elem_of_empty.
Defined.

Lemma example_inputs_without_history (n : PerceptualCycleGANModel.net_id)
    (lambda_idt : Qc) (name : string) (t : PerceptualCycleGANModel.Tensor Qc) :
  PerceptualCycleGANModel.tensors (Examples.cyclegan lambda_idt) !! name = Some t →
  n ∉ PerceptualCycleGANModel.leaves (PerceptualCycleGANModel.tgraph t).
Proof.
  cbn [Examples.cyclegan PerceptualCycleGANModel.tensors]. intros Hl.
  repeat (apply lookup_insert_Some in Hl as [[_ <-]|[_ Hl]]; [cbn; set_solver|]).
  by rewrite lookup_empty in Hl.
Qed.

Lemma forward_and_generator_step_spare_discriminators_witness :
  let s := Examples.cyclegan Toy.half in
  PerceptualCycleGANModel.grad_of PerceptualCycleGANModel.D_A
    ((PerceptualCycleGANModel.forward
        ≫= λ _, PerceptualCycleGANModel.generator_step) s).2 =
  PerceptualCycleGANModel.grad_of PerceptualCycleGANModel.D_A s.
Proof.
  intros s.
  apply (forward_and_generator_step_spare_discriminators PerceptualCycleGANModel.D_A s).
  - apply list_elem_of_here.
  - apply example_inputs_without_history.
Defined.

Lemma discriminator_step_spares_generators_witness :
  let s := (PerceptualCycleGANModel.generator_step
              (Examples.cyclegan_forwarded Toy.half)).2 in
  PerceptualCycleGANModel.nets
    (PerceptualCycleGANModel.discriminator_step s).2 !! PerceptualCycleGANModel.G_A =
  PerceptualCycleGANModel.nets s !! PerceptualCycleGANModel.G_A.
Proof.
  intros s.
  apply (discriminator_step_spares_generators PerceptualCycleGANModel.G_A s).
  - apply list_elem_of_here.
  - intros t Hl.
    assert (Ht : t = PerceptualCycleGANModel.leaf (Toy.image 1 0)).
    { enough (Some t = Some (PerceptualCycleGANModel.leaf (Toy.image 1 0))) as [= ->]
        by done.
      rewrite <- Hl. reflexivity. }
    rewrite Ht. apply not_elem_of_empty.
  - intros t Hl.
    assert (Ht : t = PerceptualCycleGANModel.leaf (Toy.image 0 1)).
    { enough (Some t = Some (PerceptualCycleGANModel.leaf (Toy.image 0 1))) as [= ->]
        by done.
      rewrite <- Hl. reflexivity. }
    rewrite Ht. apply not_elem_of_empty.
Defined.

Lemma optimize_parameters_assigns_losses_witness :
  let s := Examples.cyclegan Toy.half in
  Forall (λ name, is_Some (PerceptualCycleGANModel.losses
                             (PerceptualCycleGANModel.optimize_parameters s).2
                           !! ("loss_" +:+ name)))
    PerceptualCycleGANModel.loss_names.
Proof.
  intros s. apply Forall_forall.
  apply (optimize_parameters_assigns_losses s
           (PerceptualCycleGANModel.optimize_parameters s).2).
  apply (run_returns (PerceptualCycleGANModel.optimize_parameters s) tt).
  vm_compute. reflexivity.
Defined.

(** Construction and input pre-processing on the example options and
    sample. *)

Lemma cyclegan_init_builds_witness :
  let o := Examples.built true Toy.half in
  PerceptualCycleGANModel.hooks o = ["layer4"]
  ∧ PerceptualCycleGANModel.self_model_names o = ["G_A"; "G_B"; "D_A"; "D_B"]
  ∧ "idt_A" ∈ PerceptualCycleGANModel.self_visual_names o.
Proof.
  intros o.
  destruct (cyclegan_init_builds (Examples.cyclegan_options true Toy.half) o)
    as (_ & _ & Htrain & _ & _ & Hphase & Hhooks & _ & _ & _ & _ & _ & _ & _ & Hidt).
  { apply (run_returns (PerceptualCycleGANModel.__init__ _) tt).
    vm_compute. reflexivity. }
  split; [exact Hhooks|].
  assert (Ht : PerceptualCycleGANModel.isTrain o = true) by (by rewrite Hphase).
  rewrite Ht in Htrain. split; [apply Htrain|].
  apply Hidt. split; [exact Ht|]. vm_compute. reflexivity.
Defined.

Lemma cyclegan_set_input_assigns_witness :
  let o := Examples.built true Toy.half in
  let o' := (PerceptualCycleGANModel.set_input Examples.pair o).2 in
  ∃ pA pB,
    PerceptualCycleGANModel.tensors (PerceptualCycleGANModel.core o') !! "real_A"
      = Some (PerceptualCycleGANModel.leaf (Toy.image 1 0))
    ∧ PerceptualCycleGANModel.tensors (PerceptualCycleGANModel.core o') !! "real_B"
      = Some (PerceptualCycleGANModel.leaf (Toy.image 0 1))
    ∧ PerceptualCycleGANModel.tensors (PerceptualCycleGANModel.core o') !! "aux_A"
      = Some (PerceptualCycleGANModel.leaf (unsqueeze0 pA))
    ∧ PerceptualCycleGANModel.tensors (PerceptualCycleGANModel.core o') !! "aux_B"
      = Some (PerceptualCycleGANModel.leaf (unsqueeze0 pB))
    ∧ PerceptualCycleGANModel.image_paths o' = Some (PyPaths ["a.png"]).
Proof.
  intros o o'.
  destruct (cyclegan_set_input_assigns Examples.pair o o')
    as (ta & tb & pA & pB & HA & HB & Hpaths & HrA & HrB & HaA & HaB & _).
  { apply (run_returns (PerceptualCycleGANModel.set_input _ _) tt).
    vm_compute. reflexivity. }
  assert (Hta : ta = Toy.image 1 0).
  { enough (Some (PyTensor ta) = Some (PyTensor (Toy.image 1 0))) as [= ->] by done.
    rewrite <- HA. reflexivity. }
  assert (Htb : tb = Toy.image 0 1).
  { enough (Some (PyTensor tb) = Some (PyTensor (Toy.image 0 1))) as [= ->] by done.
    rewrite <- HB. reflexivity. }
  subst ta tb. exists pA, pB.
  split; [exact HrA|]. split; [exact HrB|]. split; [exact HaA|]. split; [exact HaB|].
  rewrite Hpaths. reflexivity.
Defined.

Lemma cyclegan_set_input_returns_iff_witness :
  is_ok (PerceptualCycleGANModel.set_input Examples.pair
           (Examples.built true Toy.half)).1 = true.
Proof.
  assert (Hrun : ∃ o', PerceptualCycleGANModel.set_input Examples.pair
                         (Examples.built true Toy.half) = (Ok tt, o')).
  { assert (Hreach : ∀ x : tensor,
              is_ok (PerceptualCycleGANModel.aux_fn tt x).2 = true →
              is_Some (PerceptualCycleGANModel.aux_fn tt x).1).
    { intros x _. eexists. reflexivity. }
    eexists.
    apply (proj2 (cyclegan_set_input_returns_iff Examples.pair
                    (Examples.built true Toy.half) _ tt ∅
                    eq_refl eq_refl eq_refl Hreach)).
    eexists (Toy.image 1 0), (Toy.image 0 1), (PyPaths ["a.png"]), _, _, _, _, _, _, _, _, _, _.
    split; [reflexivity|]. split; [reflexivity|]. split; [reflexivity|].
    split; [reflexivity|]. split; [reflexivity|]. split; [reflexivity|].
    split; [reflexivity|]. split; [reflexivity|]. split; [reflexivity|].
    reflexivity. }
  destruct Hrun as [o' ->]. reflexivity.
Defined.

Lemma forward_after_set_input_needs_single_images_witness :
  let o := Examples.built true Toy.half in
  let o' := (PerceptualCycleGANModel.set_input Examples.pair o).2 in
  let AtoB := bool_decide (PerceptualCycleGANModel.cfg_direction
                             (PerceptualCycleGANModel.cfg o) = "AtoB") in
  ∃ ta tb pA pB,
    Examples.pair !! (if AtoB then "A" else "B") = Some (PyTensor ta)
    ∧ Examples.pair !! (if AtoB then "B" else "A") = Some (PyTensor tb)
    ∧ PerceptualCycleGANModel.tensors (PerceptualCycleGANModel.core o') !! "aux_A"
      = Some (PerceptualCycleGANModel.leaf (unsqueeze0 pA))
    ∧ PerceptualCycleGANModel.tensors (PerceptualCycleGANModel.core o') !! "aux_B"
      = Some (PerceptualCycleGANModel.leaf (unsqueeze0 pB))
    ∧ (∃ n m hw, shape ta = 1%nat :: n :: hw ∧ shape pA = m :: hw)
    ∧ (∃ n m hw, shape tb = 1%nat :: n :: hw ∧ shape pB = m :: hw).
Proof.
  intros o o'.
  apply (forward_after_set_input_needs_single_images Examples.pair o o').
  - apply (run_returns (PerceptualCycleGANModel.set_input _ _) tt).
    vm_compute. reflexivity.
  - vm_compute. reflexivity.
Defined.

Lemma test_model_cannot_train_witness :
  let s := PerceptualCycleGANModel.core
             (PerceptualCycleGANModel.set_input Examples.pair
                (Examples.built false Toy.half)).2 in
  PerceptualCycleGANModel.optimize_parameters s =
    (Err (AttributeError "netD_A"), (PerceptualCycleGANModel.forward s).2).
Proof.
  intros s.
  apply (test_model_cannot_train (Examples.cyclegan_options false Toy.half)
           (Examples.built false Toy.half) Examples.pair).
  - apply (run_returns (PerceptualCycleGANModel.__init__ _) tt).
    vm_compute. reflexivity.
  - reflexivity.
  - vm_compute. reflexivity.
Defined.
